(** * The rollup driver of cp-node: event loop, sync deriver and admin calls

    A shallow embedding of [cp-node/rollup/driver/state.go] (and of the
    channel set-up of [driver.go]).  Sequential code is written in a state
    monad over the state of the external collaborators and a trace of the
    calls and emissions the driver performs; the two admin calls that talk
    to the loop over channels are written as a labelled transition system.
    Log statements are not modelled: they have no effect on control flow. *)

From Stdlib Require Import ZArith Lia Bool String.
From stdpp Require Import base tactics option list gmap.

Local Open Scope Z_scope.

(* ===================================================================== *)
(** ** Machine integers *)
(* ===================================================================== *)

(** Go's [uint64] and [int64] are kept as [Z] with the wrap-around of every
    operation written out. *)

Definition two64 : Z := 2 ^ 64.
Definition two63 : Z := 2 ^ 63.

Definition wrap64 (x : Z) : Z := x mod two64.

Definition add64 (x y : Z) : Z := wrap64 (x + y).
Definition sub64 (x y : Z) : Z := wrap64 (x - y).

(** [int64(u)] for [u : uint64]: the two's complement reading. *)
Definition toInt64 (u : Z) : Z :=
  let w := wrap64 u in if w <? two63 then w else w - two64.

(** Addition on [int64]. *)
Definition addInt64 (x y : Z) : Z := toInt64 (x + y).

(** The [Uint64] method of [big.Int]: the low 64 bits of the magnitude; the
    sign is dropped. *)
Definition bigUint64 (x : Z) : Z := Z.abs x mod two64.

(* ===================================================================== *)
(** ** clamp *)
(* ===================================================================== *)

(** [clamp(start, end, size)]: [start] and [end] are [big.Int] pointers, so
    unbounded integers; [count] and [size] are [uint64]. *)
Definition clamp (start end_ : Z) (size : Z) : Z :=
  let count := add64 (bigUint64 (end_ - start)) 1 in
  if count <=? size then end_
  else start + toInt64 (sub64 size 1).

(* ===================================================================== *)
(** ** Data model *)
(* ===================================================================== *)

(** Modelled from the spec: package [eth] is not among the sources.  A
    32-byte hash is an opaque number, the all-zero hash being 0. *)
Definition common_Hash : Type := Z.

(** Modelled from the spec: [eth.BlockID], the pair (hash, number). *)
Record BlockID : Type := mkBlockID {
  id_Hash : common_Hash;
  id_Number : Z
}.

(** Modelled from the spec: [eth.L2BlockRef], a block reference of the local
    chain: [{hash, number, parentHash, timestamp}] and additionally
    [{baseLayerOrigin, sequenceNumber}]. *)
Record L2BlockRef : Type := mkL2BlockRef {
  Hash : common_Hash;
  Number : Z;
  ParentHash : common_Hash;
  Time : Z;
  L1Origin : BlockID;
  SequenceNumber : Z
}.

(** The Go zero value [eth.L2BlockRef{}]. *)
Definition L2BlockRef_zero : L2BlockRef :=
  mkL2BlockRef 0 0 0 0 (mkBlockID 0 0) 0.

Definition L2BlockRef_ID (r : L2BlockRef) : BlockID :=
  mkBlockID (Hash r) (Number r).

#[global] Instance BlockID_eq_dec : EqDecision BlockID.
Proof. solve_decision. Defined.

#[global] Instance L2BlockRef_eq_dec : EqDecision L2BlockRef.
Proof. solve_decision. Defined.

(** Modelled from the spec: the execution payload is opaque to the driver
    except for [id = (hash, number)], [parentHash] and [timestamp]. *)
Record ExecutionPayload : Type := mkPayload {
  BlockHash : common_Hash;
  BlockNumber : Z;
  PayloadParentHash : common_Hash;
  Timestamp : Z
}.

Record ExecutionPayloadEnvelope : Type := mkEnvelope {
  ParentBeaconBlockRoot : option common_Hash;
  Payload : ExecutionPayload
}.

(** [eth.BlockInfo] as the driver uses it: only [NumberU64] is called. *)
Record BlockInfo : Type := mkBlockInfo {
  NumberU64 : Z
}.

(** Modelled from the spec: the part of [eth.SyncStatus] that
    [BlockRefWithStatus] reads. *)
Record SyncStatus : Type := mkSyncStatus {
  UnsafeL2 : L2BlockRef;
  SafeL2 : L2BlockRef;
  FinalizedL2 : L2BlockRef
}.

(** Go [error] values.  [ErrWrap] is what [fmt.Errorf] with [%w] builds. *)
Inductive Err : Type :=
| ErrNotFound            (* ethereum.NotFound *)
| ErrCanceled            (* context.Canceled *)
| ErrDeadlineExceeded    (* context.DeadlineExceeded *)
| ErrOther (msg : string)
| ErrWrap (msg : string) (inner : Err).

(** [errors.Is(err, ethereum.NotFound)]. *)
Fixpoint isNotFound (e : Err) : bool :=
  match e with
  | ErrNotFound => true
  | ErrWrap _ inner => isNotFound inner
  | _ => false
  end.

(** [errors.Is(err, context.Canceled)]. *)
Fixpoint isCanceled (e : Err) : bool :=
  match e with
  | ErrCanceled => true
  | ErrWrap _ inner => isCanceled inner
  | _ => false
  end.

(** [err != nil && errors.Is(err, ethereum.NotFound)]. *)
Definition isNotFoundErr (err : option Err) : bool :=
  match err with Some e => isNotFound e | None => false end.

(** [sync.Mode] is an integer type with the two named values [CLSync] and
    [ELSync]; the driver compares against each of them separately. *)
Inductive Mode : Type := CLSync | ELSync | ModeOther (n : Z).

#[global] Instance Mode_eq_dec : EqDecision Mode.
Proof. solve_decision. Defined.

(** A Go channel is identified by the call that made it. *)
Definition ChanId : Type := nat.

(** The events the driver and the sync deriver emit or receive.  Of
    [EngineResetConfirmedEvent] only the field the driver reads is kept. *)
Inductive Event : Type :=
| StepReqEvent
| StepAttemptEvent
| StepEvent
| ResetStepBackoffEvent
| SequencerActionEvent
| FinalizeL1Event
| ReceivedUnsafePayloadEvent (envelope : ExecutionPayloadEnvelope)
| ResetEvent (err : Err)
| ResetEngineRequestEvent
| EngineResetConfirmedEvent (CrossSafe : L2BlockRef)
| ConfirmPipelineResetEvent
| L1TemporaryErrorEvent (err : Err)
| EngineTemporaryErrorEvent (err : Err)
| DeriverIdleEvent
| DeriverMoreEvent
| SafeDerivedEvent (Safe : L2BlockRef)
| ProvideL1Traversal
| CriticalErrorEvent (err : Err)
| TryBackupUnsafeReorgEvent
| TryUpdateEngineEvent
| PendingSafeRequestEvent
| CrossUpdateRequestEvent
| OtherEvent (name : string).

(** The driver holds two emitters on the same bus: its own ([s.emitter],
    registered as "driver") and the sync deriver's ([s.Emitter]). *)
Inductive EmitterName : Type := DriverEmitter | SyncEmitter.

(** What the driver does to the outside: events put on the bus and calls on
    the collaborators, in program order. *)
Inductive Call : Type :=
| Emit (from : EmitterName) (ev : Event)
| CallDrain
| CallRequestL2Range (start end_ : L2BlockRef)
| CallInsertUnsafePayload (envelope : ExecutionPayloadEnvelope) (ref : L2BlockRef)
| CallL2GetLatestBlock
| CallELGetLatestBlock
| CallPayloadsByRange (startHeight endHeight : Z)
| CallPipelineReset
| CallRecordPipelineReset
| CallRecordReceivedUnsafePayload (envelope : ExecutionPayloadEnvelope)
| CallSafeHeadReset (ref : L2BlockRef)
| CallSafeHeadUpdated (ref : L2BlockRef)
| SequencerTimerDrain
| SequencerTimerReset (nextAction : Z)
| AltSyncTickerReset
| ChanSend (c : ChanId)
| ChanClose (c : ChanId).

(** The events of a trace, in order. *)
Definition emitted (cs : list Call) : list Event :=
  omap (fun c => match c with Emit _ ev => Some ev | _ => None end) cs.

Definition isConfirmPipelineReset (ev : Event) : bool :=
  match ev with ConfirmPipelineResetEvent => true | _ => false end.

(** How often [ConfirmPipelineResetEvent] is emitted in a trace. *)
Definition confirms (cs : list Call) : nat :=
  length (List.filter isConfirmPipelineReset (emitted cs)).

Definition isInsert (c : Call) : bool :=
  match c with CallInsertUnsafePayload _ _ => true | _ => false end.

(** The static part of a [Driver] and its [SyncDeriver]. *)
Record Config : Type := mkConfig {
  SyncMode : Mode;               (* s.SyncCfg.SyncMode *)
  ManagedMode : bool;            (* s.ManagedMode *)
  SafeHeadNotifsSet : bool;      (* s.SafeHeadNotifs != nil *)
  GenesisL2 : BlockID;           (* s.Config.Genesis.L2 *)
  InteropTimeSet : bool;         (* s.Config.InteropTime != nil *)
  maxBatchSize : Z;              (* s.maxBatchSize, a uint *)
  drainSet : bool                (* s.drain != nil *)
}.

(** The collaborators behind the driver's interfaces, as operations on a
    state [W] the driver does not see into.  A read returns a value; a call
    returns its result and the next state. *)
Class Collaborators (W : Type) : Type := {
  (* the driver's own context *)
  driverCtx_Err : W -> option Err;
  (* event system *)
  drain : W -> option Err * W;
  (* EngineController *)
  Engine_UnsafeL2Head : W -> L2BlockRef;
  Engine_IsEngineSyncing : W -> bool;
  Engine_InsertUnsafePayload :
    ExecutionPayloadEnvelope -> L2BlockRef -> W -> option Err * W;
  (* DerivationPipeline *)
  Derivation_Reset : W -> W;
  Derivation_DerivationReady : W -> bool;
  (* CLSync *)
  CLSync_LowestQueuedUnsafeBlock : W -> L2BlockRef;
  (* AltSync *)
  altSync_RequestL2Range : L2BlockRef -> L2BlockRef -> W -> option Err * W;
  (* L2Chain and the EL client *)
  L2_GetLatestBlock : W -> (option BlockInfo * option Err) * W;
  L2_L2BlockRefByNumber : Z -> W -> L2BlockRef * option Err;
  ELClient_GetLatestBlock : W -> (option BlockInfo * option Err) * W;
  ELClient_PayloadsByRange :
    Z -> Z -> W -> (list ExecutionPayloadEnvelope * option Err) * W;
  (* derive.PayloadToBlockRef, for the rollup configuration of the driver *)
  derive_PayloadToBlockRef : ExecutionPayload -> L2BlockRef * option Err;
  (* rollup.SafeHeadListener *)
  SafeHeadNotifs_Enabled : W -> bool;
  SafeHeadNotifs_SafeHeadReset : L2BlockRef -> W -> option Err * W;
  SafeHeadNotifs_SafeHeadUpdated : L2BlockRef -> W -> option Err * W;
  (* sequencer and its timer *)
  sequencer_NextAction : W -> Z * bool;
  sequencerTimer_pending : W -> bool;
  (* metrics *)
  metrics_RecordPipelineReset : W -> W;
  metrics_RecordReceivedUnsafePayload : ExecutionPayloadEnvelope -> W -> W;
  (* status tracker *)
  statusTracker_SyncStatus : W -> SyncStatus
}.

(** The variables of [eventLoop] that live across iterations. *)
Record Locals : Type := mkLocals {
  sequencerChSet : bool;         (* sequencerCh != nil *)
  prevTime : Z;
  lastUnsafeL2 : L2BlockRef
}.

(* ===================================================================== *)
(** ** The driver monad *)
(* ===================================================================== *)

Section DriverMonad.
Context {W : Type}.

Record State : Type := mkState {
  world : W;
  locals : Locals;
  calls : list Call
}.

Definition M (A : Type) : Type := State -> A * State.

Definition ret {A : Type} (a : A) : M A := fun s => (a, s).

Definition bind {A B : Type} (m : M A) (k : A -> M B) : M B :=
  fun s => let '(a, s') := m s in k a s'.

(** A read of the collaborators' state. *)
Definition ask {A : Type} (f : W -> A) : M A :=
  fun s => (f (world s), s).

(** A call on a collaborator: it is recorded, then performed. *)
Definition invoke {A : Type} (c : Call) (f : W -> A * W) : M A :=
  fun s => let '(a, w') := f (world s) in
           (a, mkState w' (locals s) (calls s ++ [c])).

Definition invoke_ (c : Call) (f : W -> W) : M unit :=
  invoke c (fun w => (tt, f w)).

(** An action with no modelled result, such as emitting on the bus. *)
Definition record (c : Call) : M unit := invoke_ c (fun w => w).

Definition getLocals : M Locals := fun s => (locals s, s).

Definition setLocals (l : Locals) : M unit :=
  fun s => (tt, mkState (world s) l (calls s)).

End DriverMonad.

Arguments State W : clear implicits.
Arguments M W A : clear implicits.

Declare Scope driver_scope.
Delimit Scope driver_scope with driver.
Notation "'let*' x ':=' m 'in' k" := (bind m (fun x => k))
  (at level 10, x name, m at level 100, k at level 200, only parsing)
  : driver_scope.
Notation "'let*' ' p ':=' m 'in' k" := (bind m (fun x => let 'p := x in k))
  (at level 10, p strict pattern, m at level 100, k at level 200,
   only parsing) : driver_scope.
Notation "'perform' m 'then' k" := (bind m (fun _ => k))
  (at level 10, m at level 100, k at level 200, only parsing)
  : driver_scope.

(* ===================================================================== *)
(** ** The driver: sequential code *)
(* ===================================================================== *)

(** How a piece of a loop body ends: [Next] goes on with the loop (the end
    of the body or [continue]), [Exit] is [return], [Panic] a nil
    dereference. *)
Inductive LoopCtl : Type := Next | Exit | Panic.

(** What the [select] of [eventLoop] woke up on. *)
Inductive Signal : Type :=
| SigSequencer                                   (* <-sequencerCh *)
| SigAltSyncTick                                 (* <-altSyncTicker.C *)
| SigUnsafePayload (envelope : ExecutionPayloadEnvelope)
| SigDelayedStep                                 (* <-s.sched.NextDelayedStep() *)
| SigStep                                        (* <-s.sched.NextStep() *)
| SigStateReq (respCh : ChanId)                  (* <-s.stateReq *)
| SigForceReset (respCh : ChanId)                (* <-s.forceReset *)
| SigCtxDone.                                    (* <-s.driverCtx.Done() *)

Section Driver.
Context {W : Type} `{Collaborators W}.
Variable cfg : Config.

Local Open Scope driver_scope.

Definition emit (from : EmitterName) (ev : Event) : M W unit :=
  record (Emit from ev).

(** The closure [reqStep] of [eventLoop]. *)
Definition reqStep : M W unit := emit DriverEmitter StepReqEvent.

(** [Driver.checkForGapInUnsafeQueue]. *)
Definition checkForGapInUnsafeQueue : M W (option Err) :=
  let* start := ask Engine_UnsafeL2Head in
  let* end_ := ask CLSync_LowestQueuedUnsafeBlock in
  if decide (end_ = L2BlockRef_zero) then
    invoke (CallRequestL2Range start L2BlockRef_zero)
           (altSync_RequestL2Range start L2BlockRef_zero)
  else if add64 (Number start) 1 <? Number end_ then
    invoke (CallRequestL2Range start end_)
           (altSync_RequestL2Range start end_)
  else ret None.

(** [startHeight] and [endHeight] as both sync functions compute them. *)
Definition startHeightOf (startBlock : BlockInfo) : Z :=
  addInt64 (toInt64 (NumberU64 startBlock)) 1.

Definition endHeightOf (startBlock endBlock : BlockInfo) : Z :=
  clamp (startHeightOf startBlock) (toInt64 (NumberU64 endBlock))
        (wrap64 (maxBatchSize cfg)).

(** The call that inserts [p], with the block reference made for it. *)
Definition insertCall (p : ExecutionPayloadEnvelope) : Call :=
  CallInsertUnsafePayload p (fst (derive_PayloadToBlockRef (Payload p))).

(** The insertion loop of [checkSyncUnsafeBlocks]: the first failure is
    returned. *)
Fixpoint insertPayloadsOrFail (payloads : list ExecutionPayloadEnvelope)
  : M W (option Err) :=
  match payloads with
  | [] => ret None
  | payload :: rest =>
      let '(ref, err) := derive_PayloadToBlockRef (Payload payload) in
      match err with
      | Some e => ret (Some e)
      | None =>
          let* err := invoke (CallInsertUnsafePayload payload ref)
                             (Engine_InsertUnsafePayload payload ref) in
          match err with
          | Some e => ret (Some e)
          | None => insertPayloadsOrFail rest
          end
      end
  end.

(** The insertion loop of [syncUnsafeBlocks]: failures are logged and the
    loop goes on. *)
Fixpoint insertPayloadsLenient (payloads : list ExecutionPayloadEnvelope)
  : M W unit :=
  match payloads with
  | [] => ret tt
  | payload :: rest =>
      let '(ref, err) := derive_PayloadToBlockRef (Payload payload) in
      match err with
      | Some _ => insertPayloadsLenient rest
      | None =>
          perform invoke (CallInsertUnsafePayload payload ref)
                         (Engine_InsertUnsafePayload payload ref) then
          insertPayloadsLenient rest
      end
  end.

(** [Driver.checkSyncUnsafeBlocks]. *)
Definition checkSyncUnsafeBlocks : M W (option Err) :=
  let* '(startBlock, err1) := invoke CallL2GetLatestBlock L2_GetLatestBlock in
  if isNotFoundErr err1 then ret err1 else
  let* '(endBlock, err2) :=
    invoke CallELGetLatestBlock ELClient_GetLatestBlock in
  if isNotFoundErr err2 then ret err2 else
  match startBlock, endBlock with
  | Some startBlock, Some endBlock =>
      if NumberU64 startBlock <? sub64 (NumberU64 endBlock) 5 then
        let startHeight := startHeightOf startBlock in
        let endHeight := endHeightOf startBlock endBlock in
        let* '(payloads, err3) :=
          invoke (CallPayloadsByRange startHeight endHeight)
                 (ELClient_PayloadsByRange startHeight endHeight) in
        match err3 with
        | Some e => ret (Some e)
        | None => insertPayloadsOrFail payloads
        end
      else ret None
  | _, _ => ret None
  end.

(** One round of the ticker loop of [Driver.syncUnsafeBlocks].  A failed
    lookup that is not [NotFound] leaves a nil block behind, which the
    next line dereferences. *)
Definition syncUnsafeBlocksTick : M W LoopCtl :=
  let* '(startBlock, err1) := invoke CallL2GetLatestBlock L2_GetLatestBlock in
  if isNotFoundErr err1 then ret Next else
  let* '(endBlock, err2) :=
    invoke CallELGetLatestBlock ELClient_GetLatestBlock in
  if isNotFoundErr err2 then ret Next else
  match startBlock, endBlock with
  | Some startBlock, Some endBlock =>
      let startHeight := startHeightOf startBlock in
      let endHeight := endHeightOf startBlock endBlock in
      if endHeight <=? startHeight then ret Exit else
      let* '(payloads, err3) :=
        invoke (CallPayloadsByRange startHeight endHeight)
               (ELClient_PayloadsByRange startHeight endHeight) in
      match err3 with
      | Some _ => ret Next
      | None => perform insertPayloadsLenient payloads then ret Next
      end
  | _, _ => ret Panic
  end.

(** [Driver.syncUnsafeBlocks], for at most [ticks] ticks of its ticker. *)
Fixpoint syncUnsafeBlocks (ticks : nat) : M W LoopCtl :=
  match ticks with
  | O => ret Next
  | S ticks' =>
      let* ctl := syncUnsafeBlocksTick in
      match ctl with
      | Next => syncUnsafeBlocks ticks'
      | _ => ret ctl
      end
  end.

(** The closure [planSequencerAction] of [eventLoop]. *)
Definition planSequencerAction : M W unit :=
  let* '(nextAction, ok) := ask sequencer_NextAction in
  let* l := getLocals in
  if negb ok then
    setLocals (mkLocals false (prevTime l) (lastUnsafeL2 l))
  else if nextAction =? prevTime l then ret tt
  else
    perform setLocals (mkLocals true nextAction (lastUnsafeL2 l)) then
    let* pending := ask sequencerTimer_pending in
    perform (if pending : bool then record SequencerTimerDrain else ret tt)
    then record (SequencerTimerReset nextAction).

(** [eventLoop] before its [for]. *)
Definition eventLoopInit : M W unit :=
  perform reqStep then
  let* head := ask Engine_UnsafeL2Head in
  setLocals (mkLocals false 0 head).

(** The drain at the top of the loop body: [true] when the loop has to
    return. *)
Definition drainBeforeSelect : M W bool :=
  if drainSet cfg then
    let* err := invoke CallDrain drain in
    match err with
    | Some _ =>
        let* e := ask driverCtx_Err in
        ret (bool_decide (is_Some e))
    | None => ret false
    end
  else ret false.

(** The body of the [for] of [eventLoop] up to its [select]. *)
Definition beforeSelect : M W LoopCtl :=
  let* e := ask driverCtx_Err in
  if bool_decide (is_Some e) then ret Exit else
  let* stop := drainBeforeSelect in
  if stop : bool then ret Exit else
  perform planSequencerAction then
  let* head := ask Engine_UnsafeL2Head in
  let* ready := ask Derivation_DerivationReady in
  let* l := getLocals in
  perform
    (if negb (bool_decide (head = lastUnsafeL2 l)) || negb ready then
       perform setLocals (mkLocals (sequencerChSet l) (prevTime l) head)
       then record AltSyncTickerReset
     else ret tt) then
  perform
    (if decide (SyncMode cfg = CLSync) then
       perform emit DriverEmitter FinalizeL1Event then reqStep
     else ret tt) then
  ret Next.

(** The case of the [select] of [eventLoop] taken on [sig]. *)
Definition selectCase (sig : Signal) : M W LoopCtl :=
  match sig with
  | SigSequencer =>
      perform emit SyncEmitter SequencerActionEvent then ret Next
  | SigAltSyncTick =>
      if decide (SyncMode cfg = CLSync) then
        perform checkForGapInUnsafeQueue then ret Next
      else
        perform checkSyncUnsafeBlocks then ret Next
  | SigUnsafePayload envelope =>
      let* syncing := ask Engine_IsEngineSyncing in
      if bool_decide (SyncMode cfg = CLSync) || negb syncing then
        perform emit SyncEmitter (ReceivedUnsafePayloadEvent envelope) then
        perform invoke_ (CallRecordReceivedUnsafePayload envelope)
                        (metrics_RecordReceivedUnsafePayload envelope) then
        perform reqStep then
        ret Next
      else if decide (SyncMode cfg = ELSync) then
        let '(ref, err) := derive_PayloadToBlockRef (Payload envelope) in
        match err with
        | Some _ => ret Next
        | None =>
            let* head := ask Engine_UnsafeL2Head in
            if Number ref <=? Number head then ret Next
            else
              perform invoke (CallInsertUnsafePayload envelope ref)
                             (Engine_InsertUnsafePayload envelope ref) then
              ret Next
        end
      else ret Next
  | SigDelayedStep =>
      perform emit DriverEmitter StepAttemptEvent then ret Next
  | SigStep =>
      perform emit DriverEmitter StepAttemptEvent then ret Next
  | SigStateReq respCh =>
      perform record (ChanSend respCh) then ret Next
  | SigForceReset respCh =>
      perform invoke_ CallPipelineReset Derivation_Reset then
      perform invoke_ CallRecordPipelineReset metrics_RecordPipelineReset then
      perform record (ChanClose respCh) then
      ret Next
  | SigCtxDone => ret Exit
  end.

(** One iteration of the [for] of [eventLoop], woken up by [sig]. *)
Definition eventLoopIter (sig : Signal) : M W LoopCtl :=
  let* ctl := beforeSelect in
  match ctl with
  | Next => selectCase sig
  | _ => ret ctl
  end.

(** [SyncDeriver.onResetEvent]. *)
Definition onResetEvent (err : Err) : M W unit :=
  if ManagedMode cfg then ret tt
  else
    perform emit SyncEmitter StepReqEvent then
    emit SyncEmitter ResetEngineRequestEvent.

(** The calls of [onEngineConfirmedReset] on the safe-head listener:
    [true] when none of them failed, so that the handler goes on to its
    last line. *)
Definition notifySafeHeadReset (CrossSafe : L2BlockRef) : M W bool :=
  if SafeHeadNotifsSet cfg then
    let* err := invoke (CallSafeHeadReset CrossSafe)
                       (SafeHeadNotifs_SafeHeadReset CrossSafe) in
    match err with
    | Some _ => ret false
    | None =>
        let* enabled := ask SafeHeadNotifs_Enabled in
        if enabled && bool_decide (L2BlockRef_ID CrossSafe = GenesisL2 cfg)
        then
          let* err := invoke (CallSafeHeadUpdated CrossSafe)
                             (SafeHeadNotifs_SafeHeadUpdated CrossSafe) in
          match err with
          | Some _ => ret false
          | None => ret true
          end
        else ret true
    end
  else ret true.

(** [SyncDeriver.onEngineConfirmedReset]. *)
Definition onEngineConfirmedReset (CrossSafe : L2BlockRef) : M W unit :=
  let* ok := notifySafeHeadReset CrossSafe in
  if ok : bool then emit SyncEmitter ConfirmPipelineResetEvent
  else ret tt.

(** [SyncDeriver.onSafeDerivedBlock]. *)
Definition onSafeDerivedBlock (Safe : L2BlockRef) : M W unit :=
  if SafeHeadNotifsSet cfg then
    let* enabled := ask SafeHeadNotifs_Enabled in
    if enabled : bool then
      let* err := invoke (CallSafeHeadUpdated Safe)
                         (SafeHeadNotifs_SafeHeadUpdated Safe) in
      match err with
      | Some e =>
          emit SyncEmitter
               (ResetEvent (ErrWrap "safe head notifications failed" e))
      | None => ret tt
      end
    else ret tt
  else ret tt.

(** The closure [drain] of [SyncStep]: [true] when the step may go on. *)
Definition syncStepDrain : M W bool :=
  let* err := invoke CallDrain drain in
  match err with
  | Some e =>
      if isCanceled e then ret false
      else
        perform
          emit SyncEmitter
               (CriticalErrorEvent
                  (ErrWrap "unexpected error on SyncStep event Drain" e))
        then ret false
  | None => ret true
  end.

(** [SyncDeriver.SyncStep]. *)
Definition SyncStep : M W unit :=
  let* ok := syncStepDrain in
  if negb ok then ret tt else
  perform emit SyncEmitter TryBackupUnsafeReorgEvent then
  let* ok := syncStepDrain in
  if negb ok then ret tt else
  perform emit SyncEmitter TryUpdateEngineEvent then
  let* ok := syncStepDrain in
  if negb ok then ret tt else
  let* syncing := ask Engine_IsEngineSyncing in
  if syncing : bool then emit SyncEmitter ResetStepBackoffEvent else
  perform emit SyncEmitter PendingSafeRequestEvent then
  if InteropTimeSet cfg && negb (ManagedMode cfg)
  then emit SyncEmitter CrossUpdateRequestEvent
  else ret tt.

(** [SyncDeriver.OnEvent]: the result says whether the event was handled. *)
Definition OnEvent (ev : Event) : M W bool :=
  match ev with
  | StepEvent => perform SyncStep then ret true
  | ResetEvent err => perform onResetEvent err then ret true
  | L1TemporaryErrorEvent _ =>
      perform emit SyncEmitter StepReqEvent then ret true
  | EngineTemporaryErrorEvent _ =>
      perform emit SyncEmitter StepReqEvent then ret true
  | EngineResetConfirmedEvent x =>
      perform onEngineConfirmedReset x then ret true
  | DeriverIdleEvent =>
      perform emit SyncEmitter ResetStepBackoffEvent then ret true
  | DeriverMoreEvent => ret true
  | SafeDerivedEvent x => perform onSafeDerivedBlock x then ret true
  | ProvideL1Traversal =>
      perform emit SyncEmitter StepReqEvent then ret true
  | _ => ret false
  end.

End Driver.

(* ===================================================================== *)
(** ** The admin calls and the loop as threads over channels *)
(* ===================================================================== *)

(** [ResetDerivationPipeline] and [BlockRefWithStatus] run on the caller's
    goroutine and meet [eventLoop] on the channels [forceReset] (made with
    capacity 10 in [NewDriver]) and [stateReq] (unbuffered).  Every call
    makes one response channel, which is named after the call.  A [select]
    may take any of its cases that is ready. *)

Definition forceResetCap : nat := 10.

Inductive AdminCall : Type :=
| ResetDerivationPipeline
| BlockRefWithStatus (num : Z).

(** What a caller has done so far, in program order. *)
Inductive CallerOp : Type :=
| OpReadStatus (resp : SyncStatus)   (* s.statusTracker.SyncStatus() *)
| OpReadRef (num : Z)                (* s.L2.L2BlockRefByNumber(ctx, num) *)
| OpSendStateReq                     (* s.stateReq <- wait *)
| OpRecvWait                         (* <-wait *)
| OpSendForceReset                   (* s.forceReset <- respCh *)
| OpRecvResp                         (* <-respCh *)
| OpCtxDone.                         (* <-ctx.Done() *)

(** Where a caller stands in its call. *)
Inductive CallerPc : Type :=
(* ResetDerivationPipeline *)
| ResetOuterSelect                   (* respCh made, at the outer select *)
| ResetInnerSelect                   (* request sent, at the inner select *)
| ResetReturned (err : option Err)
(* BlockRefWithStatus *)
| BrsEntry
| BrsDirectRead (resp : SyncStatus)  (* finalized: read without the loop *)
| BrsSelect                          (* wait made, at the select *)
| BrsHeldReadStatus                  (* the loop has taken the request *)
| BrsHeldReadRef (resp : SyncStatus)
| BrsHeldRecvWait (ref : L2BlockRef) (resp : SyncStatus) (err : option Err)
| BrsReturned (ref : L2BlockRef) (resp : option SyncStatus) (err : option Err).

Record Caller : Type := mkCaller {
  call : AdminCall;
  pc : CallerPc;
  ctxErr : option Err;               (* ctx.Err() of the caller's context *)
  ops : list CallerOp
}.

Definition entryPc (k : AdminCall) : CallerPc :=
  match k with
  | ResetDerivationPipeline => ResetOuterSelect
  | BlockRefWithStatus _ => BrsEntry
  end.

(** The caller is between [s.stateReq <- wait] and [<-wait]. *)
Definition heldPc (p : CallerPc) : bool :=
  match p with
  | BrsHeldReadStatus | BrsHeldReadRef _ | BrsHeldRecvWait _ _ _ => true
  | _ => false
  end.

(** Where the loop stands. *)
Inductive LoopPc : Type :=
| LoopTop                            (* at the head of the for *)
| LoopSelect                         (* blocked in the select *)
| LoopSending (respCh : ChanId)      (* blocked in respCh <- struct{}{} *)
| LoopReturned.

(** The three calls with which the loop serves the force-reset request
    whose response channel is [respCh]. *)
Definition resetService (respCh : ChanId) : list Call :=
  [CallPipelineReset; CallRecordPipelineReset; ChanClose respCh].

(** The trace [cs] has the service of [respCh], with nothing in between. *)
Definition served (respCh : ChanId) (cs : list Call) : Prop :=
  exists pre post : list Call, cs = pre ++ resetService respCh ++ post.

Inductive Label : Type :=
| LEnv                               (* the collaborators change on their own *)
| LSpawn (i : nat)                   (* a new call starts *)
| LCancel (i : nat)                  (* the context of call i is cancelled *)
| LCaller (i : nat)                  (* caller i alone *)
| LLoop                              (* the loop alone *)
| LMeet (i : nat).                   (* the loop and caller i on a channel *)

Section Threads.
Context {W : Type} `{Collaborators W}.
Variable cfg : Config.

Record Sys : Type := mkSys {
  drv : State W;                   (* the loop's collaborators and trace *)
  loopPc : LoopPc;
  callers : gmap nat Caller;
  forceReset : list ChanId;        (* buffer of the forceReset channel *)
  closed : gset ChanId             (* response channels that were closed *)
}.

Definition setCaller (i : nat) (c : Caller) (s : Sys) : Sys :=
  mkSys (drv s) (loopPc s) (<[i := c]> (callers s)) (forceReset s) (closed s).

Definition setLoop (d : State W) (l : LoopPc) (s : Sys) : Sys :=
  mkSys d l (callers s) (forceReset s) (closed s).

(** A caller moves on: new position, more operations done. *)
Definition advance (c : Caller) (p : CallerPc) (o : list CallerOp) : Caller :=
  mkCaller (call c) p (ctxErr c) (ops c ++ o).

(** The signals of the select that involve no other goroutine of this
    model. *)
Definition localSignal (l : Locals) (sig : Signal) : bool :=
  match sig with
  | SigSequencer => sequencerChSet l
  | SigAltSyncTick | SigUnsafePayload _ | SigDelayedStep | SigStep => true
  | SigStateReq _ | SigForceReset _ | SigCtxDone => false
  end.

Inductive step : Sys -> Label -> Sys -> Prop :=
(* environment *)
| step_env s w' :
    step s LEnv
         (setLoop (mkState w' (locals (drv s)) (calls (drv s))) (loopPc s) s)
| step_spawn s i k :
    callers s !! i = None ->
    step s (LSpawn i) (setCaller i (mkCaller k (entryPc k) None []) s)
| step_cancel s i c e :
    callers s !! i = Some c ->
    ctxErr c = None ->
    e = ErrCanceled \/ e = ErrDeadlineExceeded ->
    step s (LCancel i)
         (setCaller i (mkCaller (call c) (pc c) (Some e) (ops c)) s)
(* ResetDerivationPipeline *)
| step_reset_outer_ctx s i c e :
    callers s !! i = Some c ->
    pc c = ResetOuterSelect ->
    ctxErr c = Some e ->
    step s (LCaller i)
         (setCaller i (advance c (ResetReturned (Some e)) [OpCtxDone]) s)
| step_reset_send s i c :
    callers s !! i = Some c ->
    pc c = ResetOuterSelect ->
    (length (forceReset s) < forceResetCap)%nat ->
    step s (LCaller i)
         (mkSys (drv s) (loopPc s)
                (<[i := advance c ResetInnerSelect [OpSendForceReset]]>
                   (callers s))
                (forceReset s ++ [i]) (closed s))
| step_reset_inner_ctx s i c e :
    callers s !! i = Some c ->
    pc c = ResetInnerSelect ->
    ctxErr c = Some e ->
    step s (LCaller i)
         (setCaller i (advance c (ResetReturned (Some e)) [OpCtxDone]) s)
| step_reset_recv s i c :
    callers s !! i = Some c ->
    pc c = ResetInnerSelect ->
    i ∈ closed s ->
    step s (LCaller i)
         (setCaller i (advance c (ResetReturned None) [OpRecvResp]) s)
(* BlockRefWithStatus *)
| step_brs_entry s i c num resp :
    callers s !! i = Some c ->
    call c = BlockRefWithStatus num ->
    pc c = BrsEntry ->
    resp = statusTracker_SyncStatus (world (drv s)) ->
    step s (LCaller i)
         (setCaller i
            (advance c
               (if num <=? Number (FinalizedL2 resp)
                then BrsDirectRead resp else BrsSelect)
               [OpReadStatus resp]) s)
| step_brs_direct s i c num resp ref err :
    callers s !! i = Some c ->
    call c = BlockRefWithStatus num ->
    pc c = BrsDirectRead resp ->
    L2_L2BlockRefByNumber num (world (drv s)) = (ref, err) ->
    step s (LCaller i)
         (setCaller i
            (advance c (BrsReturned ref (Some resp) err) [OpReadRef num]) s)
| step_brs_ctx s i c e :
    callers s !! i = Some c ->
    pc c = BrsSelect ->
    ctxErr c = Some e ->
    step s (LCaller i)
         (setCaller i
            (advance c (BrsReturned L2BlockRef_zero None (Some e))
                     [OpCtxDone]) s)
| step_brs_send s i c :
    callers s !! i = Some c ->
    pc c = BrsSelect ->
    loopPc s = LoopSelect ->
    step s (LMeet i)
         (mkSys (drv s) (LoopSending i)
                (<[i := advance c BrsHeldReadStatus [OpSendStateReq]]>
                   (callers s))
                (forceReset s) (closed s))
| step_brs_held_status s i c resp :
    callers s !! i = Some c ->
    pc c = BrsHeldReadStatus ->
    resp = statusTracker_SyncStatus (world (drv s)) ->
    step s (LCaller i)
         (setCaller i (advance c (BrsHeldReadRef resp) [OpReadStatus resp]) s)
| step_brs_held_ref s i c num resp ref err :
    callers s !! i = Some c ->
    call c = BlockRefWithStatus num ->
    pc c = BrsHeldReadRef resp ->
    L2_L2BlockRefByNumber num (world (drv s)) = (ref, err) ->
    step s (LCaller i)
         (setCaller i
            (advance c (BrsHeldRecvWait ref resp err) [OpReadRef num]) s)
| step_brs_release s i c ref resp err :
    callers s !! i = Some c ->
    pc c = BrsHeldRecvWait ref resp err ->
    loopPc s = LoopSending i ->
    step s (LMeet i)
         (mkSys (snd (selectCase cfg (SigStateReq i) (drv s))) LoopTop
                (<[i := advance c (BrsReturned ref (Some resp) err)
                                [OpRecvWait]]> (callers s))
                (forceReset s) (closed s))
(* eventLoop *)
| step_loop_top s ctl d :
    loopPc s = LoopTop ->
    beforeSelect cfg (drv s) = (ctl, d) ->
    step s LLoop
         (setLoop d (match ctl with Next => LoopSelect | _ => LoopReturned end)
                  s)
| step_loop_local s sig :
    loopPc s = LoopSelect ->
    localSignal (locals (drv s)) sig = true ->
    step s LLoop (setLoop (snd (selectCase cfg sig (drv s))) LoopTop s)
| step_loop_forceReset s respCh rest :
    loopPc s = LoopSelect ->
    forceReset s = respCh :: rest ->
    step s LLoop
         (mkSys (snd (selectCase cfg (SigForceReset respCh) (drv s))) LoopTop
                (callers s) rest ({[respCh]} ∪ closed s))
| step_loop_ctxDone s :
    loopPc s = LoopSelect ->
    is_Some (driverCtx_Err (world (drv s))) ->
    step s LLoop
         (setLoop (snd (selectCase cfg SigCtxDone (drv s))) LoopReturned s).

(** The state [Start] leaves behind: the loop goroutine is about to run
    [eventLoop], nobody has called yet. *)
Definition initial (w : W) : Sys :=
  mkSys (snd (eventLoopInit (mkState w (mkLocals false 0 L2BlockRef_zero) [])))
        LoopTop ∅ [] ∅.

Inductive reachable : Sys -> Prop :=
| reachable_init w : reachable (initial w)
| reachable_step s l s' : reachable s -> step s l s' -> reachable s'.

(** What the operations done so far say about where a caller of
    [BlockRefWithStatus(num)] stands and what it returns. *)
Definition brsShape (num : Z) (c : Caller) : Prop :=
  match pc c with
  | BrsEntry => ops c = []
  | BrsDirectRead r =>
      ops c = [OpReadStatus r] /\ num <= Number (FinalizedL2 r)
  | BrsSelect =>
      exists r, ops c = [OpReadStatus r] /\ Number (FinalizedL2 r) < num
  | BrsHeldReadStatus =>
      exists r, ops c = [OpReadStatus r; OpSendStateReq]
                /\ Number (FinalizedL2 r) < num
  | BrsHeldReadRef r1 =>
      exists r, ops c = [OpReadStatus r; OpSendStateReq; OpReadStatus r1]
                /\ Number (FinalizedL2 r) < num
  | BrsHeldRecvWait _ r1 _ =>
      exists r, ops c = [OpReadStatus r; OpSendStateReq; OpReadStatus r1;
                         OpReadRef num]
                /\ Number (FinalizedL2 r) < num
  | BrsReturned ref resp err =>
      (exists r, ops c = [OpReadStatus r; OpReadRef num]
                 /\ num <= Number (FinalizedL2 r) /\ resp = Some r)
      \/ (exists r r1,
             ops c = [OpReadStatus r; OpSendStateReq; OpReadStatus r1;
                      OpReadRef num; OpRecvWait]
             /\ Number (FinalizedL2 r) < num /\ resp = Some r1)
      \/ (exists r e,
             ops c = [OpReadStatus r; OpCtxDone]
             /\ Number (FinalizedL2 r) < num
             /\ ref = L2BlockRef_zero /\ resp = None
             /\ err = Some e /\ ctxErr c = Some e)
  | _ => False
  end.

(** The same for a caller of [ResetDerivationPipeline]. *)
Definition resetShape (c : Caller) : Prop :=
  match pc c with
  | ResetOuterSelect => ops c = []
  | ResetInnerSelect => ops c = [OpSendForceReset]
  | ResetReturned None => ops c = [OpSendForceReset; OpRecvResp]
  | ResetReturned (Some e) =>
      ctxErr c = Some e
      /\ (ops c = [OpCtxDone] \/ ops c = [OpSendForceReset; OpCtxDone])
  | _ => False
  end.

Definition callerShape (c : Caller) : Prop :=
  match call c with
  | ResetDerivationPipeline => resetShape c
  | BlockRefWithStatus num => brsShape num c
  end.

End Threads.

(* ===================================================================== *)
(** ** Collaborators with scripted answers *)
(* ===================================================================== *)

(** A collaborator set whose answers are fixed in advance and whose state
    never changes; it is what the examples run against. *)
Record Script : Type := mkScript {
  sc_ctxErr : option Err;
  sc_drainErr : option Err;
  sc_unsafeHead : L2BlockRef;
  sc_syncing : bool;
  sc_insertErr : option Err;
  sc_ready : bool;
  sc_lowestQueued : L2BlockRef;
  sc_rangeErr : option Err;
  sc_l2Latest : option BlockInfo * option Err;
  sc_elLatest : option BlockInfo * option Err;
  sc_payloads : list ExecutionPayloadEnvelope * option Err;
  sc_listenerEnabled : bool;
  sc_safeHeadResetErr : option Err;
  sc_safeHeadUpdatedErr : option Err;
  sc_nextAction : Z * bool;
  sc_status : SyncStatus
}.

(** A block reference for a payload, failing on the all-zero block hash. *)
Definition scriptedPayloadToBlockRef (p : ExecutionPayload)
  : L2BlockRef * option Err :=
  if BlockHash p =? 0 then (L2BlockRef_zero, Some (ErrOther "no block hash"))
  else (mkL2BlockRef (BlockHash p) (BlockNumber p) (PayloadParentHash p)
                     (Timestamp p) (mkBlockID 0 0) 0, None).

#[global] Instance Script_Collaborators : Collaborators Script := {|
  driverCtx_Err := sc_ctxErr;
  drain w := (sc_drainErr w, w);
  Engine_UnsafeL2Head := sc_unsafeHead;
  Engine_IsEngineSyncing := sc_syncing;
  Engine_InsertUnsafePayload _ _ w := (sc_insertErr w, w);
  Derivation_Reset w := w;
  Derivation_DerivationReady := sc_ready;
  CLSync_LowestQueuedUnsafeBlock := sc_lowestQueued;
  altSync_RequestL2Range _ _ w := (sc_rangeErr w, w);
  L2_GetLatestBlock w := (sc_l2Latest w, w);
  L2_L2BlockRefByNumber num w :=
    (mkL2BlockRef (num + 1) num num 0 (mkBlockID 0 0) 0, None);
  ELClient_GetLatestBlock w := (sc_elLatest w, w);
  ELClient_PayloadsByRange _ _ w := (sc_payloads w, w);
  derive_PayloadToBlockRef := scriptedPayloadToBlockRef;
  SafeHeadNotifs_Enabled := sc_listenerEnabled;
  SafeHeadNotifs_SafeHeadReset _ w := (sc_safeHeadResetErr w, w);
  SafeHeadNotifs_SafeHeadUpdated _ w := (sc_safeHeadUpdatedErr w, w);
  sequencer_NextAction := sc_nextAction;
  sequencerTimer_pending _ := false;
  metrics_RecordPipelineReset w := w;
  metrics_RecordReceivedUnsafePayload _ w := w;
  statusTracker_SyncStatus := sc_status
|}.

(** A block reference with the given hash and number. *)
Definition refAt (hash number : Z) : L2BlockRef :=
  mkL2BlockRef hash number (hash - 1) 0 (mkBlockID 0 0) 0.

(** An envelope carrying block [number] with the given hash. *)
Definition envelopeAt (hash number : Z) : ExecutionPayloadEnvelope :=
  mkEnvelope None (mkPayload hash number (hash - 1) 0).

(** A quiet node: engine syncing at [head], the CL queue starting at
    [lowest], both chains answering with the given latest blocks. *)
Definition script (head lowest : L2BlockRef) (l2 el : Z)
    (payloads : list ExecutionPayloadEnvelope) : Script :=
  mkScript None None head true None true lowest None
           (Some (mkBlockInfo l2), None) (Some (mkBlockInfo el), None)
           (payloads, None) true None None (0, false)
           (mkSyncStatus head head head).

(** The same node with a safe-head listener answering as given. *)
Definition scriptListener (enabled : bool) (resetErr updatedErr : option Err)
  : Script :=
  mkScript None None (refAt 7 10) true None true L2BlockRef_zero None
           (None, None) (None, None) ([], None) enabled resetErr updatedErr
           (0, false) (mkSyncStatus (refAt 7 10) (refAt 7 10) (refAt 7 10)).

(** The node of the runs below: engine syncing, every head at block 10. *)
Definition node10 : Script := script (refAt 7 10) L2BlockRef_zero 10 5 [].

Definition start0 {W : Type} (w : W) : State W :=
  mkState w (mkLocals false 0 L2BlockRef_zero) [].

Definition config (mode : Mode) (managed : bool) (batch : Z) : Config :=
  mkConfig mode managed true (mkBlockID 1 0) false batch true.

(* ===================================================================== *)
(** ** Classes of calls *)
(* ===================================================================== *)

(** The calls of the two EL-sync helpers: chain lookups, the range fetch
    and insertions. *)
Definition isSyncCall (c : Call) : bool :=
  match c with
  | CallL2GetLatestBlock | CallELGetLatestBlock
  | CallPayloadsByRange _ _ | CallInsertUnsafePayload _ _ => true
  | _ => false
  end.

(** The channels closed in a trace, in order. *)
Definition closes (cs : list Call) : list ChanId :=
  omap (fun c => match c with ChanClose i => Some i | _ => None end) cs.

(* ===================================================================== *)
(** ** Parts of the loop body *)
(* ===================================================================== *)

Section LoopParts.
Context {W : Type} `{Collaborators W}.
Variable cfg : Config.

Local Open Scope driver_scope.

(** The body of the [for] of [eventLoop] between its drain and its select,
    as it stands in [beforeSelect]. *)
Definition afterDrain : M W LoopCtl :=
  perform planSequencerAction then
  let* head := ask Engine_UnsafeL2Head in
  let* ready := ask Derivation_DerivationReady in
  let* l := getLocals in
  perform
    (if negb (bool_decide (head = lastUnsafeL2 l)) || negb ready then
       perform setLocals (mkLocals (sequencerChSet l) (prevTime l) head)
       then record AltSyncTickerReset
     else ret tt) then
  perform
    (if decide (SyncMode cfg = CLSync) then
       perform emit DriverEmitter FinalizeL1Event then reqStep
     else ret tt) then
  ret Next.

End LoopParts.

(* ===================================================================== *)
(** ** Runs *)
(* ===================================================================== *)

Section Runs.
Context {W : Type} `{Collaborators W}.
Variable cfg : Config.

(** [s'] is reached from [s] by some steps of the loop, its callers and
    the environment. *)
Inductive reaches : Sys -> Sys -> Prop :=
| reaches_refl s : reaches s s
| reaches_step s l s1 s' : step cfg s l s1 -> reaches s1 s' -> reaches s s'.

End Runs.

(* ===================================================================== *)
(** ** Starting the driver *)
(* ===================================================================== *)

(** The [Config] of config.go, the field [driverConfig] of the driver. *)
Record DriverConfig : Type := mkDriverConfig {
  VerifierConfDepth : Z;
  SequencerConfDepth : Z;
  SequencerEnabled : bool;
  SequencerStopped : bool;
  SequencerMaxSafeLag : Z;
  RecoverMode : bool;
  MaxRequestsPerBatch : Z
}.

(** The methods of the field [sequencer] that [Driver.Start] calls, over
    the same world as the other collaborators. *)
Class SequencerIface (W : Type) : Type := {
  sequencer_SetRecoverMode : bool -> W -> W;
  sequencer_SetMaxSafeLag : Z -> W -> option Err * W;
  sequencer_Init : bool -> W -> option Err * W
}.

(** The calls of [Driver.Start] on the sequencer, in order. *)
Inductive SequencerCall : Type :=
| CallSetRecoverMode (mode : bool)
| CallSetMaxSafeLag (lag : Z)
| CallInit (active : bool).

(** How [Driver.Start] ends: with an error and no loop; with the loop
    started and nil; in the nil dereference of the start-up sync; or still
    in the start-up sync when the ticks given to it are used up. *)
Inductive StartResult : Type :=
| StartError (e : Err)
| StartLoop
| StartPanic
| StartSyncing.

Section Start.
Context {W : Type} `{Collaborators W} `{SequencerIface W}.
Variable cfg : Config.
Variable driverConfig : DriverConfig.

(** The sequencer part of [Driver.Start]. *)
Definition startSequencer (w : W) : option Err * W * list SequencerCall :=
  if SequencerEnabled driverConfig then
    let '(w1, l1) :=
      if RecoverMode driverConfig
      then (sequencer_SetRecoverMode true w, [CallSetRecoverMode true])
      else (w, []) in
    let '(err, w2) :=
      sequencer_SetMaxSafeLag (SequencerMaxSafeLag driverConfig) w1 in
    let l2 := l1 ++ [CallSetMaxSafeLag (SequencerMaxSafeLag driverConfig)] in
    match err with
    | Some e =>
        (Some (ErrWrap "failed to set sequencer max safe lag" e), w2, l2)
    | None =>
        let active := negb (SequencerStopped driverConfig) in
        let '(err, w3) := sequencer_Init active w2 in
        let l3 := l2 ++ [CallInit active] in
        match err with
        | Some e => (Some (ErrWrap "persist initial sequencer state" e), w3, l3)
        | None => (None, w3, l3)
        end
    end
  else (None, w, []).

(** [Driver.Start], its start-up sync running for at most [ticks] ticks. *)
Definition Start (ticks : nat) (s : State W)
  : StartResult * State W * list SequencerCall :=
  let '(err, w1, l) := startSequencer (world s) in
  let s1 := mkState w1 (locals s) (calls s) in
  match err with
  | Some e => (StartError e, s1, l)
  | None =>
      if decide (SyncMode cfg = ELSync) then
        let '(ctl, s2) := syncUnsafeBlocks cfg ticks s1 in
        (match ctl with
         | Exit => StartLoop
         | Panic => StartPanic
         | Next => StartSyncing
         end, s2, l)
      else (StartLoop, s1, l)
  end.

End Start.

(** A scripted sequencer: it takes every setting, and refuses to start
    active while the engine is syncing. *)
#[global] Instance Script_SequencerIface : SequencerIface Script := {|
  sequencer_SetRecoverMode _ w := w;
  sequencer_SetMaxSafeLag _ w := (None, w);
  sequencer_Init active w :=
    (if active && sc_syncing w then Some (ErrOther "engine is syncing")
     else None, w)
|}.

(** A node whose two chains answer the look-up of their latest block, the
    range fetch and the insertion as given. *)
Definition scriptChains (l2 el : option BlockInfo * option Err)
    (payloads : list ExecutionPayloadEnvelope) (insertErr : option Err)
  : Script :=
  mkScript None None (refAt 7 10) true insertErr true L2BlockRef_zero None
           l2 el (payloads, None) true None None (0, false)
           (mkSyncStatus (refAt 7 10) (refAt 7 10) (refAt 7 10)).

(** The node of the runs with its driver context cancelled. *)
Definition nodeCancelled : Script :=
  mkScript (Some ErrCanceled) None (refAt 7 10) true None true L2BlockRef_zero
           None (Some (mkBlockInfo 10), None) (Some (mkBlockInfo 5), None)
           ([], None) true None None (0, false)
           (mkSyncStatus (refAt 7 10) (refAt 7 10) (refAt 7 10)).

(** A sequencer configuration: enabled or not, in recover mode or not,
    not stopped. *)
Definition sequencerConfig (enabled recover : bool) : DriverConfig :=
  mkDriverConfig 0 0 enabled false 0 recover 4.

(* ===================================================================== *)
(** ** The outcome of a batch *)
(* ===================================================================== *)

(** The answers of the collaborators to the insertion of a batch, against
    which the insertion loop of [checkSyncUnsafeBlocks] is compared. *)

Section InsertionOutcome.
Context {W : Type} `{Collaborators W}.

(** The world after the insertion of [payloads], one after the other, each
    with the block reference made for it. *)
Definition worldAfterInserts (payloads : list ExecutionPayloadEnvelope)
    (w : W) : W :=
  foldl (fun w p =>
           snd (Engine_InsertUnsafePayload
                  p (fst (derive_PayloadToBlockRef (Payload p))) w))
        w payloads.

(** What the collaborators answer for payload number [k] of a batch whose
    earlier payloads were inserted from the world [w]: the error of its
    block reference or else the error of its insertion; [None] when both
    succeed, and when the batch has no payload [k]. *)
Definition payloadFailure (payloads : list ExecutionPayloadEnvelope)
    (w : W) (k : nat) : option Err :=
  match payloads !! k with
  | None => None
  | Some p =>
      match snd (derive_PayloadToBlockRef (Payload p)) with
      | Some e => Some e
      | None =>
          fst (Engine_InsertUnsafePayload
                 p (fst (derive_PayloadToBlockRef (Payload p)))
                 (worldAfterInserts (take k payloads) w))
      end
  end.

(** How many payloads of a batch were handed to the engine when payload
    [k] is the first to fail: those before it, and itself when its block
    reference could be made. *)
Definition insertedUpTo (payloads : list ExecutionPayloadEnvelope)
    (k : nat) : nat :=
  match payloads !! k with
  | Some p =>
      match snd (derive_PayloadToBlockRef (Payload p)) with
      | Some _ => k
      | None => S k
      end
  | None => k
  end.

End InsertionOutcome.

(* ===================================================================== *)
(** ** Facts about machine integers and [clamp] *)
(* ===================================================================== *)

Lemma two64_eq : two64 = 18446744073709551616.
Proof. reflexivity. Qed.

Lemma two63_eq : two63 = 9223372036854775808.
Proof. reflexivity. Qed.

Lemma wrap64_small x : 0 <= x < two64 -> wrap64 x = x.
Proof. intros Hx. unfold wrap64. apply Z.mod_small. exact Hx. Qed.

Lemma toInt64_small x : 0 <= x < two63 -> toInt64 x = x.
Proof.
  intros Hx. unfold toInt64.
  rewrite wrap64_small by (rewrite two64_eq; rewrite two63_eq in Hx; lia).
  destruct (Z.ltb_spec x two63); lia.
Qed.

Lemma bigUint64_small x : 0 <= x < two64 -> bigUint64 x = x.
Proof.
  intros Hx. unfold bigUint64. rewrite Z.abs_eq by lia.
  apply Z.mod_small. exact Hx.
Qed.

(** Below 5 the subtraction [n - 5] on [uint64] wraps to the top of the
    range. *)
Lemma sub64_wraps n : 0 <= n < 5 -> sub64 n 5 = two64 - 5 + n.
Proof.
  intros Hn. unfold sub64, wrap64.
  replace (n - 5) with ((two64 - 5 + n) + (-1) * two64) by lia.
  rewrite Z.mod_add by (rewrite two64_eq; lia).
  apply Z.mod_small. rewrite two64_eq. lia.
Qed.

(* ===================================================================== *)
(** ** Facts about the sequential code *)
(* ===================================================================== *)

Ltac unfold_monad :=
  unfold bind, ret, ask, invoke_, record, invoke, emit, reqStep,
         getLocals, setLocals in *; simpl in *.

Lemma emitted_inserts (l : list Call) :
  Forall (fun c => isInsert c = true) l -> emitted l = [].
Proof.
  induction 1 as [| c l Hc _ IH]; [reflexivity |].
  destruct c; try discriminate Hc. exact IH.
Qed.

Section DriverFacts.
Context {W : Type} `{Collaborators W}.

Lemma insertCall_isInsert (ps : list ExecutionPayloadEnvelope) :
  Forall (fun c => isInsert c = true) (map insertCall ps).
Proof. induction ps; constructor; auto. Qed.

(** The strict loop inserts a prefix of the batch, in order; all of it
    when it reports no error. *)
Lemma insertPayloadsOrFail_calls payloads : forall s : State W,
  exists k : nat,
    calls (snd (insertPayloadsOrFail payloads s)) =
      calls s ++ map insertCall (take k payloads) /\
    (fst (insertPayloadsOrFail payloads s) = None ->
     take k payloads = payloads).
Proof.
  induction payloads as [| p rest IH]; intros s; simpl.
  - exists 0%nat. unfold_monad. rewrite app_nil_r. auto.
  - destruct (derive_PayloadToBlockRef (Payload p)) as [ref err] eqn:Href.
    destruct err as [e |].
    + exists 0%nat. unfold_monad. rewrite app_nil_r. split; [auto | discriminate].
    + unfold_monad.
      destruct (Engine_InsertUnsafePayload p ref (world s)) as [err w'] eqn:Hins.
      destruct err as [e |]; simpl.
      * exists 1%nat. simpl. rewrite take_0. unfold insertCall. rewrite Href.
        split; [reflexivity | discriminate].
      * destruct (IH (mkState w' (locals s)
                        (calls s ++ [CallInsertUnsafePayload p ref])))
          as (k & Hcalls & Hall).
        exists (S k). simpl. rewrite Hcalls. simpl.
        unfold insertCall at 2. rewrite Href. simpl.
        rewrite <- app_assoc. simpl. split; [reflexivity |].
        intros Hnone. rewrite (Hall Hnone). reflexivity.
Qed.

Lemma insertPayloadsLenient_calls payloads : forall s : State W,
  exists l : list Call,
    calls (snd (insertPayloadsLenient payloads s)) = calls s ++ l /\
    Forall (fun c => isInsert c = true) l.
Proof.
  induction payloads as [| p rest IH]; intros s; simpl.
  - exists []. unfold_monad. rewrite app_nil_r. auto.
  - destruct (derive_PayloadToBlockRef (Payload p)) as [ref err].
    destruct err as [e |]; [apply IH |].
    unfold_monad.
    destruct (Engine_InsertUnsafePayload p ref (world s)) as [err w'].
    destruct (IH (mkState w' (locals s)
                    (calls s ++ [CallInsertUnsafePayload p ref])))
      as (l & Hcalls & Hl).
    exists (CallInsertUnsafePayload p ref :: l). rewrite Hcalls. simpl.
    rewrite <- app_assoc. split; [reflexivity |].
    constructor; [reflexivity | exact Hl].
Qed.

Lemma checkForGapInUnsafeQueue_calls (s : State W) :
  exists l : list Call,
    calls (snd (checkForGapInUnsafeQueue s)) = calls s ++ l /\
    emitted l = [].
Proof.
  unfold checkForGapInUnsafeQueue. unfold_monad.
  destruct (decide _) as [Hz | Hz].
  - destruct (altSync_RequestL2Range _ _ _) as [err w']. simpl.
    eexists. split; reflexivity.
  - destruct (_ <? _).
    + destruct (altSync_RequestL2Range _ _ _) as [err w']. simpl.
      eexists. split; reflexivity.
    + exists []. rewrite app_nil_r. auto.
Qed.

Lemma checkSyncUnsafeBlocks_calls cfg (s : State W) :
  exists l : list Call,
    calls (snd (checkSyncUnsafeBlocks cfg s)) = calls s ++ l /\
    emitted l = [].
Proof.
  unfold checkSyncUnsafeBlocks. unfold_monad.
  destruct (L2_GetLatestBlock (world s)) as [[b1 e1] w1]. simpl.
  destruct (isNotFoundErr e1); simpl; [eexists; split; reflexivity |].
  destruct (ELClient_GetLatestBlock w1) as [[b2 e2] w2]. simpl.
  destruct (isNotFoundErr e2); simpl;
    [eexists; rewrite <- app_assoc; split; reflexivity |].
  destruct b1 as [startBlock |], b2 as [endBlock |]; simpl;
    try (eexists; rewrite <- app_assoc; split; reflexivity).
  destruct (_ <? _); simpl;
    [| eexists; rewrite <- app_assoc; split; reflexivity].
  destruct (ELClient_PayloadsByRange _ _ w2) as [[payloads e3] w3]. simpl.
  destruct e3 as [e |]; simpl;
    [eexists; rewrite <- !app_assoc; split; reflexivity |].
  match goal with
  | |- context [insertPayloadsOrFail payloads ?st] =>
      destruct (insertPayloadsOrFail_calls payloads st) as (k & Hk & _)
  end.
  rewrite Hk. simpl. eexists. rewrite <- !app_assoc. split; [reflexivity |].
  simpl. apply emitted_inserts, insertCall_isInsert.
Qed.

End DriverFacts.

Section InsertionFacts.
Context {W : Type} `{Collaborators W}.

Lemma payloadFailure_S p rest (w : W) (k : nat) :
  payloadFailure (p :: rest) w (S k) =
  payloadFailure rest
    (snd (Engine_InsertUnsafePayload
            p (fst (derive_PayloadToBlockRef (Payload p))) w)) k.
Proof. reflexivity. Qed.

Lemma insertedUpTo_S p rest (k : nat) :
  insertedUpTo (p :: rest) (S k) = S (insertedUpTo rest k).
Proof.
  unfold insertedUpTo. cbn [lookup]. simpl.
  destruct (rest !! k) as [q |]; [| reflexivity].
  destruct (snd (derive_PayloadToBlockRef (Payload q))); reflexivity.
Qed.

(** The strict insertion loop, told by the answers of the collaborators:
    it reports no error exactly when no payload fails, having inserted the
    whole batch; otherwise it reports the failure of the first payload
    that fails, having inserted the payloads up to it. *)
Lemma insertPayloadsOrFail_exact payloads : forall s : State W,
  (fst (insertPayloadsOrFail payloads s) = None <->
   forall k : nat, payloadFailure payloads (world s) k = None)
  /\ (fst (insertPayloadsOrFail payloads s) = None ->
      snd (insertPayloadsOrFail payloads s) =
        mkState (worldAfterInserts payloads (world s)) (locals s)
                (calls s ++ map insertCall payloads))
  /\ (forall e : Err,
        fst (insertPayloadsOrFail payloads s) = Some e ->
        exists k : nat,
          (forall j : nat, (j < k)%nat ->
             payloadFailure payloads (world s) j = None)
          /\ payloadFailure payloads (world s) k = Some e
          /\ snd (insertPayloadsOrFail payloads s) =
               mkState (worldAfterInserts
                          (take (insertedUpTo payloads k) payloads) (world s))
                       (locals s)
                       (calls s ++ map insertCall
                                     (take (insertedUpTo payloads k) payloads))).
Proof.
  induction payloads as [| p rest IH]; intros s.
  - cbn. unfold ret. cbn. split; [split; [reflexivity | reflexivity] |].
    split; [| discriminate].
    intros _. destruct s. cbn. rewrite app_nil_r. reflexivity.
  - cbn [insertPayloadsOrFail].
    destruct (derive_PayloadToBlockRef (Payload p)) as [ref err] eqn:Href.
    destruct err as [e0 |].
    + unfold ret. cbn [fst snd].
      assert (H0 : payloadFailure (p :: rest) (world s) 0 = Some e0).
      { unfold payloadFailure. cbn. rewrite Href. reflexivity. }
      split; [split; [discriminate | intros Hall; rewrite Hall in H0; discriminate] |].
      split; [discriminate |].
      intros e He. injection He as <-. exists 0%nat.
      split; [intros j Hj; lia |]. split; [exact H0 |].
      unfold insertedUpTo. cbn. rewrite Href. cbn.
      destruct s. cbn. rewrite app_nil_r. reflexivity.
    + unfold bind, invoke. cbn [world locals calls].
      destruct (Engine_InsertUnsafePayload p ref (world s)) as [err w'] eqn:Hins.
      assert (H0 : payloadFailure (p :: rest) (world s) 0 = err).
      { unfold payloadFailure. cbn. rewrite Href. cbn. rewrite Hins.
        reflexivity. }
      assert (Hw : snd (Engine_InsertUnsafePayload
                          p (fst (derive_PayloadToBlockRef (Payload p)))
                          (world s)) = w').
      { rewrite Href. cbn. rewrite Hins. reflexivity. }
      assert (Hcall : insertCall p = CallInsertUnsafePayload p ref).
      { unfold insertCall. rewrite Href. reflexivity. }
      destruct err as [e0 |].
      * unfold ret. cbn [fst snd].
        split; [split; [discriminate | intros Hall; rewrite Hall in H0; discriminate] |].
        split; [discriminate |].
        intros e He. injection He as <-. exists 0%nat.
        split; [intros j Hj; lia |]. split; [exact H0 |].
        unfold insertedUpTo. cbn. rewrite Href. cbn. rewrite take_0. cbn.
        rewrite Href. cbn. rewrite Hins, Hcall. reflexivity.
      * destruct (IH (mkState w' (locals s)
                        (calls s ++ [CallInsertUnsafePayload p ref])))
          as (Hiff & Hok & Hfail).
        cbn [world locals calls] in *.
        split; [| split].
        -- rewrite Hiff. split.
           ++ intros Hall [| k]; [exact H0 |].
              rewrite payloadFailure_S, Hw. apply Hall.
           ++ intros Hall k. specialize (Hall (S k)).
              rewrite payloadFailure_S, Hw in Hall. exact Hall.
        -- intros Hnone. rewrite (Hok Hnone). cbn.
           rewrite Hw, Hcall, <- app_assoc. reflexivity.
        -- intros e He. destruct (Hfail e He) as (k & Hbefore & Hk & Hstate).
           exists (S k). split; [| split].
           ++ intros [| j] Hj; [exact H0 |].
              rewrite payloadFailure_S, Hw. apply Hbefore. lia.
           ++ rewrite payloadFailure_S, Hw. exact Hk.
           ++ rewrite Hstate, insertedUpTo_S. cbn.
              rewrite Hw, Hcall, <- app_assoc. reflexivity.
Qed.

(** The first payload that fails, and its failure, are determined. *)
Lemma first_failure_unique payloads (w : W) (k k' : nat) (e e' : Err) :
  (forall j : nat, (j < k)%nat -> payloadFailure payloads w j = None) ->
  payloadFailure payloads w k = Some e ->
  (forall j : nat, (j < k')%nat -> payloadFailure payloads w j = None) ->
  payloadFailure payloads w k' = Some e' ->
  k = k' /\ e = e'.
Proof.
  intros Hb Hk Hb' Hk'.
  assert (k = k') as <-.
  { destruct (lt_eq_lt_dec k k') as [[Hlt | Heq] | Hgt]; [| exact Heq |].
    - rewrite (Hb' k Hlt) in Hk. discriminate.
    - rewrite (Hb k' Hgt) in Hk'. discriminate. }
  split; [reflexivity | congruence].
Qed.

End InsertionFacts.

(* ===================================================================== *)
(** ** Gap detection (C1) *)
(* ===================================================================== *)

Section GapDetection.
Context {W : Type} `{Collaborators W}.

(** C1.  [checkForGapInUnsafeQueue] reads the unsafe head and
    the lowest queued block.  With an empty queue (the zero block
    reference) it asks alt-sync for an open-ended range starting at the
    unsafe head.  Otherwise it asks for the range from the unsafe head to
    the lowest queued block exactly when [lowestQueued.number] is greater
    than [unsafeHead.number + 1] (in [uint64]); when it is equal or
    smaller, it issues no request and returns nil.  Whenever it asks, it
    returns what alt-sync returned. *)
Theorem checkForGapInUnsafeQueue_requests (s : State W) :
  let start := Engine_UnsafeL2Head (world s) in
  let end_ := CLSync_LowestQueuedUnsafeBlock (world s) in
  let out := checkForGapInUnsafeQueue s in
  (end_ = L2BlockRef_zero ->
     calls (snd out) = calls s ++ [CallRequestL2Range start L2BlockRef_zero]
     /\ fst out = fst (altSync_RequestL2Range start L2BlockRef_zero (world s)))
  /\ (end_ <> L2BlockRef_zero ->
      add64 (Number start) 1 < Number end_ ->
      calls (snd out) = calls s ++ [CallRequestL2Range start end_]
      /\ fst out = fst (altSync_RequestL2Range start end_ (world s)))
  /\ (end_ <> L2BlockRef_zero ->
      Number end_ <= add64 (Number start) 1 ->
      out = (None, s)).
Proof.
  intros start end_ out. subst out start end_.
  unfold checkForGapInUnsafeQueue. unfold_monad.
  destruct (decide _) as [Hz | Hz].
  - split; [| split]; try (intros Hnz; contradiction).
    intros _.
    destruct (altSync_RequestL2Range _ _ _) as [err w']. simpl. auto.
  - split; [intros Hz'; contradiction |].
    split; intros _ Hcmp.
    + destruct (Z.ltb_spec (add64 (Number (Engine_UnsafeL2Head (world s))) 1)
                           (Number (CLSync_LowestQueuedUnsafeBlock (world s))));
        [| lia].
      destruct (altSync_RequestL2Range _ _ _) as [err w']. simpl. auto.
    + destruct (Z.ltb_spec (add64 (Number (Engine_UnsafeL2Head (world s))) 1)
                           (Number (CLSync_LowestQueuedUnsafeBlock (world s))));
        [lia | reflexivity].
Qed.

End GapDetection.

(** Unsafe head at block 10; the three queue situations of the theorem:
    empty, lowest queued block 15, lowest queued block 11. *)
Lemma checkForGapInUnsafeQueue_requests_witness :
  calls (snd (checkForGapInUnsafeQueue
                (start0 (script (refAt 7 10) L2BlockRef_zero 0 0 []))))
    = [CallRequestL2Range (refAt 7 10) L2BlockRef_zero]
  /\ calls (snd (checkForGapInUnsafeQueue
                   (start0 (script (refAt 7 10) (refAt 9 15) 0 0 []))))
    = [CallRequestL2Range (refAt 7 10) (refAt 9 15)]
  /\ checkForGapInUnsafeQueue (start0 (script (refAt 7 10) (refAt 9 11) 0 0 []))
    = (None, start0 (script (refAt 7 10) (refAt 9 11) 0 0 [])).
Proof.
  split; [| split].
  - destruct (checkForGapInUnsafeQueue_requests
                (start0 (script (refAt 7 10) L2BlockRef_zero 0 0 [])))
      as (Hopen & _ & _).
    apply Hopen. reflexivity.
  - destruct (checkForGapInUnsafeQueue_requests
                (start0 (script (refAt 7 10) (refAt 9 15) 0 0 [])))
      as (_ & Hgap & _).
    apply Hgap; [discriminate | vm_compute; reflexivity].
  - destruct (checkForGapInUnsafeQueue_requests
                (start0 (script (refAt 7 10) (refAt 9 11) 0 0 [])))
      as (_ & _ & Hnone).
    apply Hnone; [discriminate | vm_compute; discriminate].
Defined.

(** The spec words the check as: equal, or else request the range.  With
    the unsafe head at block 10 and block 5 lowest in the queue the numbers
    differ, the queue is not empty, and no request is made. *)
Lemma checkForGapInUnsafeQueue_no_request_below_head :
  let s := start0 (script (refAt 7 10) (refAt 9 5) 0 0 []) in
  let start := Engine_UnsafeL2Head (world s) in
  let end_ := CLSync_LowestQueuedUnsafeBlock (world s) in
  end_ <> L2BlockRef_zero
  /\ Number end_ <> add64 (Number start) 1
  /\ calls (snd (checkForGapInUnsafeQueue s)) <> calls s ++ [CallRequestL2Range start end_]
  /\ calls (snd (checkForGapInUnsafeQueue s)) = [].
Proof.
  repeat split; vm_compute; discriminate.
Qed.

(* ===================================================================== *)
(** ** The sync deriver: reset events (C4, C5) *)
(* ===================================================================== *)

Section ResetHandling.
Context {W : Type} `{Collaborators W}.
Variable cfg : Config.

(** C4.  A [ResetEvent] is handled by the sync deriver.  Outside managed
    mode the handler emits [StepReqEvent] and then
    [ResetEngineRequestEvent], which starts the reset protocol; in
    managed mode it emits nothing and changes nothing, leaving the reset
    to the supervisor. *)
Theorem onResetEvent_by_mode (err : Err) (s : State W) :
  fst (OnEvent cfg (ResetEvent err) s) = true
  /\ (ManagedMode cfg = false ->
      snd (OnEvent cfg (ResetEvent err) s) =
        mkState (world s) (locals s)
                (calls s ++ [Emit SyncEmitter StepReqEvent;
                             Emit SyncEmitter ResetEngineRequestEvent]))
  /\ (ManagedMode cfg = true ->
      snd (OnEvent cfg (ResetEvent err) s) = s).
Proof.
  unfold OnEvent, onResetEvent. unfold_monad.
  destruct (ManagedMode cfg); simpl.
  - split; [reflexivity |]. split; [discriminate | reflexivity].
  - split; [reflexivity |]. split; [| discriminate].
    intros _. rewrite <- app_assoc. reflexivity.
Qed.

(** C5.  On [EngineResetConfirmedEvent] the handler emits
    [ConfirmPipelineResetEvent] exactly once when the safe-head listener
    was notified without error: [SafeHeadReset] succeeds and, when the
    listener is enabled and the cross-safe head is the L2 genesis block,
    the follow-up [SafeHeadUpdated] succeeds too (or no listener is
    set).  When one of these listener calls fails, the event is not
    emitted. *)
Theorem onEngineConfirmedReset_confirms (CrossSafe : L2BlockRef) (s : State W) :
  let r1 := SafeHeadNotifs_SafeHeadReset CrossSafe (world s) in
  let followUp :=
    SafeHeadNotifs_Enabled (snd r1)
    && bool_decide (L2BlockRef_ID CrossSafe = GenesisL2 cfg) in
  let r2 := SafeHeadNotifs_SafeHeadUpdated CrossSafe (snd r1) in
  exists l : list Call,
    calls (snd (OnEvent cfg (EngineResetConfirmedEvent CrossSafe) s))
      = calls s ++ l
    /\ (SafeHeadNotifsSet cfg = false -> confirms l = 1%nat)
    /\ (SafeHeadNotifsSet cfg = true ->
        fst r1 = None -> (followUp = true -> fst r2 = None) ->
        confirms l = 1%nat)
    /\ (SafeHeadNotifsSet cfg = true ->
        fst r1 <> None \/ (fst r1 = None /\ followUp = true /\ fst r2 <> None) ->
        confirms l = 0%nat).
Proof.
  intros r1 followUp r2. subst r1 followUp r2.
  unfold OnEvent, onEngineConfirmedReset, notifySafeHeadReset. unfold_monad.
  destruct (SafeHeadNotifsSet cfg); simpl.
  2: { eexists. split; [reflexivity |].
       split; [reflexivity |]. split; discriminate. }
  destruct (SafeHeadNotifs_SafeHeadReset CrossSafe (world s)) as [err1 w1].
  simpl. destruct err1 as [e1 |]; simpl.
  { eexists. split; [reflexivity |].
    split; [discriminate |]. split; [discriminate | reflexivity]. }
  destruct (SafeHeadNotifs_Enabled w1 && _) eqn:Hfollow; simpl.
  - destruct (SafeHeadNotifs_SafeHeadUpdated CrossSafe w1) as [err2 w2].
    simpl. destruct err2 as [e2 |]; simpl.
    + eexists. rewrite <- app_assoc. split; [reflexivity |].
      split; [discriminate |]. split.
      * intros _ _ Hok. specialize (Hok eq_refl). discriminate.
      * reflexivity.
    + eexists. rewrite <- !app_assoc. split; [reflexivity |].
      split; [discriminate |]. split; [reflexivity |].
      intros _ [Hbad | (_ & _ & Hbad)]; congruence.
  - eexists. rewrite <- app_assoc. split; [reflexivity |].
    split; [discriminate |]. split; [reflexivity |].
    intros _ [Hbad | (_ & Hbad & _)]; congruence.
Qed.

End ResetHandling.

(** Autonomous and managed mode on the same reset event. *)
Lemma onResetEvent_by_mode_witness :
  calls (snd (OnEvent (config CLSync false 1) (ResetEvent ErrNotFound)
                      (start0 (script (refAt 7 10) L2BlockRef_zero 0 0 []))))
    = [Emit SyncEmitter StepReqEvent; Emit SyncEmitter ResetEngineRequestEvent]
  /\ calls (snd (OnEvent (config CLSync true 1) (ResetEvent ErrNotFound)
                         (start0 (script (refAt 7 10) L2BlockRef_zero 0 0 []))))
    = [].
Proof.
  split.
  - destruct (onResetEvent_by_mode (config CLSync false 1) ErrNotFound
                (start0 (script (refAt 7 10) L2BlockRef_zero 0 0 [])))
      as (_ & Hself & _).
    rewrite Hself; reflexivity.
  - destruct (onResetEvent_by_mode (config CLSync true 1) ErrNotFound
                (start0 (script (refAt 7 10) L2BlockRef_zero 0 0 [])))
      as (_ & _ & Hmanaged).
    rewrite Hmanaged; reflexivity.
Defined.

(** The cross-safe head is the genesis block of [config] and the listener
    is enabled, so both listener calls are made: both succeed, the first
    fails, the second fails. *)
Lemma onEngineConfirmedReset_confirms_witness :
  confirms (calls (snd (OnEvent (config CLSync false 1)
                          (EngineResetConfirmedEvent (refAt 1 0))
                          (start0 (scriptListener true None None))))) = 1%nat
  /\ confirms (calls (snd (OnEvent (config CLSync false 1)
                             (EngineResetConfirmedEvent (refAt 1 0))
                             (start0 (scriptListener true (Some ErrNotFound) None)))))
     = 0%nat
  /\ confirms (calls (snd (OnEvent (config CLSync false 1)
                             (EngineResetConfirmedEvent (refAt 1 0))
                             (start0 (scriptListener true None (Some ErrNotFound))))))
     = 0%nat.
Proof.
  split; [| split].
  - destruct (onEngineConfirmedReset_confirms (config CLSync false 1) (refAt 1 0)
                (start0 (scriptListener true None None)))
      as (l & Hcalls & _ & Hok & _).
    rewrite Hcalls. apply Hok; reflexivity.
  - destruct (onEngineConfirmedReset_confirms (config CLSync false 1) (refAt 1 0)
                (start0 (scriptListener true (Some ErrNotFound) None)))
      as (l & Hcalls & _ & _ & Hfail).
    rewrite Hcalls. apply Hfail; [reflexivity |]. left. discriminate.
  - destruct (onEngineConfirmedReset_confirms (config CLSync false 1) (refAt 1 0)
                (start0 (scriptListener true None (Some ErrNotFound))))
      as (l & Hcalls & _ & _ & Hfail).
    rewrite Hcalls. apply Hfail; [reflexivity |]. right.
    split; [reflexivity |]. split; [reflexivity | discriminate].
Defined.

(* ===================================================================== *)
(** ** The select of the event loop (C6, C7) *)
(* ===================================================================== *)

Section SelectCases.
Context {W : Type} `{Collaborators W}.
Variable cfg : Config.

(** C6.  What the loop puts on the event bus after waking up
    depends on the signal: exactly one event on a sequencer deadline
    ([SequencerActionEvent]) and on a scheduled step, delayed or not
    ([StepAttemptEvent]); two events on an unsafe payload in CL-sync mode
    or when the engine is not syncing ([ReceivedUnsafePayloadEvent], then
    [StepReqEvent]) and none on an unsafe payload otherwise; none on an
    alt-sync tick, a state request or a force reset. *)
Theorem selectCase_emitted (sig : Signal) (s : State W) :
  exists l : list Call,
    calls (snd (selectCase cfg sig s)) = calls s ++ l
    /\ match sig with
       | SigSequencer => emitted l = [SequencerActionEvent]
       | SigDelayedStep | SigStep => emitted l = [StepAttemptEvent]
       | SigUnsafePayload envelope =>
           (SyncMode cfg = CLSync \/ Engine_IsEngineSyncing (world s) = false ->
            emitted l = [ReceivedUnsafePayloadEvent envelope; StepReqEvent])
           /\ (SyncMode cfg <> CLSync ->
               Engine_IsEngineSyncing (world s) = true ->
               emitted l = [])
       | SigAltSyncTick | SigStateReq _ | SigForceReset _ | SigCtxDone =>
           emitted l = []
       end.
Proof.
  destruct sig as [| | envelope | | | respCh | respCh |]; simpl.
  - unfold_monad. eexists. split; reflexivity.
  - destruct (decide (SyncMode cfg = CLSync)).
    + unfold bind, ret.
      destruct (checkForGapInUnsafeQueue_calls s) as (l & Hl & Hem).
      destruct (checkForGapInUnsafeQueue s) as [r s']. simpl in *. eauto.
    + unfold bind, ret.
      destruct (checkSyncUnsafeBlocks_calls cfg s) as (l & Hl & Hem).
      destruct (checkSyncUnsafeBlocks cfg s) as [r s']. simpl in *. eauto.
  - unfold_monad.
    destruct (bool_decide (SyncMode cfg = CLSync)) eqn:Hcl;
      [apply bool_decide_eq_true in Hcl | apply bool_decide_eq_false in Hcl];
      simpl.
    + eexists. rewrite <- !app_assoc. split; [reflexivity |]. simpl.
      split; [reflexivity | intros Hne; contradiction].
    + destruct (Engine_IsEngineSyncing (world s)) eqn:Hsync; simpl.
      * assert (Hnone : forall l : list Call, emitted l = [] ->
                  (SyncMode cfg = CLSync \/ true = false ->
                   emitted l = [ReceivedUnsafePayloadEvent envelope; StepReqEvent])
                  /\ (SyncMode cfg <> CLSync -> true = true -> emitted l = [])).
        { intros l Hl. split; [intros [Hc | Hc]; [contradiction | discriminate] | auto]. }
        destruct (decide (SyncMode cfg = ELSync));
          [| exists []; rewrite app_nil_r; split; [reflexivity | apply Hnone; reflexivity]].
        destruct (derive_PayloadToBlockRef (Payload envelope)) as [ref err].
        destruct err as [e0 |]; simpl;
          [exists []; rewrite app_nil_r; split; [reflexivity | apply Hnone; reflexivity] |].
        destruct (Number ref <=? _); simpl;
          [exists []; rewrite app_nil_r; split; [reflexivity | apply Hnone; reflexivity] |].
        destruct (Engine_InsertUnsafePayload envelope ref (world s)) as [err w'].
        simpl. eexists. split; [reflexivity | apply Hnone; reflexivity].
      * eexists. rewrite <- !app_assoc. split; [reflexivity |]. simpl.
        split; [reflexivity | intros _ Hs; discriminate].
  - unfold_monad. eexists. split; reflexivity.
  - unfold_monad. eexists. split; reflexivity.
  - unfold_monad. eexists. split; reflexivity.
  - unfold_monad. eexists. rewrite <- !app_assoc. split; reflexivity.
  - unfold_monad. exists []. rewrite app_nil_r. split; reflexivity.
Qed.

(** C7.  In EL-sync mode, while the engine is syncing, an unsafe payload
    whose block number is at most the number of the current unsafe head
    is dropped: the iteration ends with nothing inserted, nothing queued
    and no state changed.  [PayloadToBlockRef] is the helper of package
    [derive]; on success it gives a reference with the payload's block
    number. *)
Theorem unsafe_payload_not_above_head_discarded
    (envelope : ExecutionPayloadEnvelope) (s : State W) :
  (forall p ref, derive_PayloadToBlockRef p = (ref, None) ->
                 Number ref = BlockNumber p) ->
  SyncMode cfg = ELSync ->
  Engine_IsEngineSyncing (world s) = true ->
  BlockNumber (Payload envelope) <= Number (Engine_UnsafeL2Head (world s)) ->
  selectCase cfg (SigUnsafePayload envelope) s = (Next, s).
Proof.
  intros Hnum Hmode Hsync Hle. simpl. unfold_monad.
  rewrite Hsync, Hmode. simpl.
  destruct (derive_PayloadToBlockRef (Payload envelope)) as [ref err] eqn:Href.
  destruct err as [e |]; [reflexivity |].
  rewrite (Hnum _ _ Href).
  destruct (Z.leb_spec (BlockNumber (Payload envelope))
                       (Number (Engine_UnsafeL2Head (world s))));
    [reflexivity | lia].
Qed.

End SelectCases.

(** An unsafe payload for block 11 arrives at a node whose engine is
    syncing at block 10: in CL-sync mode it is queued and a step is
    requested, in EL-sync mode it is inserted without any event. *)
Lemma selectCase_emitted_witness :
  emitted (calls (snd (selectCase (config CLSync false 4)
                         (SigUnsafePayload (envelopeAt 3 11))
                         (start0 (script (refAt 7 10) L2BlockRef_zero 10 5 [])))))
    = [ReceivedUnsafePayloadEvent (envelopeAt 3 11); StepReqEvent]
  /\ emitted (calls (snd (selectCase (config ELSync false 4)
                            (SigUnsafePayload (envelopeAt 3 11))
                            (start0 (script (refAt 7 10) L2BlockRef_zero 10 5 [])))))
    = [].
Proof.
  split.
  - destruct (selectCase_emitted (config CLSync false 4)
                (SigUnsafePayload (envelopeAt 3 11))
                (start0 (script (refAt 7 10) L2BlockRef_zero 10 5 [])))
      as (l & Hcalls & Hqueue & _).
    rewrite Hcalls. apply Hqueue. left. reflexivity.
  - destruct (selectCase_emitted (config ELSync false 4)
                (SigUnsafePayload (envelopeAt 3 11))
                (start0 (script (refAt 7 10) L2BlockRef_zero 10 5 [])))
      as (l & Hcalls & _ & Hsilent).
    rewrite Hcalls. apply Hsilent; [discriminate | reflexivity].
Defined.

(** The spec has every signal translated into exactly one event.  A state
    request and a force reset put no event on the bus, and an unsafe
    payload in CL-sync mode puts two. *)
Lemma selectCase_not_one_event_per_signal :
  let s := start0 (script (refAt 7 10) L2BlockRef_zero 10 5 []) in
  length (emitted (calls (snd (selectCase (config CLSync false 4)
                                 (SigStateReq 0%nat) s)))) = 0%nat
  /\ length (emitted (calls (snd (selectCase (config CLSync false 4)
                                    (SigForceReset 0%nat) s)))) = 0%nat
  /\ length (emitted (calls (snd (selectCase (config CLSync false 4)
                                    (SigUnsafePayload (envelopeAt 3 11)) s))))
     = 2%nat.
Proof. repeat split. Qed.

Lemma scriptedPayloadToBlockRef_number (p : ExecutionPayload) (ref : L2BlockRef) :
  scriptedPayloadToBlockRef p = (ref, None) -> Number ref = BlockNumber p.
Proof.
  unfold scriptedPayloadToBlockRef.
  destruct (BlockHash p =? 0); intros Heq; inversion Heq. reflexivity.
Qed.

(** Engine syncing with its unsafe head at block 10, EL-sync mode: a payload
    for block 10 itself is dropped. *)
Lemma unsafe_payload_not_above_head_discarded_witness :
  selectCase (config ELSync false 4) (SigUnsafePayload (envelopeAt 3 10))
             (start0 (script (refAt 7 10) L2BlockRef_zero 10 5 []))
  = (Next, start0 (script (refAt 7 10) L2BlockRef_zero 10 5 [])).
Proof.
  apply (unsafe_payload_not_above_head_discarded (config ELSync false 4)
           (envelopeAt 3 10)
           (start0 (script (refAt 7 10) L2BlockRef_zero 10 5 []))).
  - exact scriptedPayloadToBlockRef_number.
  - reflexivity.
  - reflexivity.
  - simpl. lia.
Defined.

(* ===================================================================== *)
(** ** EL-sync batches (C8, C10) *)
(* ===================================================================== *)

(** [clamp] on a range of fewer than [2^63] blocks, for every size a
    [uint64] can hold. *)
Lemma clamp_min_range start end_ size :
  start <= end_ -> end_ - start < two63 -> 1 <= size < two64 ->
  clamp start end_ size = Z.min (start + size - 1) end_.
Proof.
  intros Hle Hdiff Hsize.
  assert (H63 : two63 < two64) by (rewrite two63_eq, two64_eq; lia).
  unfold clamp, add64.
  rewrite bigUint64_small by lia.
  rewrite wrap64_small by lia.
  destruct (Z.leb_spec (end_ - start + 1) size) as [Hfit | Hcut].
  - rewrite Z.min_r by lia. reflexivity.
  - unfold sub64. rewrite wrap64_small by lia.
    rewrite toInt64_small by lia.
    rewrite Z.min_l by lia. lia.
Qed.


Section ELSyncBatches.
Context {W : Type} `{Collaborators W}.
Variable cfg : Config.


(** [checkSyncUnsafeBlocks] once both latest blocks are there: nothing
    more when the local head is not behind; the failed fetch; or the fetch
    and the strict insertion loop on its batch. *)
Lemma checkSyncUnsafeBlocks_run
    (s : State W) startBlock endBlock e1 e2 w1 w2 :
  L2_GetLatestBlock (world s) = (Some startBlock, e1, w1) ->
  isNotFoundErr e1 = false ->
  ELClient_GetLatestBlock w1 = (Some endBlock, e2, w2) ->
  isNotFoundErr e2 = false ->
  let fetch := CallPayloadsByRange (startHeightOf startBlock)
                                   (endHeightOf cfg startBlock endBlock) in
  let batch := ELClient_PayloadsByRange (startHeightOf startBlock)
                 (endHeightOf cfg startBlock endBlock) w2 in
  checkSyncUnsafeBlocks cfg s =
  if NumberU64 startBlock <? sub64 (NumberU64 endBlock) 5 then
    match snd (fst batch) with
    | Some e =>
        (Some e,
         mkState (snd batch) (locals s)
                 (calls s ++ [CallL2GetLatestBlock; CallELGetLatestBlock;
                              fetch]))
    | None =>
        insertPayloadsOrFail (fst (fst batch))
          (mkState (snd batch) (locals s)
                   (calls s ++ [CallL2GetLatestBlock; CallELGetLatestBlock;
                                fetch]))
    end
  else (None, mkState w2 (locals s)
                (calls s ++ [CallL2GetLatestBlock; CallELGetLatestBlock])).
Proof.
  intros Hl2 Hnf1 Hel Hnf2 fetch batch. subst fetch batch.
  unfold checkSyncUnsafeBlocks. unfold_monad.
  rewrite Hl2. simpl. rewrite Hnf1. simpl. rewrite Hel. simpl.
  rewrite Hnf2. simpl.
  destruct (_ <? _); [| rewrite <- app_assoc; reflexivity].
  simpl.
  destruct (ELClient_PayloadsByRange _ _ w2) as [[payloads e3] w3]. simpl.
  rewrite <- !app_assoc. simpl.
  destruct e3; reflexivity.
Qed.

(** C10.  On an alt-sync tick in EL-sync mode the loop runs
    [checkSyncUnsafeBlocks].  Given that both latest blocks were obtained,
    it fetches a batch with [PayloadsByRange] if and only if
    [localHead.number < elHead.number - 5] in [uint64] arithmetic.  When
    the fetch fails nothing is inserted.  When it succeeds the payloads
    are inserted in order: the whole batch when no payload fails, and
    otherwise exactly the payloads up to the first one that fails, that
    one included when its block reference could be made; the engine is
    left as these insertions leave it.  When the EL head number is below 5
    the subtraction wraps around and the batch is attempted for every
    local head below [2^64 - 5], also one that is not behind. *)
Theorem altSyncTick_fetch_iff
    (s : State W) startBlock endBlock e1 e2 w1 w2 :
  SyncMode cfg = ELSync ->
  L2_GetLatestBlock (world s) = (Some startBlock, e1, w1) ->
  isNotFoundErr e1 = false ->
  ELClient_GetLatestBlock w1 = (Some endBlock, e2, w2) ->
  isNotFoundErr e2 = false ->
  let behind := NumberU64 startBlock < sub64 (NumberU64 endBlock) 5 in
  let fetch := CallPayloadsByRange (startHeightOf startBlock)
                                   (endHeightOf cfg startBlock endBlock) in
  let batch := ELClient_PayloadsByRange (startHeightOf startBlock)
                 (endHeightOf cfg startBlock endBlock) w2 in
  let payloads := fst (fst batch) in
  let after := snd (selectCase cfg SigAltSyncTick s) in
  exists l : list Call,
    calls after =
      calls s ++ [CallL2GetLatestBlock; CallELGetLatestBlock] ++ l
    /\ ((exists a b, In (CallPayloadsByRange a b) l) <-> behind)
    /\ (~ behind -> l = [] /\ world after = w2)
    /\ (behind -> forall e : Err, snd (fst batch) = Some e ->
        l = [fetch] /\ world after = snd batch)
    /\ (behind -> snd (fst batch) = None ->
        (forall k : nat, payloadFailure payloads (snd batch) k = None) ->
        l = fetch :: map insertCall payloads
        /\ world after = worldAfterInserts payloads (snd batch))
    /\ (behind -> snd (fst batch) = None ->
        forall (k : nat) (e : Err),
          (forall j : nat, (j < k)%nat ->
             payloadFailure payloads (snd batch) j = None) ->
          payloadFailure payloads (snd batch) k = Some e ->
          l = fetch :: map insertCall
                         (take (insertedUpTo payloads k) payloads)
          /\ world after =
             worldAfterInserts (take (insertedUpTo payloads k) payloads)
                               (snd batch))
    /\ (0 <= NumberU64 endBlock < 5 ->
        0 <= NumberU64 startBlock < two64 - 5 ->
        sub64 (NumberU64 endBlock) 5 = two64 - 5 + NumberU64 endBlock
        /\ behind).
Proof.
  intros Hmode Hl2 Hnf1 Hel Hnf2 behind fetch batch payloads after.
  assert (Htick : after = snd (checkSyncUnsafeBlocks cfg s)).
  { subst after. simpl. rewrite Hmode. simpl. unfold bind, ret.
    destruct (checkSyncUnsafeBlocks cfg s). reflexivity. }
  assert (Hwrap : 0 <= NumberU64 endBlock < 5 ->
                  0 <= NumberU64 startBlock < two64 - 5 ->
                  sub64 (NumberU64 endBlock) 5 = two64 - 5 + NumberU64 endBlock
                  /\ behind).
  { intros Hsmall Hlocal. split; [apply sub64_wraps; exact Hsmall |].
    subst behind. rewrite sub64_wraps by exact Hsmall. lia. }
  rewrite Htick.
  rewrite (checkSyncUnsafeBlocks_run s startBlock endBlock e1 e2 w1 w2
             Hl2 Hnf1 Hel Hnf2).
  fold fetch batch.
  destruct (Z.ltb_spec (NumberU64 startBlock) (sub64 (NumberU64 endBlock) 5))
    as [Hbehind | Hnot].
  - destruct (snd (fst batch)) as [e3 |] eqn:Herr.
    + exists [fetch]. cbn [snd calls world].
      split; [rewrite <- ?app_assoc; reflexivity |].
      split; [split; [intros _; exact Hbehind
                     | intros _; eexists _, _; left; reflexivity] |].
      split; [intros Hn; contradiction |].
      split; [intros _ e _; split; reflexivity |].
      split; [intros _ Hx; discriminate Hx |].
      split; [intros _ Hx; discriminate Hx | exact Hwrap].
    + fold payloads.
      match goal with
      | |- context [insertPayloadsOrFail payloads ?st] =>
          destruct (insertPayloadsOrFail_exact payloads st)
            as (Hiff & Hok & Hfail);
          destruct (insertPayloadsOrFail payloads st) as [r st'] eqn:Hrun
      end.
      cbn [fst snd world locals calls] in *.
      assert (Hl : exists l0 : list Call,
                calls st' = calls s ++ [CallL2GetLatestBlock;
                                        CallELGetLatestBlock]
                            ++ fetch :: l0
                /\ (r = None -> l0 = map insertCall payloads
                                /\ world st' = worldAfterInserts payloads
                                                 (snd batch))
                /\ (forall e, r = Some e ->
                      exists k : nat,
                        (forall j : nat, (j < k)%nat ->
                           payloadFailure payloads (snd batch) j = None)
                        /\ payloadFailure payloads (snd batch) k = Some e
                        /\ l0 = map insertCall
                                  (take (insertedUpTo payloads k) payloads)
                        /\ world st' =
                           worldAfterInserts
                             (take (insertedUpTo payloads k) payloads)
                             (snd batch))).
      { destruct r as [e |].
        - destruct (Hfail e eq_refl) as (k & Hb & Hk & ->).
          eexists. cbn. rewrite <- !app_assoc. split; [reflexivity |].
          split; [discriminate |].
          intros e' He'. injection He' as <-. exists k. auto.
        - rewrite (Hok eq_refl). eexists. cbn. rewrite <- !app_assoc.
          split; [reflexivity |]. split; [auto | discriminate]. }
      destruct Hl as (l0 & Hcalls & Hnone & Hsome).
      exists (fetch :: l0). split; [exact Hcalls |].
      split; [split; [intros _; exact Hbehind
                     | intros _; eexists _, _; left; reflexivity] |].
      split; [intros Hn; contradiction |].
      split; [intros _ e Hx; discriminate Hx |].
      split; [| split; [| exact Hwrap]].
      * intros _ _ Hall. apply Hiff in Hall. subst r.
        destruct (Hnone eq_refl) as (-> & Hw). auto.
      * intros _ _ k e Hb Hk.
        destruct r as [e' |].
        -- destruct (Hsome e' eq_refl) as (k' & Hb' & Hk' & -> & Hw).
           destruct (first_failure_unique payloads (snd batch) k k' e e'
                       Hb Hk Hb' Hk') as (<- & <-).
           auto.
        -- destruct Hiff as (Hall & _). rewrite (Hall eq_refl k) in Hk.
           discriminate.
  - exists []. cbn [snd calls world].
    split; [rewrite app_nil_r; reflexivity |].
    split; [split; [intros (a & b & []) | intros Hb; subst behind; lia] |].
    split; [intros _; split; reflexivity |].
    split; [intros Hb; subst behind; lia |].
    split; [intros Hb; subst behind; lia |].
    split; [intros Hb; subst behind; lia | exact Hwrap].
Qed.

End ELSyncBatches.



(** EL head at block 3, local head at block 10, which is not behind: the
    comparison is against [3 - 5] wrapped to [2^64 - 2], the batch is
    fetched and both of its payloads are inserted. *)
Lemma altSyncTick_fetch_iff_witness :
  exists l : list Call,
    calls (snd (selectCase (config ELSync false 4) SigAltSyncTick
                  (start0 (script (refAt 7 10) L2BlockRef_zero 10 3
                                  [envelopeAt 3 11; envelopeAt 4 12]))))
      = [CallL2GetLatestBlock; CallELGetLatestBlock] ++ l
    /\ (exists a b, In (CallPayloadsByRange a b) l)
    /\ sub64 3 5 = two64 - 5 + 3
    /\ l = CallPayloadsByRange
             (startHeightOf (mkBlockInfo 10))
             (endHeightOf (config ELSync false 4) (mkBlockInfo 10)
                          (mkBlockInfo 3))
           :: map insertCall [envelopeAt 3 11; envelopeAt 4 12].
Proof.
  pose (w := script (refAt 7 10) L2BlockRef_zero 10 3
                    [envelopeAt 3 11; envelopeAt 4 12]).
  assert (Hl2 : L2_GetLatestBlock (world (start0 w))
                = (Some (mkBlockInfo 10), None, w)) by reflexivity.
  assert (Hel : ELClient_GetLatestBlock w = (Some (mkBlockInfo 3), None, w))
    by reflexivity.
  destruct (altSyncTick_fetch_iff (config ELSync false 4)
              (start0 w) (mkBlockInfo 10) (mkBlockInfo 3) None None w w
              eq_refl Hl2 eq_refl Hel eq_refl)
    as (l & Hcalls & Hiff & _ & _ & Hall & _ & Hwrap).
  assert (Hsmall : 0 <= NumberU64 (mkBlockInfo 3) < 5) by (simpl; lia).
  assert (Hlocal : 0 <= NumberU64 (mkBlockInfo 10) < two64 - 5)
    by (simpl; rewrite two64_eq; lia).
  destruct (Hwrap Hsmall Hlocal) as (Hsub & Hbehind).
  exists l. split; [exact Hcalls |].
  split; [apply Hiff; exact Hbehind |]. split; [exact Hsub |].
  apply (Hall Hbehind eq_refl).
  intros [| [| k]]; reflexivity.
Defined.

(* ===================================================================== *)
(** ** Facts about the loop and its callers *)
(* ===================================================================== *)

Lemma served_app (respCh : ChanId) (cs l : list Call) :
  served respCh cs -> served respCh (cs ++ l).
Proof.
  intros (pre & post & ->). exists pre, (post ++ l).
  rewrite <- !app_assoc. reflexivity.
Qed.

Section LoopFacts.
Context {W : Type} `{Collaborators W}.
Variable cfg : Config.

Lemma selectCase_extends (sig : Signal) (d : State W) :
  exists l : list Call, calls (snd (selectCase cfg sig d)) = calls d ++ l.
Proof.
  destruct sig as [| | envelope | | | respCh | respCh |]; simpl.
  - unfold_monad. eauto.
  - destruct (decide (SyncMode cfg = CLSync)); unfold bind, ret.
    + destruct (checkForGapInUnsafeQueue_calls d) as (l & Hl & _).
      destruct (checkForGapInUnsafeQueue d). simpl in *. eauto.
    + destruct (checkSyncUnsafeBlocks_calls cfg d) as (l & Hl & _).
      destruct (checkSyncUnsafeBlocks cfg d). simpl in *. eauto.
  - unfold_monad.
    destruct (bool_decide (SyncMode cfg = CLSync) || _); simpl.
    + rewrite <- !app_assoc. eauto.
    + destruct (decide (SyncMode cfg = ELSync));
        [| exists []; rewrite app_nil_r; reflexivity].
      destruct (derive_PayloadToBlockRef (Payload envelope)) as [ref err].
      destruct err; simpl; [exists []; rewrite app_nil_r; reflexivity |].
      destruct (Number ref <=? _); simpl;
        [exists []; rewrite app_nil_r; reflexivity |].
      destruct (Engine_InsertUnsafePayload envelope ref (world d)). simpl.
      eauto.
  - unfold_monad. eauto.
  - unfold_monad. eauto.
  - unfold_monad. eauto.
  - unfold_monad. rewrite <- !app_assoc. eauto.
  - unfold_monad. exists []. rewrite app_nil_r. reflexivity.
Qed.

Lemma selectCase_forceReset (respCh : ChanId) (d : State W) :
  calls (snd (selectCase cfg (SigForceReset respCh) d)) =
  calls d ++ resetService respCh.
Proof. simpl. unfold_monad. rewrite <- !app_assoc. reflexivity. Qed.

Lemma planSequencerAction_extends (d : State W) :
  exists l : list Call, calls (snd (planSequencerAction d)) = calls d ++ l.
Proof.
  unfold planSequencerAction. unfold_monad.
  destruct (sequencer_NextAction (world d)) as [nextAction ok].
  destruct ok; simpl; [| exists []; rewrite app_nil_r; reflexivity].
  destruct (nextAction =? _); simpl;
    [exists []; rewrite app_nil_r; reflexivity |].
  destruct (sequencerTimer_pending (world d)); simpl.
  - rewrite <- app_assoc. eauto.
  - eauto.
Qed.

Lemma beforeSelect_extends (d : State W) :
  exists l : list Call, calls (snd (beforeSelect cfg d)) = calls d ++ l.
Proof.
  unfold beforeSelect, drainBeforeSelect. unfold bind at 1. unfold ask at 1.
  destruct (bool_decide _); [exists []; rewrite app_nil_r; reflexivity |].
  unfold bind at 1.
  assert (Hdrain : exists d1 stop l1,
             (if drainSet cfg
              then bind (invoke CallDrain drain)
                     (fun err => match err with
                                 | Some _ =>
                                     bind (ask driverCtx_Err)
                                       (fun e => ret (bool_decide (is_Some e)))
                                 | None => ret false
                                 end)
              else ret false) d = (stop, d1)
             /\ calls d1 = calls d ++ l1).
  { destruct (drainSet cfg); unfold_monad.
    - destruct (drain (world d)) as [err w']. simpl.
      destruct err; simpl; eauto.
    - exists d, false, []. rewrite app_nil_r. auto. }
  destruct Hdrain as (d1 & stop & l1 & Hrun & Hl1). rewrite Hrun.
  destruct stop; [simpl; eauto |].
  unfold bind at 1.
  destruct (planSequencerAction_extends d1) as (l2 & Hl2).
  destruct (planSequencerAction d1) as [u d2]. simpl in Hl2.
  unfold_monad.
  exists (l1 ++ l2 ++
          (if negb (bool_decide (Engine_UnsafeL2Head (world d2)
                                 = lastUnsafeL2 (locals d2)))
              || negb (Derivation_DerivationReady (world d2))
           then [AltSyncTickerReset] else [])
          ++ (if decide (SyncMode cfg = CLSync)
              then [Emit DriverEmitter FinalizeL1Event;
                    Emit DriverEmitter StepReqEvent] else [])).
  destruct (negb _ || negb _); destruct (decide (SyncMode cfg = CLSync));
    simpl; rewrite Hl2, Hl1; rewrite <- ?app_assoc; simpl;
    rewrite ?app_nil_r; reflexivity.
Qed.

(** The trace of the loop only grows. *)
Lemma step_calls_extend (s s' : Sys) (l : Label) :
  step cfg s l s' ->
  exists l' : list Call, calls (drv s') = calls (drv s) ++ l'.
Proof.
  intros Hstep.
  assert (Hsame : exists l' : list Call, calls (drv s) = calls (drv s) ++ l')
    by (exists []; rewrite app_nil_r; reflexivity).
  inversion Hstep; subst; unfold setLoop, setCaller; cbn [drv calls];
    try exact Hsame; try apply selectCase_extends.
  match goal with
  | Hb : beforeSelect cfg (drv s) = (_, ?d) |- _ =>
      destruct (beforeSelect_extends (drv s)) as (l' & Hl');
      rewrite Hb in Hl'; simpl in Hl'; eauto
  end.
Qed.

End LoopFacts.

Section Invariants.
Context {W : Type} `{Collaborators W}.
Variable cfg : Config.

(** Look a caller up after a step: either the one that moved, or one that
    was there before. *)
Ltac caller_cases Hj :=
  unfold setCaller, setLoop in Hj; cbn [callers] in Hj;
  try (rewrite lookup_insert in Hj;
       case_decide; [subst; injection Hj as <- |]).

(** A closed response channel was closed by the loop, right after the
    pipeline reset and its metric. *)
Lemma closed_served (s : Sys) :
  reachable cfg s ->
  forall i : ChanId, i ∈ closed s -> served i (calls (drv s)).
Proof.
  induction 1 as [w | s l s' Hreach IH Hstep]; intros j Hj.
  - simpl in Hj. set_solver.
  - destruct (step_calls_extend cfg s s' l Hstep) as (l' & Hext).
    inversion Hstep; subst; unfold setCaller, setLoop in *;
      cbn [closed drv] in *;
      try (rewrite Hext; apply served_app, IH, Hj).
    apply elem_of_union in Hj as [Hj | Hj].
    + apply elem_of_singleton in Hj. subst j.
      rewrite selectCase_forceReset.
      exists (calls (drv s)), []. rewrite app_nil_r. reflexivity.
    + rewrite Hext. apply served_app, IH, Hj.
Qed.

(** Open up the existentials and conjunctions among the hypotheses. *)
Ltac break_shape :=
  repeat match goal with
         | Hx : exists _, _ |- _ => destruct Hx
         | Hx : _ /\ _ |- _ => destruct Hx
         end.

(** The caller [c] has moved: its old shape gives the new one. *)
Ltac moved_shape c :=
  match goal with
  | Hs : callerShape c |- _ =>
      unfold callerShape, resetShape, brsShape, advance in *; cbn in *;
      destruct (call c) eqn:Hcall;
      repeat match goal with
             | Hp : pc c = _ |- _ => rewrite Hp in Hs
             | Hk : BlockRefWithStatus _ = BlockRefWithStatus _ |- _ =>
                 injection Hk as ->
             end;
      try contradiction; try discriminate;
      break_shape;
      repeat match goal with
             | Ho : ops c = _ |- _ => rewrite Ho
             end;
      cbn; eauto 10
  end.

(** The operations a caller has done fit where it stands. *)
Lemma caller_shape (s : Sys) :
  reachable cfg s ->
  forall (i : nat) (c : Caller), callers s !! i = Some c -> callerShape c.
Proof.
  induction 1 as [w | s l s' Hreach IH Hstep]; intros j cj Hj.
  - simpl in Hj. rewrite lookup_empty in Hj. discriminate.
  - inversion Hstep; subst; caller_cases Hj; eauto;
      try match goal with
          | Hc : callers s !! ?i = Some ?c |- _ =>
              pose proof (IH _ _ Hc) as Hshape; try moved_shape c
          end.
    + unfold callerShape. destruct k; reflexivity.
    + destruct (pc c) as [| | [e0 |] | | | | | | |]; auto.
      destruct Hshape as (Hctx & _). congruence.
    + destruct (pc c); auto.
      destruct Hshape as [Hd | [Hh | (r & e0 & _ & _ & _ & _ & _ & Hctx)]];
        [left; exact Hd | right; left; exact Hh | congruence].
    + destruct (Z.leb_spec num
                  (Number (FinalizedL2 (statusTracker_SyncStatus
                                          (world (drv s))))));
        cbn; eauto.
Qed.



(** [ResetDerivationPipeline] has returned nil only after its response
    channel was closed. *)
Lemma returned_nil_closed (s : Sys) :
  reachable cfg s ->
  forall (i : nat) (c : Caller),
    callers s !! i = Some c -> pc c = ResetReturned None -> i ∈ closed s.
Proof.
  induction 1 as [w | s l s' Hreach IH Hstep]; intros j cj Hj Hpc.
  - simpl in Hj. rewrite lookup_empty in Hj. discriminate.
  - inversion Hstep; subst; caller_cases Hj;
      unfold setCaller, setLoop, advance in *; cbn [closed pc] in *;
      try discriminate Hpc; eauto.
    + destruct k; discriminate Hpc.
    + destruct (_ <=? _); discriminate Hpc.
    + apply elem_of_union. right. eauto.
Qed.

(** While a caller of [BlockRefWithStatus] is between its send on
    [stateReq] and its receive on [wait], the loop is blocked in its send
    on that [wait]; and the loop is blocked there only then. *)
Lemma held_iff_loop_sending (s : Sys) :
  reachable cfg s ->
  (forall (i : nat) (c : Caller),
      callers s !! i = Some c -> heldPc (pc c) = true ->
      loopPc s = LoopSending i)
  /\ (forall i : nat,
         loopPc s = LoopSending i ->
         exists c : Caller, callers s !! i = Some c /\ heldPc (pc c) = true).
Proof.
  induction 1 as [w | s l s' Hreach [IHa IHb] Hstep].
  - split.
    + intros i c Hc. simpl in Hc. rewrite lookup_empty in Hc. discriminate.
    + intros i Hl. discriminate Hl.
  - split.
    + intros j cj Hj Hheld.
      inversion Hstep; subst; caller_cases Hj;
        unfold setCaller, setLoop, advance in *; cbn [loopPc pc] in *;
        try discriminate Hheld; eauto;
        try match goal with
            | Hl : loopPc s = _ |- _ =>
                pose proof (IHa _ _ Hj Hheld) as Hs; rewrite Hl in Hs;
                try discriminate Hs; injection Hs as ->; contradiction
            end.
      * destruct k; discriminate Hheld.
      * destruct (_ <=? _); discriminate Hheld.
      * match goal with
        | Hp : pc ?c = _ |- _ =>
            eapply IHa; [eassumption | rewrite Hp; reflexivity]
        end.
      * match goal with
        | Hp : pc ?c = _ |- _ =>
            eapply IHa; [eassumption | rewrite Hp; reflexivity]
        end.
    + intros j Hl.
      inversion Hstep; subst; unfold setCaller, setLoop, advance in *;
        cbn [loopPc callers] in *;
        try discriminate Hl;
        try (destruct ctl; discriminate Hl);
        try (injection Hl as <-; eexists; split;
             [apply lookup_insert_eq | reflexivity]);
        try (now apply IHb);
        destruct (IHb j Hl) as (c0 & Hc0 & Hh0);
        (destruct (decide (i = j)) as [-> | Hne];
         [| exists c0; split; [rewrite lookup_insert_ne by exact Hne; exact Hc0
                              | exact Hh0]]);
        try congruence;
        match goal with
        | Hc : callers s !! j = Some ?c |- _ =>
            rewrite Hc in Hc0; injection Hc0 as <-
        end;
        try match goal with
            | Hp : pc ?c = _ |- _ => rewrite Hp in Hh0; try discriminate Hh0
            end;
        eexists; (split; [apply lookup_insert_eq |]); cbn [pc];
        solve [reflexivity | exact Hh0].
Qed.

(** What a caller of [ResetDerivationPipeline] can do at its inner
    select: receive from the closed response channel, or see its context
    done. *)
Lemma reset_inner_step (s s' : Sys) (i : nat) (c : Caller) :
  callers s !! i = Some c -> pc c = ResetInnerSelect ->
  step cfg s (LCaller i) s' ->
  (i ∈ closed s
   /\ s' = setCaller i (advance c (ResetReturned None) [OpRecvResp]) s)
  \/ (exists e, ctxErr c = Some e
      /\ s' = setCaller i (advance c (ResetReturned (Some e)) [OpCtxDone]) s).
Proof.
  intros Hc Hpc Hstep.
  inversion Hstep; subst;
    match goal with
    | Hc' : callers s !! i = Some ?c' |- _ =>
        rewrite Hc in Hc'; injection Hc' as <-
    end; try congruence.
  - right. eauto.
  - left. auto.
Qed.

(** The same at the outer select: send the request, or see the context
    done. *)
Lemma reset_outer_step (s s' : Sys) (i : nat) (c : Caller) :
  callers s !! i = Some c -> pc c = ResetOuterSelect ->
  step cfg s (LCaller i) s' ->
  ((length (forceReset s) < forceResetCap)%nat
   /\ s' = mkSys (drv s) (loopPc s)
              (<[i := advance c ResetInnerSelect [OpSendForceReset]]> (callers s))
              (forceReset s ++ [i]) (closed s))
  \/ (exists e, ctxErr c = Some e
      /\ s' = setCaller i (advance c (ResetReturned (Some e)) [OpCtxDone]) s).
Proof.
  intros Hc Hpc Hstep.
  inversion Hstep; subst;
    match goal with
    | Hc' : callers s !! i = Some ?c' |- _ =>
        rewrite Hc in Hc'; injection Hc' as <-
    end; try congruence.
  - right. eauto.
  - left. auto.
Qed.

(** A step of a caller alone leaves the loop and the channels as they
    are, except for the send of a reset request. *)
Lemma caller_step_frame (s s' : Sys) (i : nat) (c : Caller) :
  callers s !! i = Some c -> pc c <> ResetOuterSelect ->
  step cfg s (LCaller i) s' ->
  drv s' = drv s /\ loopPc s' = loopPc s
  /\ forceReset s' = forceReset s /\ closed s' = closed s.
Proof.
  intros Hc Hpc Hstep.
  inversion Hstep; subst; unfold setCaller; cbn; auto;
    match goal with
    | Hc' : callers s !! i = Some ?c' |- _ =>
        rewrite Hc in Hc'; injection Hc' as <-
    end; contradiction.
Qed.

(** While the loop is blocked in its send to caller [i], no step makes it
    perform a call; it leaves that send only by meeting caller [i] at
    [<-wait]. *)
Lemma loop_sending_step (s s' : Sys) (i : nat) (l : Label) :
  loopPc s = LoopSending i ->
  step cfg s l s' ->
  (loopPc s' = LoopSending i /\ calls (drv s') = calls (drv s))
  \/ (l = LMeet i /\ loopPc s' = LoopTop
      /\ exists c ref resp err,
          callers s !! i = Some c /\ pc c = BrsHeldRecvWait ref resp err
          /\ callers s' !! i
             = Some (advance c (BrsReturned ref (Some resp) err) [OpRecvWait])).
Proof.
  intros Hl Hstep.
  inversion Hstep; subst; unfold setCaller, setLoop; cbn [loopPc drv calls];
    try (left; split; [exact Hl | reflexivity]);
    try congruence.
  right.
  match goal with
  | Hl' : loopPc s = LoopSending ?j |- _ =>
      rewrite Hl in Hl'; injection Hl' as <-
  end.
  split; [reflexivity |]. split; [reflexivity |].
  eexists _, _, _, _. split; [eassumption |]. split; [eassumption |].
  cbn [callers]. apply lookup_insert_eq.
Qed.


End Invariants.

(* ===================================================================== *)
(** ** Force reset and state requests (C2, C3, C9) *)
(* ===================================================================== *)

Section AdminCalls.
Context {W : Type} `{Collaborators W}.
Variable cfg : Config.

(** C2.  On a request received from [forceReset] the loop calls
    [Reset] on the derivation pipeline, records the pipeline-reset
    metric and then closes the response channel of the request, in this
    order, and goes on with the loop.  Consequently, in every reachable
    state, a [ResetDerivationPipeline] that has returned nil has its
    response channel closed, after that service, and one that has
    returned an error has returned its context's error.  At the inner
    select the call can return nil as soon as the channel is closed and
    the context error as soon as the context is done, and it can do
    nothing else: with both ready, either is taken.  At the outer select
    it can send its request while the buffer has room, also with its
    context done, or return the context error. *)
Theorem force_reset_served_then_nil :
  (forall (respCh : ChanId) (d : State W),
      selectCase cfg (SigForceReset respCh) d =
      (Next, mkState (metrics_RecordPipelineReset (Derivation_Reset (world d)))
                     (locals d)
                     (calls d ++ [CallPipelineReset; CallRecordPipelineReset;
                                  ChanClose respCh])))
  /\ (forall (s : Sys) (i : nat) (c : Caller),
        reachable cfg s -> callers s !! i = Some c ->
        (pc c = ResetReturned None ->
         i ∈ closed s /\ served i (calls (drv s)))
        /\ (forall e, pc c = ResetReturned (Some e) -> ctxErr c = Some e)
        /\ (pc c = ResetInnerSelect ->
            (i ∈ closed s ->
             step cfg s (LCaller i)
                  (setCaller i (advance c (ResetReturned None) [OpRecvResp]) s))
            /\ (forall e, ctxErr c = Some e ->
                  step cfg s (LCaller i)
                       (setCaller i
                          (advance c (ResetReturned (Some e)) [OpCtxDone]) s))
            /\ (forall s', step cfg s (LCaller i) s' ->
                  (i ∈ closed s
                   /\ s' = setCaller i
                             (advance c (ResetReturned None) [OpRecvResp]) s)
                  \/ (exists e, ctxErr c = Some e
                      /\ s' = setCaller i
                                (advance c (ResetReturned (Some e)) [OpCtxDone])
                                s)))
        /\ (pc c = ResetOuterSelect ->
            ((length (forceReset s) < forceResetCap)%nat ->
             step cfg s (LCaller i)
                  (mkSys (drv s) (loopPc s)
                         (<[i := advance c ResetInnerSelect
                                         [OpSendForceReset]]> (callers s))
                         (forceReset s ++ [i]) (closed s)))
            /\ (forall e, ctxErr c = Some e ->
                  step cfg s (LCaller i)
                       (setCaller i
                          (advance c (ResetReturned (Some e)) [OpCtxDone]) s))
            /\ (forall s', step cfg s (LCaller i) s' ->
                  (exists c', callers s' !! i = Some c'
                              /\ pc c' = ResetInnerSelect
                              /\ forceReset s' = forceReset s ++ [i])
                  \/ (exists e, ctxErr c = Some e
                      /\ s' = setCaller i
                                (advance c (ResetReturned (Some e)) [OpCtxDone])
                                s)))).
Proof.
  split.
  - intros respCh d. simpl. unfold_monad. rewrite <- !app_assoc. reflexivity.
  - intros s i c Hreach Hc. split; [| split; [| split]].
    4: { intros Hpc. split; [| split].
         - intros Hroom. apply step_reset_send; assumption.
         - intros e He. eapply step_reset_outer_ctx; eassumption.
         - intros s' Hstep.
           destruct (reset_outer_step cfg s s' i c Hc Hpc Hstep)
             as [(_ & ->) | Hctx]; [left | right; exact Hctx].
           eexists. cbn [callers forceReset].
           split; [apply lookup_insert_eq |]. split; reflexivity. }
    + intros Hpc. pose proof (returned_nil_closed cfg s Hreach i c Hc Hpc) as Hcl.
      split; [exact Hcl |]. exact (closed_served cfg s Hreach i Hcl).
    + intros e Hpc. pose proof (caller_shape cfg s Hreach i c Hc) as Hshape.
      unfold callerShape, resetShape, brsShape in Hshape. rewrite Hpc in Hshape.
      destruct (call c); [tauto | contradiction].
    + intros Hpc. split; [| split].
      * intros Hcl. apply step_reset_recv; assumption.
      * intros e He. eapply step_reset_inner_ctx; eassumption.
      * intros s' Hstep. exact (reset_inner_step cfg s s' i c Hc Hpc Hstep).
Qed.

(** C3.  A call [BlockRefWithStatus(n)] first reads the
    status.  If [n] is at or below the finalized local head of that
    snapshot, it reads the block reference and returns, with no channel
    operation; no step it takes alone touches the loop.  If [n] is
    above, it either returns the context error without reading anything
    more (the context was done before the loop took the request), or it
    sends a one-shot request on [stateReq], reads the status and the
    block reference, and then receives on its channel.  From that send to
    that receive the loop is blocked in its send on the channel of this
    request: it performs no call and leaves only by meeting this caller
    at the receive. *)
Theorem blockRefWithStatus_paths (s : Sys) (i : nat) (c : Caller) (num : Z) :
  reachable cfg s -> callers s !! i = Some c ->
  call c = BlockRefWithStatus num ->
  (forall ref resp err,
      pc c = BrsReturned ref resp err ->
      (exists r, ops c = [OpReadStatus r; OpReadRef num]
                 /\ num <= Number (FinalizedL2 r) /\ resp = Some r)
      \/ (exists r r1,
             ops c = [OpReadStatus r; OpSendStateReq; OpReadStatus r1;
                      OpReadRef num; OpRecvWait]
             /\ Number (FinalizedL2 r) < num /\ resp = Some r1)
      \/ (exists r e,
             ops c = [OpReadStatus r; OpCtxDone]
             /\ Number (FinalizedL2 r) < num
             /\ ref = L2BlockRef_zero /\ resp = None
             /\ err = Some e /\ ctxErr c = Some e))
  /\ (forall s', step cfg s (LCaller i) s' ->
        drv s' = drv s /\ loopPc s' = loopPc s
        /\ forceReset s' = forceReset s /\ closed s' = closed s)
  /\ (heldPc (pc c) = true ->
      loopPc s = LoopSending i
      /\ forall l s', step cfg s l s' ->
           (loopPc s' = LoopSending i /\ calls (drv s') = calls (drv s))
           \/ (l = LMeet i /\ loopPc s' = LoopTop
               /\ exists ref resp err,
                   pc c = BrsHeldRecvWait ref resp err
                   /\ callers s' !! i
                      = Some (advance c (BrsReturned ref (Some resp) err)
                                      [OpRecvWait]))).
Proof.
  intros Hreach Hc Hcall.
  pose proof (caller_shape cfg s Hreach i c Hc) as Hshape.
  unfold callerShape in Hshape. rewrite Hcall in Hshape.
  split; [| split].
  - intros ref resp err Hpc. unfold brsShape in Hshape.
    rewrite Hpc in Hshape. exact Hshape.
  - intros s' Hstep. apply (caller_step_frame cfg s s' i c Hc); [| exact Hstep].
    intros Hpc. unfold brsShape in Hshape. rewrite Hpc in Hshape.
    contradiction.
  - intros Hheld.
    destruct (held_iff_loop_sending cfg s Hreach) as (Hsending & _).
    pose proof (Hsending i c Hc Hheld) as Hl.
    split; [exact Hl |].
    intros l s' Hstep.
    destruct (loop_sending_step cfg s s' i l Hl Hstep)
      as [Hstay | (Hlab & Htop & c' & ref & resp & err & Hc' & Hpc' & Hnew)].
    + left. exact Hstay.
    + right. rewrite Hc in Hc'. injection Hc' as <-.
      split; [exact Hlab |]. split; [exact Htop |]. eauto.
Qed.


End AdminCalls.

(* ===================================================================== *)
(** ** Runs of the loop with one caller *)
(* ===================================================================== *)

(** One more step of a run: [tac] picks the step. *)
Ltac run_step R tac :=
  eapply reachable_step in R; [| tac].

Ltac caller0 :=
  unfold setCaller, setLoop; cbn [callers]; apply lookup_insert_eq.

(** A reset request that is sent, served by the loop and answered. *)
Lemma force_reset_served_then_nil_witness :
  exists (s : Sys (W := Script)) (c : Caller),
    reachable (config CLSync false 4) s
    /\ callers s !! 0%nat = Some c
    /\ pc c = ResetReturned None
    /\ 0%nat ∈ closed s
    /\ served 0%nat (calls (drv s)).
Proof.
  pose proof (reachable_init (config CLSync false 4) node10) as R.
  run_step R ltac:(apply (step_spawn _ _ 0%nat ResetDerivationPipeline);
                   reflexivity).
  run_step R ltac:(eapply (step_reset_send _ _ 0%nat);
                   [caller0 | reflexivity | cbn; unfold forceResetCap; lia]).
  run_step R ltac:(eapply step_loop_top; [reflexivity | vm_compute; reflexivity]).
  run_step R ltac:(eapply (step_loop_forceReset _ _ 0%nat []); reflexivity).
  run_step R ltac:(eapply (step_reset_recv _ _ 0%nat);
                   [caller0 | reflexivity |
                    cbn [closed]; apply elem_of_union; left;
                    apply elem_of_singleton; reflexivity]).
  eexists _, _. split; [exact R |].
  split; [caller0 |]. split; [reflexivity |].
  eapply (force_reset_served_then_nil (config CLSync false 4));
    [exact R | caller0 | reflexivity].
Defined.

(** The result of [ResetDerivationPipeline] does not tell which came
    first.  In the first run the caller's context is cancelled before the
    call has sent anything, with no channel closed: the call still sends
    its request, the loop serves it, and the call returns nil.  In the
    second run the loop has served the request and closed the response
    channel; the context is cancelled afterwards and the call, with both
    cases of its select ready, returns the context error. *)
Lemma resetDerivationPipeline_result_races :
  (exists (s0 s : Sys (W := Script)) (c0 c : Caller),
      reachable (config CLSync false 4) s0
      /\ callers s0 !! 0%nat = Some c0
      /\ pc c0 = ResetOuterSelect
      /\ ctxErr c0 = Some ErrCanceled
      /\ closed s0 = ∅
      /\ reaches (config CLSync false 4) s0 s
      /\ callers s !! 0%nat = Some c
      /\ ctxErr c = Some ErrCanceled
      /\ pc c = ResetReturned None)
  /\ (exists (s1 s : Sys (W := Script)) (c1 c : Caller),
         reachable (config CLSync false 4) s1
         /\ callers s1 !! 0%nat = Some c1
         /\ pc c1 = ResetInnerSelect
         /\ ctxErr c1 = None
         /\ 0%nat ∈ closed s1
         /\ served 0%nat (calls (drv s1))
         /\ reaches (config CLSync false 4) s1 s
         /\ callers s !! 0%nat = Some c
         /\ pc c = ResetReturned (Some ErrCanceled)
         /\ 0%nat ∈ closed s).
Proof.
  split.
  - pose proof (reachable_init (config CLSync false 4) node10) as R.
    run_step R ltac:(apply (step_spawn _ _ 0%nat ResetDerivationPipeline);
                     reflexivity).
    run_step R ltac:(eapply (step_cancel _ _ 0%nat _ ErrCanceled);
                     [caller0 | reflexivity | left; reflexivity]).
    eexists _, _, _, _. split; [exact R |].
    split; [caller0 |]. split; [reflexivity |]. split; [reflexivity |].
    split; [reflexivity |]. split.
    + eapply reaches_step;
        [eapply (step_reset_send _ _ 0%nat);
         [caller0 | reflexivity | cbn; unfold forceResetCap; lia] |].
      eapply reaches_step;
        [eapply step_loop_top; [reflexivity | vm_compute; reflexivity] |].
      eapply reaches_step;
        [eapply (step_loop_forceReset _ _ 0%nat []); reflexivity |].
      eapply reaches_step;
        [eapply (step_reset_recv _ _ 0%nat);
         [caller0 | reflexivity |
          cbn [closed]; apply elem_of_union; left;
          apply elem_of_singleton; reflexivity] |].
      apply reaches_refl.
    + split; [caller0 |]. split; reflexivity.
  - pose proof (reachable_init (config CLSync false 4) node10) as R.
    run_step R ltac:(apply (step_spawn _ _ 0%nat ResetDerivationPipeline);
                     reflexivity).
    run_step R ltac:(eapply (step_reset_send _ _ 0%nat);
                     [caller0 | reflexivity | cbn; unfold forceResetCap; lia]).
    run_step R ltac:(eapply step_loop_top; [reflexivity | vm_compute; reflexivity]).
    run_step R ltac:(eapply (step_loop_forceReset _ _ 0%nat []); reflexivity).
    assert (Hclosed : forall X : gset ChanId, 0%nat ∈ ({[0%nat]} ∪ X))
      by (intros X; apply elem_of_union; left; apply elem_of_singleton;
          reflexivity).
    eexists _, _, _, _. split; [exact R |].
    split; [caller0 |]. split; [reflexivity |]. split; [reflexivity |].
    split; [cbn [closed]; apply Hclosed |].
    split; [apply (closed_served (config CLSync false 4) _ R);
            cbn [closed]; apply Hclosed |].
    split.
    + eapply reaches_step;
        [eapply (step_cancel _ _ 0%nat _ ErrCanceled);
         [caller0 | reflexivity | left; reflexivity] |].
      eapply reaches_step;
        [eapply (step_reset_inner_ctx _ _ 0%nat);
         [caller0 | reflexivity | reflexivity] |].
      apply reaches_refl.
    + split; [caller0 |]. split; [reflexivity |].
      unfold setCaller, setLoop. cbn [closed]. apply Hclosed.
Qed.

(** [BlockRefWithStatus(20)] on a node finalized at block 10: the loop takes
    the request, the caller reads status and block reference and stands at
    its receive; the loop is blocked in its send to this caller. *)
Lemma blockRefWithStatus_paths_witness :
  exists (s : Sys (W := Script)) (c : Caller),
    reachable (config CLSync false 4) s
    /\ callers s !! 0%nat = Some c
    /\ call c = BlockRefWithStatus 20
    /\ heldPc (pc c) = true
    /\ loopPc s = LoopSending 0%nat.
Proof.
  pose proof (reachable_init (config CLSync false 4) node10) as R.
  run_step R ltac:(apply (step_spawn _ _ 0%nat (BlockRefWithStatus 20));
                   reflexivity).
  run_step R ltac:(eapply (step_brs_entry _ _ 0%nat);
                   [caller0 | reflexivity | reflexivity | reflexivity]).
  run_step R ltac:(eapply step_loop_top; [reflexivity | vm_compute; reflexivity]).
  run_step R ltac:(eapply (step_brs_send _ _ 0%nat);
                   [caller0 | reflexivity | reflexivity]).
  run_step R ltac:(eapply (step_brs_held_status _ _ 0%nat);
                   [caller0 | reflexivity | reflexivity]).
  run_step R ltac:(eapply (step_brs_held_ref _ _ 0%nat);
                   [caller0 | reflexivity | reflexivity | reflexivity]).
  eexists _, _. split; [exact R |].
  split; [caller0 |]. split; [reflexivity |]. split; [reflexivity |].
  eapply (blockRefWithStatus_paths (config CLSync false 4));
    [exact R | caller0 | reflexivity | reflexivity].
Defined.

(** Not every call above the finalized head gets to send its request and
    read under the lock.  Here the context of [BlockRefWithStatus(20)] is
    cancelled while the call waits at its select, on a node finalized at
    block 10: the call returns the context error, having sent no request
    and read no block reference. *)
Lemma blockRefWithStatus_cancelled_before_request :
  exists (s : Sys (W := Script)) (c : Caller) (r : SyncStatus),
    reachable (config CLSync false 4) s
    /\ callers s !! 0%nat = Some c
    /\ call c = BlockRefWithStatus 20
    /\ Number (FinalizedL2 r) < 20
    /\ pc c = BrsReturned L2BlockRef_zero None (Some ErrCanceled)
    /\ ops c = [OpReadStatus r; OpCtxDone]
    /\ (OpSendStateReq ∉ ops c)
    /\ (OpReadRef 20 ∉ ops c).
Proof.
  pose proof (reachable_init (config CLSync false 4) node10) as R.
  run_step R ltac:(apply (step_spawn _ _ 0%nat (BlockRefWithStatus 20));
                   reflexivity).
  run_step R ltac:(eapply (step_brs_entry _ _ 0%nat);
                   [caller0 | reflexivity | reflexivity | reflexivity]).
  run_step R ltac:(eapply (step_cancel _ _ 0%nat _ ErrCanceled);
                   [caller0 | reflexivity | left; reflexivity]).
  run_step R ltac:(eapply (step_brs_ctx _ _ 0%nat);
                   [caller0 | reflexivity | reflexivity]).
  eexists _, _, _. split; [exact R |].
  split; [caller0 |]. split; [reflexivity |].
  split; [| split; [reflexivity | split; [reflexivity |]]].
  - vm_compute. reflexivity.
  - split; intros Hin; cbn in Hin;
      repeat (apply elem_of_cons in Hin as [Hin | Hin]; [discriminate Hin |]);
      apply elem_of_nil in Hin; exact Hin.
Qed.


(* ===================================================================== *)
(** ** More on the sync deriver *)
(* ===================================================================== *)

Lemma emitted_app_events (l1 l2 : list Call) :
  emitted (l1 ++ l2) = emitted l1 ++ emitted l2.
Proof. unfold emitted. apply omap_app. Qed.

Section SyncDeriverFacts.
Context {W : Type} `{Collaborators W}.
Variable cfg : Config.

(** Solve a goal [exists l, calls s ++ ... = calls s ++ l /\ P l] once the
    run has been reduced to a concrete trace. *)
Ltac trace_done :=
  eexists; split; [rewrite <- ?app_assoc; reflexivity | simpl; eauto 20].

(** Refute the membership of an event in a concrete list of other events. *)
Ltac not_in_list :=
  let Hin := fresh "Hin" in
  intros Hin;
  repeat (apply elem_of_cons in Hin as [Hin | Hin]; [discriminate Hin |]);
  apply elem_of_nil in Hin; exact Hin.

(** Close a case of a handler whose trace is concrete: the events in it
    are compared with the one asked about. *)
Ltac step_done :=
  eexists;
  (split; [first [rewrite <- ?app_assoc; reflexivity
                 | symmetry; apply app_nil_r] |]);
  (split; [reflexivity |]);
  (split; [try discriminate; reflexivity |]);
  cbn;
  repeat split; intros;
  match goal with
  | Hin : _ ∈ _ |- _ =>
      repeat (apply elem_of_cons in Hin as [Hin | Hin];
              [try discriminate Hin; eauto |]);
      try (apply elem_of_nil in Hin; contradiction)
  end.

(** X1.  The events of one [SyncStep] are fixed by its drains and the
    engine.  A drain that fails ends the step, reported as a critical
    error unless it is a cancellation.  [TryBackupUnsafeReorgEvent] is
    emitted after a first good drain and [TryUpdateEngineEvent] after a
    second.  After three good drains the step ends with
    [ResetStepBackoffEvent] when the engine is syncing and with
    [PendingSafeRequestEvent] when it is not, the latter followed by
    [CrossUpdateRequestEvent] exactly with interop configured outside
    managed mode.  The step calls nothing but these drains, emits on the
    deriver's emitter only, and leaves the variables of the loop alone. *)
Theorem SyncStep_outcomes (s : State W) :
  let d1 := drain (world s) in
  let d2 := drain (snd d1) in
  let d3 := drain (snd d2) in
  let report (e : Err) :=
    if isCanceled e then []
    else [CriticalErrorEvent
            (ErrWrap "unexpected error on SyncStep event Drain" e)] in
  let ending :=
    if Engine_IsEngineSyncing (snd d3) then [ResetStepBackoffEvent]
    else PendingSafeRequestEvent ::
         (if InteropTimeSet cfg && negb (ManagedMode cfg)
          then [CrossUpdateRequestEvent] else []) in
  let drains : nat :=
    match fst d1, fst d2 with
    | Some _, _ => 1%nat
    | None, Some _ => 2%nat
    | None, None => 3%nat
    end in
  exists l : list Call,
    snd (SyncStep cfg s) =
      mkState (match fst d1, fst d2 with
               | Some _, _ => snd d1
               | None, Some _ => snd d2
               | None, None => snd d3
               end)
              (locals s) (calls s ++ l)
    /\ emitted l =
       match fst d1 with
       | Some e => report e
       | None =>
           TryBackupUnsafeReorgEvent ::
           match fst d2 with
           | Some e => report e
           | None =>
               TryUpdateEngineEvent ::
               match fst d3 with
               | Some e => report e
               | None => ending
               end
           end
       end
    /\ List.filter (fun c => match c with Emit _ _ => false | _ => true end) l
       = repeat CallDrain drains
    /\ Forall (fun c => match c with
                        | Emit DriverEmitter _ => False
                        | _ => True
                        end) l.
Proof.
  cbn zeta. unfold SyncStep, syncStepDrain. unfold_monad.
  destruct (drain (world s)) as [[e1 |] w1]; simpl.
  { destruct (isCanceled e1); simpl; eexists;
      (split; [rewrite <- ?app_assoc; reflexivity |]); simpl;
      repeat split; repeat constructor. }
  destruct (drain w1) as [[e2 |] w2]; simpl.
  { destruct (isCanceled e2); simpl; eexists;
      (split; [rewrite <- ?app_assoc; reflexivity |]); simpl;
      repeat split; repeat constructor. }
  destruct (drain w2) as [[e3 |] w3]; simpl.
  { destruct (isCanceled e3); simpl; eexists;
      (split; [rewrite <- ?app_assoc; reflexivity |]); simpl;
      repeat split; repeat constructor. }
  destruct (Engine_IsEngineSyncing w3); simpl.
  { eexists. split; [rewrite <- ?app_assoc; reflexivity |]. simpl.
    repeat split; repeat constructor. }
  destruct (InteropTimeSet cfg && negb (ManagedMode cfg)); simpl;
    eexists; (split; [rewrite <- ?app_assoc; reflexivity |]); simpl;
    repeat split; repeat constructor.
Qed.

(** X2.  The critical error of [SyncStep].  Take the first of its three
    drains that fails.  If its error is a cancellation, or if no drain
    fails, the step reports no critical error.  Otherwise the last event
    of the step is one [CriticalErrorEvent] wrapping that error.  After a
    failed drain, cancelled or not, the step neither backs off nor asks
    for the pending-safe head. *)
Theorem SyncStep_critical_error (s : State W) :
  let d1 := drain (world s) in
  let d2 := drain (snd d1) in
  let d3 := drain (snd d2) in
  let failure := match fst d1, fst d2, fst d3 with
                 | Some e, _, _ => Some e
                 | None, Some e, _ => Some e
                 | None, None, r => r
                 end in
  exists l : list Call,
    calls (snd (SyncStep cfg s)) = calls s ++ l
    /\ match failure with
       | Some e =>
           (if isCanceled e
            then forall x, CriticalErrorEvent x ∉ emitted l
            else last (emitted l) =
                   Some (CriticalErrorEvent
                           (ErrWrap "unexpected error on SyncStep event Drain"
                                    e))
                 /\ length (List.filter
                              (fun ev => match ev with
                                         | CriticalErrorEvent _ => true
                                         | _ => false
                                         end) (emitted l)) = 1%nat)
           /\ (PendingSafeRequestEvent ∉ emitted l)
           /\ (ResetStepBackoffEvent ∉ emitted l)
       | None => forall x, CriticalErrorEvent x ∉ emitted l
       end.
Proof.
  cbn zeta. unfold SyncStep, syncStepDrain. unfold_monad.
  destruct (drain (world s)) as [[e1 |] w1]; simpl.
  { destruct (isCanceled e1); simpl; eexists;
      (split; [rewrite <- ?app_assoc; reflexivity |]); simpl;
      repeat split; try reflexivity; intros; not_in_list. }
  destruct (drain w1) as [[e2 |] w2]; simpl.
  { destruct (isCanceled e2); simpl; eexists;
      (split; [rewrite <- ?app_assoc; reflexivity |]); simpl;
      repeat split; try reflexivity; intros; not_in_list. }
  destruct (drain w2) as [[e3 |] w3]; simpl.
  { destruct (isCanceled e3); simpl; eexists;
      (split; [rewrite <- ?app_assoc; reflexivity |]); simpl;
      repeat split; try reflexivity; intros; not_in_list. }
  destruct (Engine_IsEngineSyncing w3); simpl.
  { eexists. split; [rewrite <- ?app_assoc; reflexivity |]. simpl.
    intros; not_in_list. }
  destruct (InteropTimeSet cfg && negb (ManagedMode cfg)); simpl;
    eexists; (split; [rewrite <- ?app_assoc; reflexivity |]); simpl;
    intros; not_in_list.
Qed.

(** X3.  A safe-derived block makes the sync deriver emit something only
    when a listener is set and enabled and its [SafeHeadUpdated] fails.
    It then emits one [ResetEvent] wrapping the failure, and handling that
    event in turn starts the reset protocol outside managed mode: the
    events are [ResetEvent], [StepReqEvent], [ResetEngineRequestEvent]. *)
Theorem safe_head_failure_resets (Safe : L2BlockRef) (s : State W) :
  let r := SafeHeadNotifs_SafeHeadUpdated Safe (world s) in
  let listening := SafeHeadNotifsSet cfg && SafeHeadNotifs_Enabled (world s) in
  (listening = false -> OnEvent cfg (SafeDerivedEvent Safe) s = (true, s))
  /\ (listening = true -> fst r = None ->
      snd (OnEvent cfg (SafeDerivedEvent Safe) s) =
        mkState (snd r) (locals s) (calls s ++ [CallSafeHeadUpdated Safe]))
  /\ (forall e, listening = true -> fst r = Some e ->
      let reset := ResetEvent (ErrWrap "safe head notifications failed" e) in
      let s1 := snd (OnEvent cfg (SafeDerivedEvent Safe) s) in
      calls s1 = calls s ++ [CallSafeHeadUpdated Safe; Emit SyncEmitter reset]
      /\ (ManagedMode cfg = false ->
          emitted (calls (snd (OnEvent cfg reset s1))) =
            emitted (calls s) ++ [reset; StepReqEvent; ResetEngineRequestEvent])).
Proof.
  intros r listening. subst r listening.
  unfold OnEvent, onSafeDerivedBlock, onResetEvent. unfold_monad.
  destruct (SafeHeadNotifsSet cfg); simpl.
  2: { split; [reflexivity |]. split; [discriminate |]. intros; discriminate. }
  destruct (SafeHeadNotifs_Enabled (world s)); simpl.
  2: { split; [reflexivity |]. split; [discriminate |]. intros; discriminate. }
  split; [discriminate |].
  destruct (SafeHeadNotifs_SafeHeadUpdated Safe (world s)) as [[e0 |] w']; simpl.
  - split; [intros _ Hnone; discriminate |].
    intros e _ He. injection He as <-.
    split; [rewrite <- app_assoc; reflexivity |].
    intros Hman. rewrite Hman. simpl.
    rewrite <- !app_assoc. rewrite emitted_app_events. reflexivity.
  - split; [reflexivity |]. intros e _ He. discriminate.
Qed.

(** X4.  What the sync deriver never does.  Whatever the event, [OnEvent]
    leaves the variables of the loop alone, and an event it does not
    handle leaves no trace at all.  It emits a [ResetEvent] only for a
    [SafeDerivedEvent], a [CriticalErrorEvent] only for a [StepEvent], a
    [ConfirmPipelineResetEvent] only for an [EngineResetConfirmedEvent],
    and a [ResetEngineRequestEvent] only for a [ResetEvent] outside
    managed mode. *)
Theorem OnEvent_emits_only (ev : Event) (s : State W) :
  exists l : list Call,
    calls (snd (OnEvent cfg ev s)) = calls s ++ l
    /\ locals (snd (OnEvent cfg ev s)) = locals s
    /\ (fst (OnEvent cfg ev s) = false -> snd (OnEvent cfg ev s) = s)
    /\ (forall e, ResetEvent e ∈ emitted l ->
          exists Safe, ev = SafeDerivedEvent Safe)
    /\ (forall e, CriticalErrorEvent e ∈ emitted l -> ev = StepEvent)
    /\ (ConfirmPipelineResetEvent ∈ emitted l ->
          exists CrossSafe, ev = EngineResetConfirmedEvent CrossSafe)
    /\ (ResetEngineRequestEvent ∈ emitted l ->
          (exists e, ev = ResetEvent e) /\ ManagedMode cfg = false).
Proof.
  assert (Hquiet : exists l : list Call,
            calls s = calls s ++ l
            /\ locals s = locals s
            /\ (forall e, ResetEvent e ∈ emitted l ->
                  exists Safe, ev = SafeDerivedEvent Safe)
            /\ (forall e, CriticalErrorEvent e ∈ emitted l -> ev = StepEvent)
            /\ (ConfirmPipelineResetEvent ∈ emitted l ->
                  exists CrossSafe, ev = EngineResetConfirmedEvent CrossSafe)
            /\ (ResetEngineRequestEvent ∈ emitted l ->
                  (exists e, ev = ResetEvent e) /\ ManagedMode cfg = false)).
  { exists []. rewrite app_nil_r. split; [reflexivity |].
    split; [reflexivity |]. cbn.
    repeat split; intros; exfalso; eapply not_elem_of_nil; eassumption. }
  destruct ev;
    try (destruct Hquiet as (l & Hl & Hlo & Hrest); exists l;
         cbn; split; [exact Hl |]; split; [exact Hlo |];
         split; [reflexivity | exact Hrest]);
    clear Hquiet.
  - (* StepEvent *)
    unfold OnEvent, SyncStep, syncStepDrain. unfold_monad.
    destruct (drain (world s)) as [[e1 |] w1]; simpl.
    { destruct (isCanceled e1); simpl; step_done. }
    destruct (drain w1) as [[e2 |] w2]; simpl.
    { destruct (isCanceled e2); simpl; step_done. }
    destruct (drain w2) as [[e3 |] w3]; simpl.
    { destruct (isCanceled e3); simpl; step_done. }
    destruct (Engine_IsEngineSyncing w3); simpl; [step_done |].
    destruct (InteropTimeSet cfg && negb (ManagedMode cfg)); simpl; step_done.
  - (* ResetEvent *)
    unfold OnEvent, onResetEvent. unfold_monad.
    destruct (ManagedMode cfg); simpl; step_done.
  - (* EngineResetConfirmedEvent *)
    unfold OnEvent, onEngineConfirmedReset, notifySafeHeadReset.
    unfold_monad. unfold_monad.
    destruct (SafeHeadNotifsSet cfg); simpl; [| step_done].
    destruct (SafeHeadNotifs_SafeHeadReset CrossSafe (world s))
      as [[e1 |] w1]; simpl; [step_done |].
    destruct (SafeHeadNotifs_Enabled w1 && _); simpl; [| step_done].
    destruct (SafeHeadNotifs_SafeHeadUpdated CrossSafe w1) as [[e2 |] w2];
      simpl; step_done.
  - (* L1TemporaryErrorEvent *)
    unfold OnEvent. unfold_monad. step_done.
  - (* EngineTemporaryErrorEvent *)
    unfold OnEvent. unfold_monad. step_done.
  - (* DeriverIdleEvent *)
    unfold OnEvent. unfold_monad. step_done.
  - (* SafeDerivedEvent *)
    unfold OnEvent, onSafeDerivedBlock. unfold_monad.
    destruct (SafeHeadNotifsSet cfg); simpl; [| step_done].
    destruct (SafeHeadNotifs_Enabled (world s)); simpl; [| step_done].
    destruct (SafeHeadNotifs_SafeHeadUpdated Safe (world s)) as [[e |] w1];
      simpl; step_done.
  - (* ProvideL1Traversal *)
    unfold OnEvent. unfold_monad. step_done.
Qed.

End SyncDeriverFacts.

(** The listener of an enabled node fails on the safe head: the deriver
    emits the reset, and handling it starts the reset protocol. *)
Lemma safe_head_failure_resets_witness :
  emitted
    (calls
       (snd (OnEvent (config CLSync false 1)
               (ResetEvent (ErrWrap "safe head notifications failed"
                                    ErrDeadlineExceeded))
               (snd (OnEvent (config CLSync false 1)
                       (SafeDerivedEvent (refAt 8 11))
                       (start0 (scriptListener true None
                                  (Some ErrDeadlineExceeded))))))))
  = [ResetEvent (ErrWrap "safe head notifications failed" ErrDeadlineExceeded);
     StepReqEvent; ResetEngineRequestEvent].
Proof.
  destruct (safe_head_failure_resets (config CLSync false 1) (refAt 8 11)
              (start0 (scriptListener true None (Some ErrDeadlineExceeded))))
    as (_ & _ & Hfail).
  destruct (Hfail ErrDeadlineExceeded eq_refl eq_refl) as (_ & Hreset).
  exact (Hreset eq_refl).
Defined.

(** A [ResetEvent] outside managed mode: the reset of the engine is
    requested, and for this event only. *)
Lemma OnEvent_emits_only_witness :
  exists l : list Call,
    calls (snd (OnEvent (config CLSync false 1) (ResetEvent ErrNotFound)
                  (start0 node10))) = l
    /\ ResetEngineRequestEvent ∈ emitted l
    /\ ManagedMode (config CLSync false 1) = false.
Proof.
  destruct (OnEvent_emits_only (config CLSync false 1) (ResetEvent ErrNotFound)
              (start0 node10))
    as (l & Hl & _ & _ & _ & _ & _ & Hreq).
  exists l. split; [exact Hl |].
  assert (Hin : ResetEngineRequestEvent ∈ emitted l).
  { cbn in Hl. subst l. cbn.
    apply elem_of_cons. right. apply elem_of_cons. left. reflexivity. }
  split; [exact Hin |]. apply (Hreq Hin).
Defined.

(* ===================================================================== *)
(** ** More on the EL-sync helpers *)
(* ===================================================================== *)

Section ELSyncFacts.
Context {W : Type} `{Collaborators W}.
Variable cfg : Config.

(** X5.  [checkSyncUnsafeBlocks] and failed lookups.  A [NotFound] from
    the local chain is returned at once, the EL client is not asked; a
    [NotFound] from the EL client is returned after both lookups.  When a
    lookup brings no block and no [NotFound], the check returns nil
    whatever error came with it, and fetches nothing. *)
Theorem checkSyncUnsafeBlocks_lookup_failures (s : State W) :
  let r1 := L2_GetLatestBlock (world s) in
  let r2 := ELClient_GetLatestBlock (snd r1) in
  (isNotFoundErr (snd (fst r1)) = true ->
   checkSyncUnsafeBlocks cfg s =
     (snd (fst r1),
      mkState (snd r1) (locals s) (calls s ++ [CallL2GetLatestBlock])))
  /\ (isNotFoundErr (snd (fst r1)) = false ->
      isNotFoundErr (snd (fst r2)) = true ->
      checkSyncUnsafeBlocks cfg s =
        (snd (fst r2),
         mkState (snd r2) (locals s)
                 (calls s ++ [CallL2GetLatestBlock; CallELGetLatestBlock])))
  /\ (isNotFoundErr (snd (fst r1)) = false ->
      isNotFoundErr (snd (fst r2)) = false ->
      fst (fst r1) = None \/ fst (fst r2) = None ->
      checkSyncUnsafeBlocks cfg s =
        (None,
         mkState (snd r2) (locals s)
                 (calls s ++ [CallL2GetLatestBlock; CallELGetLatestBlock]))).
Proof.
  intros r1 r2. subst r1 r2.
  unfold checkSyncUnsafeBlocks. unfold_monad.
  destruct (L2_GetLatestBlock (world s)) as [[b1 e1] w1]. simpl.
  destruct (isNotFoundErr e1); simpl.
  { split; [reflexivity |]. split; discriminate. }
  split; [discriminate |].
  destruct (ELClient_GetLatestBlock w1) as [[b2 e2] w2]. simpl.
  destruct (isNotFoundErr e2); simpl.
  { split; [intros _ _; rewrite <- app_assoc; reflexivity |].
    intros _ Hf. discriminate. }
  split; [intros _ Hf; discriminate |].
  intros _ _ Hnil.
  destruct b1 as [b1 |], b2 as [b2 |]; simpl;
    try (rewrite <- app_assoc; reflexivity).
  destruct Hnil; discriminate.
Qed.

(** X6.  The error of [checkSyncUnsafeBlocks] after a fetch.  With a batch
    fetched, the check returns nil exactly when no payload of the batch
    fails, and otherwise the failure of the first payload that fails:
    the error of its block reference, with exactly the payloads before it
    inserted, or the error that its insertion returned after those
    insertions, it being the last one inserted.  Payloads after it are
    never inserted. *)
Theorem checkSyncUnsafeBlocks_stops_at_first_failure
    (s : State W) startBlock endBlock e1 e2 w1 w2 payloads w3 :
  L2_GetLatestBlock (world s) = (Some startBlock, e1, w1) ->
  isNotFoundErr e1 = false ->
  ELClient_GetLatestBlock w1 = (Some endBlock, e2, w2) ->
  isNotFoundErr e2 = false ->
  NumberU64 startBlock < sub64 (NumberU64 endBlock) 5 ->
  ELClient_PayloadsByRange (startHeightOf startBlock)
    (endHeightOf cfg startBlock endBlock) w2 = (payloads, None, w3) ->
  let fetched := calls s ++ [CallL2GetLatestBlock; CallELGetLatestBlock;
                             CallPayloadsByRange (startHeightOf startBlock)
                               (endHeightOf cfg startBlock endBlock)] in
  (fst (checkSyncUnsafeBlocks cfg s) = None <->
   forall k : nat, payloadFailure payloads w3 k = None)
  /\ (forall (k : nat) (e : Err),
        (forall j : nat, (j < k)%nat -> payloadFailure payloads w3 j = None) ->
        payloadFailure payloads w3 k = Some e ->
        fst (checkSyncUnsafeBlocks cfg s) = Some e)
  /\ (forall e : Err,
        fst (checkSyncUnsafeBlocks cfg s) = Some e ->
        exists (k : nat) (p : ExecutionPayloadEnvelope) (inserted : nat),
          payloads !! k = Some p
          /\ (forall j : nat, (j < k)%nat ->
                payloadFailure payloads w3 j = None)
          /\ snd (checkSyncUnsafeBlocks cfg s) =
               mkState (worldAfterInserts (take inserted payloads) w3)
                       (locals s)
                       (fetched ++ map insertCall (take inserted payloads))
          /\ ((snd (derive_PayloadToBlockRef (Payload p)) = Some e
               /\ inserted = k)
              \/ (snd (derive_PayloadToBlockRef (Payload p)) = None
                  /\ fst (Engine_InsertUnsafePayload
                            p (fst (derive_PayloadToBlockRef (Payload p)))
                            (worldAfterInserts (take k payloads) w3))
                     = Some e
                  /\ inserted = S k))).
Proof.
  intros Hl2 Hnf1 Hel Hnf2 Hbehind Hbatch fetched.
  rewrite (checkSyncUnsafeBlocks_run cfg s startBlock endBlock e1 e2 w1 w2
             Hl2 Hnf1 Hel Hnf2).
  destruct (Z.ltb_spec (NumberU64 startBlock) (sub64 (NumberU64 endBlock) 5));
    [| lia].
  rewrite Hbatch. cbn [fst snd]. fold fetched.
  destruct (insertPayloadsOrFail_exact payloads (mkState w3 (locals s) fetched))
    as (Hiff & Hok & Hfail).
  cbn [world locals calls] in *.
  split; [exact Hiff |]. split.
  - intros k e Hb Hk.
    destruct (fst (insertPayloadsOrFail payloads
                     (mkState w3 (locals s) fetched))) as [e' |] eqn:Hr.
    + destruct (Hfail e' eq_refl) as (k' & Hb' & Hk' & _).
      destruct (first_failure_unique payloads w3 k k' e e' Hb Hk Hb' Hk')
        as (_ & <-).
      reflexivity.
    + destruct Hiff as (Hall & _). rewrite (Hall eq_refl k) in Hk.
      discriminate.
  - intros e He. destruct (Hfail e He) as (k & Hb & Hk & Hstate).
    unfold payloadFailure in Hk. unfold insertedUpTo in Hstate.
    destruct (payloads !! k) as [p |] eqn:Hp; [| discriminate].
    exists k, p.
    destruct (snd (derive_PayloadToBlockRef (Payload p))) as [e' |] eqn:Hd.
    + injection Hk as <-. exists k. split; [exact Hp |].
      split; [exact Hb |]. split; [exact Hstate |]. left. auto.
    + exists (S k). split; [exact Hp |].
      split; [exact Hb |]. split; [exact Hstate |]. right. auto.
Qed.

End ELSyncFacts.

(** The local chain has no latest block yet: the check returns that error
    after one look-up. *)
Lemma checkSyncUnsafeBlocks_lookup_failures_witness :
  checkSyncUnsafeBlocks (config ELSync false 4)
    (start0 (scriptChains (None, Some ErrNotFound)
                          (Some (mkBlockInfo 20), None) [] None))
  = (Some ErrNotFound,
     mkState (scriptChains (None, Some ErrNotFound)
                           (Some (mkBlockInfo 20), None) [] None)
             (mkLocals false 0 L2BlockRef_zero) [CallL2GetLatestBlock]).
Proof.
  destruct (checkSyncUnsafeBlocks_lookup_failures (config ELSync false 4)
              (start0 (scriptChains (None, Some ErrNotFound)
                                    (Some (mkBlockInfo 20), None) [] None)))
    as (Hfirst & _).
  exact (Hfirst eq_refl).
Defined.

(** Local head 10, EL head 20, a batch of three payloads of which the
    second has no block hash: the first is inserted, the third is not, and
    the error is that of the second. *)
Lemma checkSyncUnsafeBlocks_stops_at_first_failure_witness :
  exists (k : nat) (p : ExecutionPayloadEnvelope) (inserted : nat),
    [envelopeAt 3 11; envelopeAt 0 12; envelopeAt 5 13] !! k = Some p
    /\ calls (snd (checkSyncUnsafeBlocks (config ELSync false 4)
                     (start0 (scriptChains
                                (Some (mkBlockInfo 10), None)
                                (Some (mkBlockInfo 20), None)
                                [envelopeAt 3 11; envelopeAt 0 12;
                                 envelopeAt 5 13] None)))) =
         ([] ++ [CallL2GetLatestBlock; CallELGetLatestBlock;
                 CallPayloadsByRange
                   (startHeightOf (mkBlockInfo 10))
                   (endHeightOf (config ELSync false 4) (mkBlockInfo 10)
                                (mkBlockInfo 20))])
         ++ map insertCall
              (take inserted [envelopeAt 3 11; envelopeAt 0 12;
                              envelopeAt 5 13])
    /\ snd (scriptedPayloadToBlockRef (Payload p))
       = Some (ErrOther "no block hash")
    /\ inserted = 1%nat.
Proof.
  pose (w := scriptChains (Some (mkBlockInfo 10), None)
                          (Some (mkBlockInfo 20), None)
                          [envelopeAt 3 11; envelopeAt 0 12; envelopeAt 5 13]
                          None).
  assert (Hbehind : NumberU64 (mkBlockInfo 10)
                    < sub64 (NumberU64 (mkBlockInfo 20)) 5)
    by (vm_compute; reflexivity).
  assert (Hl2 : L2_GetLatestBlock (world (start0 w))
                = (Some (mkBlockInfo 10), None, w)) by reflexivity.
  assert (Hel : ELClient_GetLatestBlock w = (Some (mkBlockInfo 20), None, w))
    by reflexivity.
  assert (Hbatch : ELClient_PayloadsByRange (startHeightOf (mkBlockInfo 10))
                     (endHeightOf (config ELSync false 4) (mkBlockInfo 10)
                                  (mkBlockInfo 20)) w
                   = ([envelopeAt 3 11; envelopeAt 0 12; envelopeAt 5 13],
                      None, w)) by reflexivity.
  destruct (checkSyncUnsafeBlocks_stops_at_first_failure
              (config ELSync false 4) (start0 w)
              (mkBlockInfo 10) (mkBlockInfo 20) None None w w
              [envelopeAt 3 11; envelopeAt 0 12; envelopeAt 5 13] w
              Hl2 eq_refl Hel eq_refl Hbehind Hbatch)
    as (_ & Hfirst & Hstop).
  assert (Herr : fst (checkSyncUnsafeBlocks (config ELSync false 4) (start0 w))
                 = Some (ErrOther "no block hash")).
  { apply (Hfirst 1%nat).
    - intros [| j] Hj; [reflexivity | lia].
    - reflexivity. }
  destruct (Hstop _ Herr) as (k & p & inserted & Hp & Hb & Hstate & Hcase).
  assert (Hk : k = 1%nat).
  { destruct k as [| [| k]]; [| reflexivity |].
    - injection Hp as <-.
      destruct Hcase as [(Hx & _) | (_ & Hx & _)]; discriminate Hx.
    - specialize (Hb 1%nat ltac:(lia)). discriminate Hb. }
  subst k. injection Hp as <-.
  destruct Hcase as [(Hd & ->) | (Hx & _ & _)]; [| discriminate Hx].
  exists 1%nat, (envelopeAt 0 12), 1%nat.
  split; [reflexivity |].
  split; [exact (f_equal calls Hstate) |].
  split; [exact Hd | reflexivity].
Defined.

Section StartupSyncFacts.
Context {W : Type} `{Collaborators W}.
Variable cfg : Config.

(** [clamp] with the start already past the end. *)
Lemma clamp_start_past_end_eq (start end_ size : Z) :
  end_ < start -> start - end_ < two64 - 1 -> 0 <= size <= two63 ->
  clamp start end_ size =
  if start - end_ + 1 <=? size then end_
  else if size =? 0 then start - 1 else start + size - 1.
Proof.
  intros Hlt Hdiff Hsize.
  assert (H63 : two63 < two64) by (rewrite two63_eq, two64_eq; lia).
  unfold clamp, add64, bigUint64.
  rewrite Z.abs_neq by lia.
  replace (- (end_ - start)) with (start - end_) by lia.
  rewrite (Z.mod_small (start - end_)) by lia.
  rewrite wrap64_small by lia.
  destruct (Z.leb_spec (start - end_ + 1) size); [reflexivity |].
  destruct (Z.eqb_spec size 0) as [-> | Hnz].
  - vm_compute (toInt64 (sub64 0 1)). lia.
  - unfold sub64. rewrite wrap64_small by lia.
    rewrite toInt64_small by lia. lia.
Qed.

(** X7.  [clamp] when [start] is already past [end], as the sync helpers
    call it with a local head at or above the EL head.  If the distance
    fits the size ([start - end + 1 <= size]) the result is [end], so that
    the range from [start] is empty; otherwise the result is
    [start + size - 1], at or beyond [start] and thus beyond [end]. *)
Theorem clamp_start_past_end (start end_ size : Z) :
  end_ < start -> start - end_ < two64 - 1 -> 1 <= size <= two63 ->
  (start - end_ + 1 <= size -> clamp start end_ size = end_)
  /\ (size < start - end_ + 1 ->
      clamp start end_ size = start + size - 1
      /\ end_ < start <= clamp start end_ size).
Proof.
  intros Hlt Hdiff Hsize.
  rewrite clamp_start_past_end_eq by lia.
  split; intros Hcmp.
  - destruct (Z.leb_spec (start - end_ + 1) size); [reflexivity | lia].
  - destruct (Z.leb_spec (start - end_ + 1) size); [lia |].
    destruct (Z.eqb_spec size 0); lia.
Qed.

(** The heights of a round, for heads below [2^63 - 1] and a batch size up
    to [2^63]: whether the round ends the start-up sync. *)
Lemma endHeight_le_startHeight (startBlock endBlock : BlockInfo) :
  0 <= NumberU64 startBlock < two63 - 1 ->
  0 <= NumberU64 endBlock < two63 ->
  0 <= maxBatchSize cfg <= two63 ->
  startHeightOf startBlock = NumberU64 startBlock + 1
  /\ (endHeightOf cfg startBlock endBlock <= startHeightOf startBlock
      <-> maxBatchSize cfg <= 1
          \/ NumberU64 endBlock = NumberU64 startBlock + 1
          \/ (NumberU64 endBlock <= NumberU64 startBlock
              /\ NumberU64 startBlock - NumberU64 endBlock + 2
                 <= maxBatchSize cfg))
  /\ (startHeightOf startBlock < endHeightOf cfg startBlock endBlock ->
      endHeightOf cfg startBlock endBlock =
        if NumberU64 startBlock <? NumberU64 endBlock
        then Z.min (NumberU64 startBlock + maxBatchSize cfg) (NumberU64 endBlock)
        else NumberU64 startBlock + maxBatchSize cfg).
Proof.
  intros Hl He Hsize.
  assert (H63 : two63 < two64) by (rewrite two63_eq, two64_eq; lia).
  assert (Hstart : startHeightOf startBlock = NumberU64 startBlock + 1).
  { unfold startHeightOf, addInt64.
    rewrite (toInt64_small (NumberU64 startBlock)) by lia.
    apply toInt64_small. lia. }
  split; [exact Hstart |].
  unfold endHeightOf. rewrite Hstart.
  rewrite (toInt64_small (NumberU64 endBlock)) by lia.
  rewrite wrap64_small by lia.
  destruct (Z.lt_ge_cases (NumberU64 startBlock) (NumberU64 endBlock)) as [Hb | Ha].
  - (* the local head is behind *)
    destruct (Z.eqb_spec (maxBatchSize cfg) 0) as [Hz | Hnz].
    + rewrite Hz. unfold clamp, add64.
      rewrite bigUint64_small by lia. rewrite wrap64_small by lia.
      destruct (Z.leb_spec (NumberU64 endBlock - (NumberU64 startBlock + 1) + 1) 0);
        [lia |].
      vm_compute (toInt64 (sub64 0 1)).
      split; [split; [lia | lia] | lia].
    + rewrite clamp_min_range by lia.
      destruct (Z.ltb_spec (NumberU64 startBlock) (NumberU64 endBlock)); [| lia].
      split; [split; lia |]. intros _. f_equal. lia.
  - (* the local head is at or past the EL head *)
    rewrite clamp_start_past_end_eq by lia.
    destruct (Z.ltb_spec (NumberU64 startBlock) (NumberU64 endBlock)); [lia |].
    destruct (Z.leb_spec (NumberU64 startBlock + 1 - NumberU64 endBlock + 1)
                         (maxBatchSize cfg)).
    + split; [split; lia | lia].
    + destruct (Z.eqb_spec (maxBatchSize cfg) 0).
      * split; [split; lia | lia].
      * split; [split; lia | lia].
Qed.

(** X8.  When a round of [syncUnsafeBlocks] ends the start-up sync.  With
    both latest blocks obtained (heads below [2^63 - 1], batch size at
    most [2^63]) the round returns, without fetching, exactly when the
    batch size is 0 or 1, or the EL head is one block ahead, or the local
    head is not behind and [localHead - elHead + 2 <= maxBatchSize].  In
    every other case it fetches from local head + 1: up to
    [min(localHead + maxBatchSize, elHead)] when the local head is behind,
    and up to [localHead + maxBatchSize] when it is not. *)
Theorem syncUnsafeBlocksTick_returns_iff
    (s : State W) startBlock endBlock e1 e2 w1 w2 :
  L2_GetLatestBlock (world s) = (Some startBlock, e1, w1) ->
  isNotFoundErr e1 = false ->
  ELClient_GetLatestBlock w1 = (Some endBlock, e2, w2) ->
  isNotFoundErr e2 = false ->
  0 <= NumberU64 startBlock < two63 - 1 ->
  0 <= NumberU64 endBlock < two63 ->
  0 <= maxBatchSize cfg <= two63 ->
  let L := NumberU64 startBlock in
  let E := NumberU64 endBlock in
  let done := maxBatchSize cfg <= 1 \/ E = L + 1
              \/ (E <= L /\ L - E + 2 <= maxBatchSize cfg) in
  (done <-> fst (syncUnsafeBlocksTick cfg s) = Exit)
  /\ (done ->
      snd (syncUnsafeBlocksTick cfg s) =
        mkState w2 (locals s)
                (calls s ++ [CallL2GetLatestBlock; CallELGetLatestBlock]))
  /\ (~ done ->
      exists inserts : list Call,
        calls (snd (syncUnsafeBlocksTick cfg s)) =
          calls s ++ [CallL2GetLatestBlock; CallELGetLatestBlock;
                      CallPayloadsByRange (L + 1)
                        (if L <? E then Z.min (L + maxBatchSize cfg) E
                         else L + maxBatchSize cfg)]
                  ++ inserts
        /\ Forall (fun c => isInsert c = true) inserts).
Proof.
  intros Hl2 Hnf1 Hel Hnf2 HL HE Hsize L E done.
  destruct (endHeight_le_startHeight startBlock endBlock HL HE Hsize)
    as (Hstart & Hexit & Hrange).
  fold L E in Hstart, Hexit, Hrange. fold done in Hexit.
  unfold syncUnsafeBlocksTick. unfold_monad.
  rewrite Hl2. simpl. rewrite Hnf1. simpl. rewrite Hel. simpl.
  rewrite Hnf2. simpl.
  destruct (Z.leb_spec (endHeightOf cfg startBlock endBlock)
                       (startHeightOf startBlock)) as [Hle | Hgt].
  - assert (Hdone : done) by (apply Hexit; exact Hle).
    split; [split; [reflexivity | intros _; exact Hdone] |].
    split; [intros _; rewrite <- app_assoc; reflexivity |].
    intros Hnot. contradiction.
  - assert (Hnot : ~ done) by (intros Hd; apply Hexit in Hd; lia).
    rewrite (Hrange Hgt), Hstart. cbn [world].
    destruct (ELClient_PayloadsByRange _ _ w2) as [[payloads e3] w3]. simpl.
    destruct e3 as [e |]; simpl.
    + split; [split; [intros Hd; contradiction | discriminate] |].
      split; [intros Hd; contradiction |].
      intros _. exists []. rewrite <- !app_assoc. simpl.
      split; [reflexivity | constructor].
    + match goal with
      | |- context [insertPayloadsLenient payloads ?st] =>
          destruct (insertPayloadsLenient_calls payloads st) as (l & Hl & Hins);
          destruct (insertPayloadsLenient payloads st) as [u st']
      end.
      simpl in *.
      split; [split; [intros Hd; contradiction | discriminate] |].
      split; [intros Hd; contradiction |].
      intros _. exists l. rewrite Hl. rewrite <- !app_assoc. simpl.
      split; [reflexivity | exact Hins].
Qed.

(** X9.  A lookup that brings no block and no [NotFound].  On the same
    answers of the two chains [checkSyncUnsafeBlocks] returns nil and
    [syncUnsafeBlocks] dereferences the missing block; both have made the
    two lookups and nothing else. *)
Theorem missing_block_nil_or_panic (s : State W) b1 e1 w1 b2 e2 w2 :
  L2_GetLatestBlock (world s) = (b1, e1, w1) ->
  isNotFoundErr e1 = false ->
  ELClient_GetLatestBlock w1 = (b2, e2, w2) ->
  isNotFoundErr e2 = false ->
  b1 = None \/ b2 = None ->
  let after := mkState w2 (locals s)
                 (calls s ++ [CallL2GetLatestBlock; CallELGetLatestBlock]) in
  checkSyncUnsafeBlocks cfg s = (None, after)
  /\ syncUnsafeBlocksTick cfg s = (Panic, after)
  /\ forall ticks : nat, syncUnsafeBlocks cfg (S ticks) s = (Panic, after).
Proof.
  intros Hl2 Hnf1 Hel Hnf2 Hnil after. subst after.
  assert (Htick : syncUnsafeBlocksTick cfg s =
                  (Panic, mkState w2 (locals s)
                            (calls s ++ [CallL2GetLatestBlock;
                                         CallELGetLatestBlock]))).
  { unfold syncUnsafeBlocksTick. unfold_monad.
    rewrite Hl2. simpl. rewrite Hnf1. simpl. rewrite Hel. simpl.
    rewrite Hnf2. simpl.
    destruct b1, b2; simpl; try (rewrite <- app_assoc; reflexivity).
    destruct Hnil; discriminate. }
  split; [| split; [exact Htick |]].
  - unfold checkSyncUnsafeBlocks. unfold_monad.
    rewrite Hl2. simpl. rewrite Hnf1. simpl. rewrite Hel. simpl.
    rewrite Hnf2. simpl.
    destruct b1, b2; simpl; try (rewrite <- app_assoc; reflexivity).
    destruct Hnil; discriminate.
  - intros ticks. simpl. unfold bind. rewrite Htick. reflexivity.
Qed.

Lemma syncUnsafeBlocksTick_sync_calls (s : State W) :
  exists l : list Call,
    calls (snd (syncUnsafeBlocksTick cfg s)) = calls s ++ l
    /\ Forall (fun c => isSyncCall c = true) l.
Proof.
  assert (Hins : forall l, Forall (fun c => isInsert c = true) l ->
                           Forall (fun c => isSyncCall c = true) l).
  { intros l Hl. eapply Forall_impl; [exact Hl |].
    intros [] Hc; try discriminate Hc. reflexivity. }
  unfold syncUnsafeBlocksTick. unfold_monad.
  destruct (L2_GetLatestBlock (world s)) as [[b1 e1] w1]. simpl.
  destruct (isNotFoundErr e1); simpl.
  { eexists. split; [reflexivity |]. repeat constructor. }
  destruct (ELClient_GetLatestBlock w1) as [[b2 e2] w2]. simpl.
  destruct (isNotFoundErr e2); simpl.
  { eexists. rewrite <- app_assoc. split; [reflexivity |]. repeat constructor. }
  destruct b1 as [b1 |], b2 as [b2 |]; simpl;
    try (eexists; rewrite <- app_assoc; split; [reflexivity |];
         repeat constructor).
  destruct (_ <=? _); simpl.
  { eexists. rewrite <- app_assoc. split; [reflexivity |]. repeat constructor. }
  destruct (ELClient_PayloadsByRange _ _ w2) as [[payloads e3] w3]. simpl.
  destruct e3 as [e |]; simpl.
  { eexists. rewrite <- !app_assoc. split; [reflexivity |]. repeat constructor. }
  match goal with
  | |- context [insertPayloadsLenient payloads ?st] =>
      destruct (insertPayloadsLenient_calls payloads st) as (l & Hl & Hl');
      destruct (insertPayloadsLenient payloads st) as [u st']
  end.
  simpl in *. rewrite Hl. eexists. rewrite <- !app_assoc.
  split; [reflexivity |]. simpl. repeat constructor. apply Hins, Hl'.
Qed.

(** However many rounds [syncUnsafeBlocks] runs, every call it makes is a
    lookup of a latest block, a range fetch or an insertion. *)
Lemma syncUnsafeBlocks_calls (ticks : nat) : forall s : State W,
  exists l : list Call,
    calls (snd (syncUnsafeBlocks cfg ticks s)) = calls s ++ l
    /\ Forall (fun c => isSyncCall c = true) l
    /\ emitted l = [].
Proof.
  assert (Hem : forall l, Forall (fun c => isSyncCall c = true) l ->
                          emitted l = []).
  { induction 1 as [| c l Hc _ IH]; [reflexivity |].
    destruct c; try discriminate Hc; exact IH. }
  induction ticks as [| ticks IH]; intros s; simpl.
  - exists []. unfold ret. simpl. rewrite app_nil_r.
    split; [reflexivity |]. split; [constructor | reflexivity].
  - unfold bind.
    destruct (syncUnsafeBlocksTick_sync_calls s) as (l1 & Hl1 & Hs1).
    destruct (syncUnsafeBlocksTick cfg s) as [ctl s1]. simpl in Hl1.
    destruct ctl.
    + destruct (IH s1) as (l2 & Hl2 & Hs2 & _).
      exists (l1 ++ l2). rewrite Hl2, Hl1, <- app_assoc.
      split; [reflexivity |].
      assert (Hall : Forall (fun c => isSyncCall c = true) (l1 ++ l2))
        by (apply Forall_app; auto).
      split; [exact Hall | apply Hem, Hall].
    + exists l1. simpl. split; [exact Hl1 |]. split; [exact Hs1 | apply Hem, Hs1].
    + exists l1. simpl. split; [exact Hl1 |]. split; [exact Hs1 | apply Hem, Hs1].
Qed.

End StartupSyncFacts.

(** Start 11 past end 10: within a size of 5 the result is the end; start
    20 is too far for that size, and the result lies beyond the start. *)
Lemma clamp_start_past_end_witness :
  clamp 11 10 5 = 10 /\ clamp 20 10 5 = 20 + 5 - 1.
Proof.
  split.
  - apply (clamp_start_past_end 11 10 5);
      rewrite ?two64_eq, ?two63_eq; lia.
  - apply (clamp_start_past_end 20 10 5);
      rewrite ?two64_eq, ?two63_eq; lia.
Defined.

(** Batches of 3.  With the EL head one block ahead of the local head the
    round ends the sync.  With the local head at 10 and the EL head at 8
    it does not: the round asks the EL client for blocks 11 to 13. *)
Lemma syncUnsafeBlocksTick_returns_iff_witness :
  fst (syncUnsafeBlocksTick (config ELSync false 3)
         (start0 (script (refAt 7 10) L2BlockRef_zero 10 11 []))) = Exit
  /\ exists inserts : list Call,
       calls (snd (syncUnsafeBlocksTick (config ELSync false 3)
                     (start0 (script (refAt 7 10) L2BlockRef_zero 10 8 []))))
       = [] ++ [CallL2GetLatestBlock; CallELGetLatestBlock;
                CallPayloadsByRange (10 + 1) (10 + 3)] ++ inserts
       /\ Forall (fun c => isInsert c = true) inserts.
Proof.
  assert (Hbatch : 0 <= maxBatchSize (config ELSync false 3) <= two63)
    by (simpl; rewrite two63_eq; lia).
  assert (Hlocal : 0 <= NumberU64 (mkBlockInfo 10) < two63 - 1)
    by (simpl; rewrite two63_eq; lia).
  split.
  - assert (Hel : 0 <= NumberU64 (mkBlockInfo 11) < two63)
      by (simpl; rewrite two63_eq; lia).
    pose (w := script (refAt 7 10) L2BlockRef_zero 10 11 []).
    assert (Hl2 : L2_GetLatestBlock (world (start0 w))
                  = (Some (mkBlockInfo 10), None, w)) by reflexivity.
    assert (Hec : ELClient_GetLatestBlock w
                  = (Some (mkBlockInfo 11), None, w)) by reflexivity.
    destruct (syncUnsafeBlocksTick_returns_iff (config ELSync false 3)
                (start0 w) (mkBlockInfo 10) (mkBlockInfo 11) None None w w
                Hl2 eq_refl Hec eq_refl Hlocal Hel Hbatch)
      as (Hexit & _).
    apply Hexit. right. left. reflexivity.
  - assert (Hel : 0 <= NumberU64 (mkBlockInfo 8) < two63)
      by (simpl; rewrite two63_eq; lia).
    pose (w := script (refAt 7 10) L2BlockRef_zero 10 8 []).
    assert (Hl2 : L2_GetLatestBlock (world (start0 w))
                  = (Some (mkBlockInfo 10), None, w)) by reflexivity.
    assert (Hec : ELClient_GetLatestBlock w
                  = (Some (mkBlockInfo 8), None, w)) by reflexivity.
    destruct (syncUnsafeBlocksTick_returns_iff (config ELSync false 3)
                (start0 w) (mkBlockInfo 10) (mkBlockInfo 8) None None w w
                Hl2 eq_refl Hec eq_refl Hlocal Hel Hbatch)
      as (_ & _ & Hfetch).
    apply Hfetch. simpl. lia.
Defined.

(** The look-up of the local chain fails with a cancellation and brings no
    block: the check of the loop returns nil, the start-up sync panics. *)
Lemma missing_block_nil_or_panic_witness :
  checkSyncUnsafeBlocks (config ELSync false 4)
    (start0 (scriptChains (None, Some ErrCanceled)
                          (Some (mkBlockInfo 20), None) [] None))
  = (None,
     mkState (scriptChains (None, Some ErrCanceled)
                           (Some (mkBlockInfo 20), None) [] None)
             (mkLocals false 0 L2BlockRef_zero)
             ([] ++ [CallL2GetLatestBlock; CallELGetLatestBlock]))
  /\ fst (syncUnsafeBlocksTick (config ELSync false 4)
            (start0 (scriptChains (None, Some ErrCanceled)
                                  (Some (mkBlockInfo 20), None) [] None)))
     = Panic.
Proof.
  pose (w := scriptChains (None, Some ErrCanceled)
                          (Some (mkBlockInfo 20), None) [] None).
  assert (Hl2 : L2_GetLatestBlock (world (start0 w))
                = (None, Some ErrCanceled, w)) by reflexivity.
  assert (Hec : ELClient_GetLatestBlock w = (Some (mkBlockInfo 20), None, w))
    by reflexivity.
  destruct (missing_block_nil_or_panic (config ELSync false 4) (start0 w)
              None (Some ErrCanceled) w (Some (mkBlockInfo 20)) None w
              Hl2 eq_refl Hec eq_refl (or_introl eq_refl))
    as (Hcheck & Htick & _).
  split; [exact Hcheck | exact (f_equal fst Htick)].
Defined.

(* ===================================================================== *)
(** ** More on the event loop *)
(* ===================================================================== *)

Lemma closes_app (l1 l2 : list Call) :
  closes (l1 ++ l2) = closes l1 ++ closes l2.
Proof. unfold closes. apply omap_app. Qed.

Section EventLoopFacts.
Context {W : Type} `{Collaborators W}.
Variable cfg : Config.

(** The calls of [planSequencerAction] put nothing on the bus and close no
    channel. *)
Lemma planSequencerAction_silent (d : State W) :
  exists l : list Call,
    calls (snd (planSequencerAction d)) = calls d ++ l
    /\ emitted l = [] /\ closes l = [].
Proof.
  unfold planSequencerAction. unfold_monad.
  destruct (sequencer_NextAction (world d)) as [nextAction ok].
  destruct ok; simpl; [| exists []; rewrite app_nil_r; auto].
  destruct (nextAction =? _); simpl; [exists []; rewrite app_nil_r; auto |].
  destruct (sequencerTimer_pending (world d)); simpl.
  - rewrite <- app_assoc. eexists. repeat split; reflexivity.
  - eexists. repeat split; reflexivity.
Qed.

(** [beforeSelect], cut at its drain. *)
Lemma beforeSelect_eq (s : State W) :
  beforeSelect cfg s =
  if bool_decide (is_Some (driverCtx_Err (world s))) then (Exit, s)
  else let '(stop, d1) := drainBeforeSelect cfg s in
       if stop : bool then (Exit, d1) else afterDrain cfg d1.
Proof.
  unfold beforeSelect, afterDrain. unfold bind at 1. unfold ask at 1.
  destruct (bool_decide _); [reflexivity |].
  unfold bind at 1. destruct (drainBeforeSelect cfg s) as [[] d1]; reflexivity.
Qed.

(** The part of the loop body after its drain always goes on to the
    select, and what it emits is the finalize-and-step pair of CL-sync
    mode. *)
Lemma afterDrain_next (d1 : State W) :
  fst (afterDrain cfg d1) = Next
  /\ exists l : list Call,
       calls (snd (afterDrain cfg d1)) = calls d1 ++ l
       /\ emitted l =
          (if decide (SyncMode cfg = CLSync)
           then [FinalizeL1Event; StepReqEvent] else [])
       /\ closes l = [].
Proof.
  unfold afterDrain. unfold bind.
  destruct (planSequencerAction_silent d1) as (l1 & Hl1 & Hem1 & Hcl1).
  destruct (planSequencerAction d1) as [u d2]. simpl in Hl1.
  unfold_monad. unfold_monad.
  destruct (negb _ || negb _); destruct (decide (SyncMode cfg = CLSync));
    simpl; (split; [reflexivity |]); rewrite Hl1;
    eexists; (split; [rewrite <- ?app_assoc; reflexivity |]);
    rewrite ?emitted_app_events, ?closes_app, Hem1, Hcl1; split; reflexivity.
Qed.

(** The drain at the top of the body: what it returns and leaves. *)
Lemma drainBeforeSelect_run (s : State W) :
  drainBeforeSelect cfg s =
  if drainSet cfg then
    let r := drain (world s) in
    (match fst r with
     | Some _ => bool_decide (is_Some (driverCtx_Err (snd r)))
     | None => false
     end,
     mkState (snd r) (locals s) (calls s ++ [CallDrain]))
  else (false, s).
Proof.
  unfold drainBeforeSelect. destruct (drainSet cfg); [| reflexivity].
  unfold_monad. destruct (drain (world s)) as [[e |] w1]; reflexivity.
Qed.

(** X10.  When an iteration of the loop stops before its select.  It does
    so exactly when the driver context is done at the top of the
    iteration, or the drain fails and the context is done after it; it
    never fails otherwise.  Once the context is done no signal is handled
    any more: the iteration returns with the state untouched, whatever
    woke the loop.  A failed drain with a live context does not stop the
    loop. *)
Theorem beforeSelect_exit_iff (s : State W) :
  let cancelled := is_Some (driverCtx_Err (world s)) in
  let r := drain (world s) in
  let drainEnds := drainSet cfg = true /\ is_Some (fst r)
                   /\ is_Some (driverCtx_Err (snd r)) in
  (fst (beforeSelect cfg s) = Exit <-> cancelled \/ drainEnds)
  /\ fst (beforeSelect cfg s) <> Panic
  /\ (cancelled -> forall sig, eventLoopIter cfg sig s = (Exit, s))
  /\ (~ cancelled -> drainEnds ->
      beforeSelect cfg s =
        (Exit, mkState (snd r) (locals s) (calls s ++ [CallDrain]))).
Proof.
  intros cancelled r drainEnds. subst cancelled r drainEnds.
  unfold eventLoopIter. unfold bind.
  rewrite beforeSelect_eq, drainBeforeSelect_run.
  destruct (bool_decide (is_Some (driverCtx_Err (world s)))) eqn:Hc;
    [apply bool_decide_eq_true in Hc | apply bool_decide_eq_false in Hc].
  { cbn. split; [split; auto |]. split; [discriminate |].
    split; [reflexivity | intros Hn; contradiction]. }
  assert (Hnext : forall d, fst (afterDrain cfg d) = Exit <-> False).
  { intros d. destruct (afterDrain_next d) as (Hn & _). rewrite Hn.
    split; [discriminate | contradiction]. }
  assert (Hnp : forall d, fst (afterDrain cfg d) <> Panic).
  { intros d. destruct (afterDrain_next d) as (Hn & _). rewrite Hn.
    discriminate. }
  destruct (drainSet cfg) eqn:Hset; cbn zeta.
  - destruct (drain (world s)) as [[e |] w1]; cbn [fst snd].
    + destruct (bool_decide (is_Some (driverCtx_Err w1))) eqn:Hc1;
        [apply bool_decide_eq_true in Hc1 | apply bool_decide_eq_false in Hc1].
      * cbn [fst]. split; [split; eauto 10 |]. split; [discriminate |].
        split; [intros Hn; contradiction | reflexivity].
      * rewrite Hnext.
        split; [split; [contradiction |
                        intros [Hx | (_ & _ & Hx)]; contradiction] |].
        split; [apply Hnp |].
        split; [intros Hx; contradiction |].
        intros _ (_ & _ & Hx). contradiction.
    + rewrite Hnext.
      split; [split; [contradiction |
                      intros [Hx | (_ & [? Hx] & _)];
                      [contradiction | discriminate]] |].
      split; [apply Hnp |].
      split; [intros Hx; contradiction |].
      intros _ (_ & [? Hx] & _). discriminate.
  - rewrite Hnext.
    split; [split; [contradiction |
                    intros [Hx | (Hx & _)]; [contradiction | discriminate]] |].
    split; [apply Hnp |].
    split; [intros Hx; contradiction |].
    intros _ (Hx & _). discriminate.
Qed.

(** X11.  What the loop puts on the bus before its select.  In CL-sync
    mode every iteration that reaches the select has emitted
    [FinalizeL1Event] and then [StepReqEvent], whether or not anything
    changed; in the other modes it has emitted nothing.  An iteration that
    stops before the select emits nothing. *)
Theorem beforeSelect_emitted (s : State W) :
  exists l : list Call,
    calls (snd (beforeSelect cfg s)) = calls s ++ l
    /\ (fst (beforeSelect cfg s) = Next ->
        emitted l = if decide (SyncMode cfg = CLSync)
                    then [FinalizeL1Event; StepReqEvent] else [])
    /\ (fst (beforeSelect cfg s) = Exit -> emitted l = []).
Proof.
  rewrite beforeSelect_eq, drainBeforeSelect_run.
  destruct (bool_decide (is_Some (driverCtx_Err (world s)))).
  { exists []. cbn. rewrite app_nil_r. split; [reflexivity |].
    split; [discriminate | reflexivity]. }
  assert (Hgo : forall d l0, calls d = calls s ++ l0 -> emitted l0 = [] ->
            exists l, calls (snd (afterDrain cfg d)) = calls s ++ l
              /\ (fst (afterDrain cfg d) = Next ->
                  emitted l = if decide (SyncMode cfg = CLSync)
                              then [FinalizeL1Event; StepReqEvent] else [])
              /\ (fst (afterDrain cfg d) = Exit -> emitted l = [])).
  { intros d l0 Hd Hl0. destruct (afterDrain_next d) as (Hn & l & Hl & Hem & _).
    exists (l0 ++ l). rewrite Hl, Hd, <- app_assoc. split; [reflexivity |].
    rewrite emitted_app_events, Hl0, Hn. simpl.
    split; [intros _; exact Hem | discriminate]. }
  destruct (drainSet cfg); cbn zeta.
  - destruct (drain (world s)) as [[e |] w1]; cbn [fst snd].
    + destruct (bool_decide (is_Some (driverCtx_Err w1))).
      * exists [CallDrain]. cbn. split; [reflexivity |].
        split; [discriminate | reflexivity].
      * apply (Hgo _ [CallDrain]); reflexivity.
    + apply (Hgo _ [CallDrain]); reflexivity.
  - apply (Hgo _ []); [cbn; rewrite app_nil_r |]; reflexivity.
Qed.

(** X12.  Planning the sequencer action twice in a row is planning it
    once: the second run changes nothing and, in particular, does not
    reset the timer again.  The timer is reset only when the sequencer has
    a next action and it differs from the one planned before, and then to
    that action. *)
Theorem planSequencerAction_idempotent (s : State W) :
  snd (planSequencerAction (snd (planSequencerAction s)))
  = snd (planSequencerAction s)
  /\ exists l : list Call,
       calls (snd (planSequencerAction s)) = calls s ++ l
       /\ forall t : Z,
            In (SequencerTimerReset t) l <->
            snd (sequencer_NextAction (world s)) = true
            /\ t = fst (sequencer_NextAction (world s))
            /\ t <> prevTime (locals s).
Proof.
  unfold planSequencerAction. unfold_monad.
  destruct (sequencer_NextAction (world s)) as [nextAction ok] eqn:Hna.
  destruct ok; simpl.
  - destruct (Z.eqb_spec nextAction (prevTime (locals s))) as [Heq | Hne]; simpl.
    + rewrite Hna. simpl. rewrite Heq, Z.eqb_refl. split; [reflexivity |].
      exists []. rewrite app_nil_r. split; [reflexivity |].
      intros t. split; [intros [] | intros (_ & -> & Hx); contradiction].
    + destruct (sequencerTimer_pending (world s)); simpl; rewrite Hna; simpl;
        rewrite Z.eqb_refl; (split; [reflexivity |]);
        eexists; (split; [rewrite <- ?app_assoc; reflexivity |]);
        intros t; simpl; split.
      * intros [Hx | [Hx | []]]; [discriminate |]. injection Hx as <-. auto.
      * intros (_ & -> & _). auto.
      * intros [Hx | []]. injection Hx as <-. auto.
      * intros (_ & -> & _). auto.
  - rewrite Hna. simpl. split; [reflexivity |].
    exists []. rewrite app_nil_r. split; [reflexivity |].
    intros t. split; [intros [] | intros (Hx & _); discriminate].
Qed.

End EventLoopFacts.

(** With the driver context cancelled an iteration returns at once,
    whatever signal is waiting. *)
Lemma beforeSelect_exit_iff_witness :
  fst (beforeSelect (config CLSync false 4) (start0 nodeCancelled)) = Exit
  /\ eventLoopIter (config CLSync false 4) SigStep (start0 nodeCancelled)
     = (Exit, start0 nodeCancelled).
Proof.
  destruct (beforeSelect_exit_iff (config CLSync false 4)
              (start0 nodeCancelled))
    as (Hexit & _ & Hctx & _).
  assert (Hdone : is_Some (driverCtx_Err (world (start0 nodeCancelled))))
    by (eexists; reflexivity).
  split.
  - apply Hexit. left. exact Hdone.
  - apply Hctx. exact Hdone.
Defined.

(** An iteration of a CL-sync node that reaches the select. *)
Lemma beforeSelect_emitted_witness :
  exists l : list Call,
    calls (snd (beforeSelect (config CLSync false 4) (start0 node10)))
    = [] ++ l
    /\ emitted l = [FinalizeL1Event; StepReqEvent].
Proof.
  destruct (beforeSelect_emitted (config CLSync false 4) (start0 node10))
    as (l & Hl & Hnext & _).
  exists l. split; [exact Hl |]. exact (Hnext eq_refl).
Defined.

Section ResetListenerFacts.
Context {W : Type} `{Collaborators W}.
Variable cfg : Config.

(** X13.  The listener calls of a confirmed engine reset.  Without a
    listener nothing is called.  With one, [SafeHeadReset] is called first,
    on the cross-safe head; [SafeHeadUpdated] is called after it, on the
    same head, exactly when the reset call succeeded, the listener is
    enabled and the cross-safe head is the L2 genesis block; nothing else
    is called. *)
Theorem reset_listener_calls (CrossSafe : L2BlockRef) (s : State W) :
  let r1 := SafeHeadNotifs_SafeHeadReset CrossSafe (world s) in
  let atGenesis := L2BlockRef_ID CrossSafe = GenesisL2 cfg in
  let listenerCalls :=
    List.filter (fun c => match c with Emit _ _ => false | _ => true end) in
  exists l : list Call,
    calls (snd (OnEvent cfg (EngineResetConfirmedEvent CrossSafe) s))
      = calls s ++ l
    /\ (SafeHeadNotifsSet cfg = false -> listenerCalls l = [])
    /\ (SafeHeadNotifsSet cfg = true ->
        (fst r1 = None /\ SafeHeadNotifs_Enabled (snd r1) = true /\ atGenesis ->
         listenerCalls l = [CallSafeHeadReset CrossSafe;
                            CallSafeHeadUpdated CrossSafe])
        /\ (~ (fst r1 = None /\ SafeHeadNotifs_Enabled (snd r1) = true
               /\ atGenesis) ->
            listenerCalls l = [CallSafeHeadReset CrossSafe])).
Proof.
  intros r1 atGenesis listenerCalls. subst r1 atGenesis listenerCalls.
  unfold OnEvent, onEngineConfirmedReset, notifySafeHeadReset.
  unfold_monad. unfold_monad.
  destruct (SafeHeadNotifsSet cfg); simpl.
  2: { eexists. split; [reflexivity |]. split; [reflexivity | discriminate]. }
  destruct (SafeHeadNotifs_SafeHeadReset CrossSafe (world s)) as [[e1 |] w1];
    simpl.
  { eexists. split; [reflexivity |]. split; [discriminate |]. intros _.
    split; [intros (Hx & _); discriminate | reflexivity]. }
  destruct (SafeHeadNotifs_Enabled w1); simpl.
  2: { eexists. rewrite <- app_assoc. split; [reflexivity |].
       split; [discriminate |]. intros _.
       split; [intros (_ & Hx & _); discriminate | reflexivity]. }
  destruct (bool_decide (L2BlockRef_ID CrossSafe = GenesisL2 cfg)) eqn:Hg;
    [apply bool_decide_eq_true in Hg | apply bool_decide_eq_false in Hg]; simpl.
  - destruct (SafeHeadNotifs_SafeHeadUpdated CrossSafe w1) as [[e2 |] w2]; simpl;
      eexists; rewrite <- ?app_assoc; (split; [reflexivity |]);
      (split; [discriminate |]); intros _;
      (split; [reflexivity | intros Hn; exfalso; apply Hn; auto]).
  - eexists. rewrite <- app_assoc. split; [reflexivity |].
    split; [discriminate |]. intros _.
    split; [intros (_ & _ & Hx); contradiction | reflexivity].
Qed.

End ResetListenerFacts.

(** A reset confirmed at the genesis block, the listener enabled: both
    listener calls are made, on that block. *)
Lemma reset_listener_calls_witness :
  exists l : list Call,
    calls (snd (OnEvent (config CLSync false 1)
                  (EngineResetConfirmedEvent (refAt 1 0))
                  (start0 (scriptListener true None None)))) = [] ++ l
    /\ List.filter (fun c => match c with Emit _ _ => false | _ => true end) l
       = [CallSafeHeadReset (refAt 1 0); CallSafeHeadUpdated (refAt 1 0)].
Proof.
  destruct (reset_listener_calls (config CLSync false 1) (refAt 1 0)
              (start0 (scriptListener true None None)))
    as (l & Hl & _ & Hset).
  exists l. split; [exact Hl |].
  destruct (Hset eq_refl) as (Hboth & _).
  apply Hboth. repeat split; reflexivity.
Defined.

(* ===================================================================== *)
(** ** More on the loop and its callers *)
(* ===================================================================== *)

Section ChannelFacts.
Context {W : Type} `{Collaborators W}.
Variable cfg : Config.

Lemma closes_inserts (ps : list ExecutionPayloadEnvelope) :
  closes (map insertCall ps) = [].
Proof. induction ps as [| p ps IH]; [reflexivity | exact IH]. Qed.

Lemma checkForGapInUnsafeQueue_closes (d : State W) :
  exists l : list Call,
    calls (snd (checkForGapInUnsafeQueue d)) = calls d ++ l /\ closes l = [].
Proof.
  unfold checkForGapInUnsafeQueue. unfold_monad.
  destruct (decide _).
  - destruct (altSync_RequestL2Range _ _ _). simpl. eexists. split; reflexivity.
  - destruct (_ <? _).
    + destruct (altSync_RequestL2Range _ _ _). simpl.
      eexists. split; reflexivity.
    + exists []. rewrite app_nil_r. auto.
Qed.

Lemma checkSyncUnsafeBlocks_closes (d : State W) :
  exists l : list Call,
    calls (snd (checkSyncUnsafeBlocks cfg d)) = calls d ++ l /\ closes l = [].
Proof.
  unfold checkSyncUnsafeBlocks. unfold_monad.
  destruct (L2_GetLatestBlock (world d)) as [[b1 e1] w1]. simpl.
  destruct (isNotFoundErr e1); simpl; [eexists; split; reflexivity |].
  destruct (ELClient_GetLatestBlock w1) as [[b2 e2] w2]. simpl.
  destruct (isNotFoundErr e2); simpl;
    [eexists; rewrite <- app_assoc; split; reflexivity |].
  destruct b1 as [startBlock |], b2 as [endBlock |]; simpl;
    try (eexists; rewrite <- app_assoc; split; reflexivity).
  destruct (_ <? _); simpl;
    [| eexists; rewrite <- app_assoc; split; reflexivity].
  destruct (ELClient_PayloadsByRange _ _ w2) as [[payloads e3] w3]. simpl.
  destruct e3 as [e |]; simpl;
    [eexists; rewrite <- !app_assoc; split; reflexivity |].
  match goal with
  | |- context [insertPayloadsOrFail payloads ?st] =>
      destruct (insertPayloadsOrFail_calls payloads st) as (k & Hk & _)
  end.
  rewrite Hk. simpl. eexists. rewrite <- !app_assoc. split; [reflexivity |].
  simpl. apply closes_inserts.
Qed.

(** Only the force-reset case of the select closes a channel: the one of
    the request. *)
Lemma selectCase_closes (sig : Signal) (d : State W) :
  exists l : list Call,
    calls (snd (selectCase cfg sig d)) = calls d ++ l
    /\ closes l = match sig with SigForceReset c => [c] | _ => [] end.
Proof.
  destruct sig as [| | envelope | | | respCh | respCh |]; simpl.
  - unfold_monad. eexists. split; reflexivity.
  - destruct (decide (SyncMode cfg = CLSync)); unfold bind, ret.
    + destruct (checkForGapInUnsafeQueue_closes d) as (l & Hl & Hc).
      destruct (checkForGapInUnsafeQueue d). simpl in *. eauto.
    + destruct (checkSyncUnsafeBlocks_closes d) as (l & Hl & Hc).
      destruct (checkSyncUnsafeBlocks cfg d). simpl in *. eauto.
  - unfold_monad.
    destruct (bool_decide (SyncMode cfg = CLSync) || _); simpl.
    + rewrite <- !app_assoc. eexists. split; reflexivity.
    + destruct (decide (SyncMode cfg = ELSync));
        [| exists []; rewrite app_nil_r; auto].
      destruct (derive_PayloadToBlockRef (Payload envelope)) as [ref err].
      destruct err; simpl; [exists []; rewrite app_nil_r; auto |].
      destruct (Number ref <=? _); simpl; [exists []; rewrite app_nil_r; auto |].
      destruct (Engine_InsertUnsafePayload envelope ref (world d)). simpl.
      eexists. split; reflexivity.
  - unfold_monad. eexists. split; reflexivity.
  - unfold_monad. eexists. split; reflexivity.
  - unfold_monad. eexists. split; reflexivity.
  - unfold_monad. rewrite <- !app_assoc. eexists. split; reflexivity.
  - unfold_monad. exists []. rewrite app_nil_r. auto.
Qed.

Lemma beforeSelect_closes (d : State W) :
  closes (calls (snd (beforeSelect cfg d))) = closes (calls d).
Proof.
  rewrite beforeSelect_eq, drainBeforeSelect_run.
  destruct (bool_decide _); [reflexivity |].
  assert (Hgo : forall d1, closes (calls (snd (afterDrain cfg d1)))
                           = closes (calls d1)).
  { intros d1. destruct (afterDrain_next cfg d1) as (_ & l & Hl & _ & Hc).
    rewrite Hl, closes_app, Hc, app_nil_r. reflexivity. }
  destruct (drainSet cfg); cbn zeta.
  - destruct (drain (world d)) as [[e |] w1]; cbn [fst snd].
    + destruct (bool_decide _).
      * cbn. rewrite closes_app. cbn. rewrite app_nil_r. reflexivity.
      * rewrite Hgo. cbn. rewrite closes_app. cbn. rewrite app_nil_r.
        reflexivity.
    + rewrite Hgo. cbn. rewrite closes_app. cbn. rewrite app_nil_r.
      reflexivity.
  - apply Hgo.
Qed.

(** What a step does to the buffer of [forceReset], to the closed channels
    and to the closes of the trace: nothing, or a caller at its outer
    select appends its request, or the loop takes the first request and
    closes its channel. *)
Lemma step_channels (s s' : Sys) (l : Label) :
  step cfg s l s' ->
  (closes (calls (drv s')) = closes (calls (drv s))
   /\ closed s' = closed s
   /\ (forceReset s' = forceReset s
       \/ exists (i : nat) (c : Caller),
            callers s !! i = Some c /\ pc c = ResetOuterSelect
                      /\ forceReset s' = forceReset s ++ [i]))
  \/ (exists c rest,
         forceReset s = c :: rest /\ forceReset s' = rest
         /\ closes (calls (drv s')) = closes (calls (drv s)) ++ [c]
         /\ closed s' = {[c]} ∪ closed s).
Proof.
  intros Hstep.
  inversion Hstep; subst; unfold setCaller, setLoop;
    cbn [drv forceReset closed calls];
    try (left; split; [reflexivity |]; split; [reflexivity |]; left;
         reflexivity).
  - left. split; [reflexivity |]. split; [reflexivity |]. right. eauto.
  - left. split; [| auto].
    destruct (selectCase_closes (SigStateReq i) (drv s)) as (l' & Hl & Hc).
    rewrite Hl, closes_app, Hc, app_nil_r. reflexivity.
  - left. split; [| auto].
    match goal with
    | Hb : beforeSelect cfg (drv s) = (_, ?d) |- _ =>
        pose proof (beforeSelect_closes (drv s)) as Hc; rewrite Hb in Hc;
        exact Hc
    end.
  - left. split; [| auto].
    destruct (selectCase_closes sig (drv s)) as (l' & Hl & Hc).
    rewrite Hl, closes_app, Hc.
    destruct sig; try discriminate; rewrite app_nil_r; reflexivity.
  - right. exists respCh, rest. split; [assumption |]. split; [reflexivity |].
    split; [| reflexivity].
    rewrite selectCase_forceReset, closes_app. reflexivity.
Qed.

(** The channels closed in the trace are the closed channels. *)
Lemma closes_closed (s : Sys) :
  reachable cfg s ->
  forall i : ChanId, i ∈ closes (calls (drv s)) <-> i ∈ closed s.
Proof.
  induction 1 as [w | s l s' Hreach IH Hstep]; intros i.
  - cbn. split; [intros Hin; apply elem_of_nil in Hin; contradiction |
                 set_solver].
  - destruct (step_channels s s' l Hstep)
      as [(Hc & Hcl & _) | (c & rest & _ & _ & Hc & Hcl)].
    + rewrite Hc, Hcl. apply IH.
    + rewrite Hc, Hcl, elem_of_app, list_elem_of_singleton, elem_of_union,
        elem_of_singleton, IH. tauto.
Qed.

(** A request in the buffer, or served, was sent by its caller. *)
Lemma pending_was_sent (s : Sys) :
  reachable cfg s ->
  forall i : nat, i ∈ forceReset s \/ i ∈ closed s ->
    exists c, callers s !! i = Some c /\ OpSendForceReset ∈ ops c.
Proof.
  induction 1 as [w | s l s' Hreach IH Hstep]; intros j Hj.
  - cbn in Hj. destruct Hj as [Hj | Hj]; [apply elem_of_nil in Hj | set_solver].
    contradiction.
  - assert (Hgrow : forall i c o,
              callers s !! i = Some c ->
              (j ∈ forceReset s \/ j ∈ closed s) ->
              forall p e,
              exists c', <[i := mkCaller (call c) p e (ops c ++ o)]> (callers s)
                           !! j = Some c'
                         /\ OpSendForceReset ∈ ops c').
    { intros i c o Hc Hold p e. destruct (IH j Hold) as (cj & Hcj & Hs).
      destruct (decide (i = j)) as [-> | Hne].
      - rewrite Hc in Hcj. injection Hcj as <-.
        eexists. split; [apply lookup_insert_eq |]. cbn.
        apply elem_of_app. left. exact Hs.
      - exists cj. split; [rewrite lookup_insert_ne by exact Hne; exact Hcj |].
        exact Hs. }
    inversion Hstep; subst; unfold setCaller, setLoop, advance in *;
      cbn [callers forceReset closed] in *;
      try (apply IH; exact Hj);
      try (apply (Hgrow _ _ _ ltac:(eassumption) Hj)).
    + destruct (IH j Hj) as (cj & Hcj & Hs). exists cj.
      split; [| exact Hs]. rewrite lookup_insert_ne; [exact Hcj |].
      intros ->. congruence.
    + destruct (IH j Hj) as (cj & Hcj & Hs).
      destruct (decide (i = j)) as [-> | Hne].
      * match goal with
        | Hc : callers s !! j = Some ?c |- _ =>
            rewrite Hc in Hcj; injection Hcj as <-
        end.
        eexists. split; [apply lookup_insert_eq | exact Hs].
      * exists cj. split; [rewrite lookup_insert_ne by exact Hne; exact Hcj |].
        exact Hs.
    + destruct (decide (i = j)) as [-> | Hne].
      * eexists. split; [apply lookup_insert_eq |]. cbn.
        apply elem_of_app. right. apply list_elem_of_singleton. reflexivity.
      * assert (Hold : j ∈ forceReset s \/ j ∈ closed s).
        { destruct Hj as [Hj | Hj]; [| right; exact Hj].
          apply elem_of_app in Hj as [Hj | Hj]; [left; exact Hj |].
          apply list_elem_of_singleton in Hj. congruence. }
        destruct (IH j Hold) as (cj & Hcj & Hs). exists cj.
        split; [rewrite lookup_insert_ne by exact Hne; exact Hcj | exact Hs].
    + apply IH.
      match goal with
      | Hf : forceReset s = _ :: _ |- _ => rewrite Hf
      end.
      destruct Hj as [Hj | Hj].
      * left. apply elem_of_cons. right. exact Hj.
      * apply elem_of_union in Hj as [Hj | Hj]; [| right; exact Hj].
        apply elem_of_singleton in Hj. subst. left. apply elem_of_cons.
        left. reflexivity.
Qed.

(** X14.  No response channel is closed twice, which in Go would panic.
    In every reachable state the trace closes each channel at most once,
    the buffer of [forceReset] holds no request twice, and a request still
    in the buffer has its channel open. *)
Theorem no_channel_closed_twice (s : Sys) :
  reachable cfg s ->
  NoDup (closes (calls (drv s)))
  /\ NoDup (forceReset s)
  /\ forall i : nat, i ∈ forceReset s -> i ∉ closed s.
Proof.
  induction 1 as [w | s l s' Hreach (IHc & IHf & IHd) Hstep].
  - cbn. split; [constructor |]. split; [constructor |].
    intros i Hi. apply elem_of_nil in Hi. contradiction.
  - destruct (step_channels s s' l Hstep)
      as [(Hc & Hcl & [Hf | (i & c & Hi & Hpc & Hf)])
         | (c & rest & Hf & Hf' & Hc & Hcl)].
    + rewrite Hc, Hf, Hcl. auto.
    + assert (Hfresh : ~ (i ∈ forceReset s \/ i ∈ closed s)).
      { intros Hold.
        destruct (pending_was_sent s Hreach i Hold) as (c' & Hc' & Hs).
        rewrite Hi in Hc'. injection Hc' as <-.
        pose proof (caller_shape cfg s Hreach i c Hi) as Hshape.
        unfold callerShape, resetShape, brsShape in Hshape.
        rewrite Hpc in Hshape.
        destruct (call c); [| contradiction].
        rewrite Hshape in Hs. apply elem_of_nil in Hs. exact Hs. }
      rewrite Hc, Hf, Hcl. split; [exact IHc |]. split.
      * apply NoDup_app. split; [exact IHf |]. split; [| apply NoDup_singleton].
        intros x Hx Hx'. apply list_elem_of_singleton in Hx'. subst x.
        apply Hfresh. left. exact Hx.
      * intros x Hx. apply elem_of_app in Hx as [Hx | Hx]; [apply IHd, Hx |].
        apply list_elem_of_singleton in Hx. subst x.
        intros Hcl'. apply Hfresh. right. exact Hcl'.
    + rewrite Hf in IHf, IHd. apply NoDup_cons in IHf as (Hnin & Hnd).
      rewrite Hc, Hf', Hcl. split; [| split; [exact Hnd |]].
      * apply NoDup_app. split; [exact IHc |]. split; [| apply NoDup_singleton].
        intros x Hx Hx'. apply list_elem_of_singleton in Hx'. subst x.
        apply (closes_closed s Hreach) in Hx.
        apply (IHd c); [apply elem_of_cons; left; reflexivity | exact Hx].
      * intros x Hx Hx'. apply elem_of_union in Hx' as [Hx' | Hx'].
        -- apply elem_of_singleton in Hx'. subst x. contradiction.
        -- apply (IHd x); [apply elem_of_cons; right; exact Hx | exact Hx'].
Qed.

(** X15.  At most one caller of [BlockRefWithStatus] holds the loop.  While
    a caller stands between its send on [stateReq] and its receive on
    [wait], the loop is blocked on the channel of that caller, and no
    other call is between its own send and receive. *)
Theorem one_caller_holds_the_loop (s : Sys) (i : nat) (ci : Caller) :
  reachable cfg s ->
  callers s !! i = Some ci -> heldPc (pc ci) = true ->
  loopPc s = LoopSending i
  /\ forall (j : nat) (cj : Caller),
       j <> i -> callers s !! j = Some cj -> heldPc (pc cj) = false.
Proof.
  intros Hreach Hi Hhi.
  destruct (held_iff_loop_sending cfg s Hreach) as (Hsending & _).
  pose proof (Hsending i ci Hi Hhi) as Hli.
  split; [exact Hli |].
  intros j cj Hne Hj. destruct (heldPc (pc cj)) eqn:Hhj; [| reflexivity].
  pose proof (Hsending j cj Hj Hhj) as Hlj.
  rewrite Hli in Hlj. injection Hlj as Heq. congruence.
Qed.

Lemma reaches_reachable (s s' : Sys) :
  reaches cfg s s' -> reachable cfg s -> reachable cfg s'.
Proof.
  induction 1 as [s | s l s1 s' Hstep _ IH]; intros Hreach; [exact Hreach |].
  apply IH. exact (reachable_step cfg s l s1 Hreach Hstep).
Qed.

(** A loop that has returned stays returned; no step makes it call
    anything, close a channel or take a state request. *)
Lemma loop_returned_step (s s' : Sys) (l : Label) :
  step cfg s l s' -> loopPc s = LoopReturned ->
  loopPc s' = LoopReturned
  /\ calls (drv s') = calls (drv s)
  /\ closed s' = closed s
  /\ forall i c', callers s' !! i = Some c' -> OpSendStateReq ∈ ops c' ->
       exists c, callers s !! i = Some c /\ OpSendStateReq ∈ ops c.
Proof.
  intros Hstep Hl.
  assert (Hmove : forall i c p e o,
            callers s !! i = Some c -> OpSendStateReq ∉ o ->
            forall j c', <[i := mkCaller (call c) p e (ops c ++ o)]> (callers s)
                           !! j = Some c' ->
                         OpSendStateReq ∈ ops c' ->
                         exists c0, callers s !! j = Some c0
                                    /\ OpSendStateReq ∈ ops c0).
  { intros i c p e o Hc Ho j c' Hj Hs. rewrite lookup_insert in Hj.
    case_decide; [subst; injection Hj as <- | eauto].
    exists c. split; [exact Hc |]. cbn in Hs.
    apply elem_of_app in Hs as [Hs | Hs]; [exact Hs | contradiction]. }
  assert (Hno : forall o : CallerOp, o <> OpSendStateReq ->
                                     OpSendStateReq ∉ [o]).
  { intros o Ho Hin. apply list_elem_of_singleton in Hin. congruence. }
  inversion Hstep; subst; unfold setCaller, setLoop, advance in *;
    cbn [loopPc drv calls closed callers] in *; try congruence;
    (split; [exact Hl |]); (split; [reflexivity |]); (split; [reflexivity |]);
    eauto;
    try (eapply Hmove; [eassumption | apply Hno; discriminate]).
  - intros j c' Hj Hs. rewrite lookup_insert in Hj.
    case_decide; [subst; injection Hj as <- | eauto].
    cbn in Hs. apply elem_of_nil in Hs. contradiction.
  - intros j c' Hj Hs. rewrite lookup_insert in Hj.
    case_decide; [subst; injection Hj as <- | eauto]. cbn in Hs. eauto.
Qed.

(** X16.  After the loop has returned.  From a state in which the loop has
    returned, in every state reached later the loop is still returned, it
    has made no further call and no channel has been closed.  So a
    [ResetDerivationPipeline] has returned nil there only if its request
    was served before the loop returned, and no state request is taken any
    more. *)
Theorem after_loop_returned (s s' : Sys) :
  reachable cfg s -> loopPc s = LoopReturned -> reaches cfg s s' ->
  loopPc s' = LoopReturned
  /\ calls (drv s') = calls (drv s)
  /\ closed s' = closed s
  /\ (forall i c', callers s' !! i = Some c' -> pc c' = ResetReturned None ->
        i ∈ closed s)
  /\ (forall i c', callers s' !! i = Some c' -> OpSendStateReq ∈ ops c' ->
        exists c, callers s !! i = Some c /\ OpSendStateReq ∈ ops c).
Proof.
  intros Hreach Hl Hrun.
  assert (Hinv : loopPc s' = LoopReturned
                 /\ calls (drv s') = calls (drv s)
                 /\ closed s' = closed s
                 /\ (forall i c', callers s' !! i = Some c' ->
                       OpSendStateReq ∈ ops c' ->
                       exists c, callers s !! i = Some c
                                 /\ OpSendStateReq ∈ ops c)).
  { clear Hreach. induction Hrun as [s | s l s1 s' Hstep _ IH]; [eauto 10 |].
    destruct (loop_returned_step s s1 l Hstep Hl) as (Hl1 & Hc1 & Hcl1 & Hs1).
    destruct (IH Hl1) as (Hl' & Hc' & Hcl' & Hs').
    split; [exact Hl' |]. split; [congruence |]. split; [congruence |].
    intros i c' Hi Hs. destruct (Hs' i c' Hi Hs) as (c1 & Hi1 & Hs1').
    exact (Hs1 i c1 Hi1 Hs1'). }
  destruct Hinv as (Hl' & Hc' & Hcl' & Hs').
  split; [exact Hl' |]. split; [exact Hc' |]. split; [exact Hcl' |].
  split; [| exact Hs'].
  intros i c' Hi Hpc. rewrite <- Hcl'.
  exact (returned_nil_closed cfg s' (reaches_reachable s s' Hrun Hreach) i c'
           Hi Hpc).
Qed.

(** An iteration that does not reach the select leaves the driver context
    done. *)
Lemma beforeSelect_stops_cancelled (d : State W) :
  fst (beforeSelect cfg d) <> Next ->
  is_Some (driverCtx_Err (world (snd (beforeSelect cfg d)))).
Proof.
  rewrite beforeSelect_eq, drainBeforeSelect_run.
  destruct (bool_decide (is_Some (driverCtx_Err (world d)))) eqn:Hc;
    [apply bool_decide_eq_true in Hc; intros _; exact Hc |].
  assert (Hgo : forall d1, fst (afterDrain cfg d1) <> Next ->
                           is_Some (driverCtx_Err
                                      (world (snd (afterDrain cfg d1))))).
  { intros d1 Hne. destruct (afterDrain_next cfg d1) as (Hn & _).
    contradiction. }
  destruct (drainSet cfg); cbn zeta; [| apply Hgo].
  destruct (drain (world d)) as [[e |] w1]; cbn [fst snd]; [| apply Hgo].
  destruct (bool_decide (is_Some (driverCtx_Err w1))) eqn:Hc1; [| apply Hgo].
  apply bool_decide_eq_true in Hc1. intros _. exact Hc1.
Qed.

(** X17.  The loop returns for one reason only.  A step after which the
    loop has returned, and before which it had not, is a step of the loop
    alone that leaves the driver context done.  So no failure of a
    collaborator - alt-sync, a range fetch, an insertion, a drain under a
    live context - and no request of a caller ends the loop. *)
Theorem loop_returns_only_when_cancelled (s s' : Sys) (l : Label) :
  step cfg s l s' ->
  loopPc s <> LoopReturned -> loopPc s' = LoopReturned ->
  l = LLoop
  /\ is_Some (driverCtx_Err (world (drv s')))
  /\ callers s' = callers s
  /\ forceReset s' = forceReset s
  /\ closed s' = closed s.
Proof.
  intros Hstep Hbefore Hafter.
  inversion Hstep; subst; unfold setCaller, setLoop in *;
    cbn [loopPc drv callers forceReset closed] in *;
    try contradiction; try discriminate Hafter.
  - (* the top of the loop body *)
    split; [reflexivity |]. split; [| auto].
    match goal with
    | Hb : beforeSelect cfg (drv s) = (?ctl, ?d) |- _ =>
        pose proof (beforeSelect_stops_cancelled (drv s)) as Hc;
        rewrite Hb in Hc; cbn [fst snd] in Hc; apply Hc;
        destruct ctl; discriminate
    end.
  - (* the case ctx.Done of the select *)
    split; [reflexivity |]. split; [| auto]. cbn. assumption.
Qed.

End ChannelFacts.

(** Two calls [BlockRefWithStatus] above the finalized head.  The loop
    took the request of call 0, which now stands at its receive; call 1
    waits at its select and is not between a send and a receive. *)
Lemma one_caller_holds_the_loop_witness :
  exists (s : Sys (W := Script)) (c0 c1 : Caller),
    reachable (config CLSync false 4) s
    /\ callers s !! 0%nat = Some c0
    /\ heldPc (pc c0) = true
    /\ callers s !! 1%nat = Some c1
    /\ loopPc s = LoopSending 0%nat
    /\ heldPc (pc c1) = false.
Proof.
  pose proof (reachable_init (config CLSync false 4) node10) as R.
  run_step R ltac:(apply (step_spawn _ _ 1%nat (BlockRefWithStatus 30));
                   reflexivity).
  run_step R ltac:(eapply (step_brs_entry _ _ 1%nat);
                   [caller0 | reflexivity | reflexivity | reflexivity]).
  run_step R ltac:(apply (step_spawn _ _ 0%nat (BlockRefWithStatus 20));
                   reflexivity).
  run_step R ltac:(eapply (step_brs_entry _ _ 0%nat);
                   [caller0 | reflexivity | reflexivity | reflexivity]).
  run_step R ltac:(eapply step_loop_top; [reflexivity | vm_compute; reflexivity]).
  run_step R ltac:(eapply (step_brs_send _ _ 0%nat);
                   [caller0 | reflexivity | reflexivity]).
  run_step R ltac:(eapply (step_brs_held_status _ _ 0%nat);
                   [caller0 | reflexivity | reflexivity]).
  run_step R ltac:(eapply (step_brs_held_ref _ _ 0%nat);
                   [caller0 | reflexivity | reflexivity | reflexivity]).
  assert (Hother : forall (A : Type) (m : gmap nat A) (a b c d e f g : A),
            (<[0%nat := a]> (<[0%nat := b]> (<[0%nat := c]> (<[0%nat := d]>
               (<[0%nat := e]> (<[1%nat := f]> (<[1%nat := g]> m)))))))
              !! 1%nat = Some f).
  { intros A m a b c d e f g.
    rewrite !lookup_insert_ne by discriminate. apply lookup_insert_eq. }
  match type of R with
  | reachable _ ?s0 =>
      assert (H0 : exists c0, callers s0 !! 0%nat = Some c0
                              /\ heldPc (pc c0) = true)
        by (eexists; split; [caller0 | reflexivity]);
      assert (H1 : exists c1, callers s0 !! 1%nat = Some c1)
        by (eexists; unfold setCaller, setLoop; cbn [callers]; apply Hother)
  end.
  destruct H0 as (c0 & Hc0 & Hheld). destruct H1 as (c1 & Hc1).
  destruct (one_caller_holds_the_loop (config CLSync false 4) _ 0%nat c0
              R Hc0 Hheld) as (Hloop & Hothers).
  eexists _, c0, c1. split; [exact R |].
  split; [exact Hc0 |]. split; [exact Hheld |]. split; [exact Hc1 |].
  split; [exact Hloop |].
  apply (Hothers 1%nat c1); [discriminate | exact Hc1].
Defined.

(** A reset request that was sent and served: its channel was closed once,
    and the buffer no longer holds it. *)
Lemma no_channel_closed_twice_witness :
  exists s : Sys (W := Script),
    reachable (config CLSync false 4) s
    /\ closes (calls (drv s)) = [0%nat]
    /\ NoDup (closes (calls (drv s)))
    /\ NoDup (forceReset s)
    /\ forall i : nat, i ∈ forceReset s -> i ∉ closed s.
Proof.
  pose proof (reachable_init (config CLSync false 4) node10) as R.
  run_step R ltac:(apply (step_spawn _ _ 0%nat ResetDerivationPipeline);
                   reflexivity).
  run_step R ltac:(eapply (step_reset_send _ _ 0%nat);
                   [caller0 | reflexivity | cbn; unfold forceResetCap; lia]).
  run_step R ltac:(eapply step_loop_top; [reflexivity | vm_compute; reflexivity]).
  run_step R ltac:(eapply (step_loop_forceReset _ _ 0%nat []); reflexivity).
  eexists. split; [exact R |]. split; [reflexivity |].
  exact (no_channel_closed_twice (config CLSync false 4) _ R).
Defined.

(** The driver context is cancelled while a reset request sits in the
    buffer: the loop returns without serving it.  The caller's context is
    cancelled later and the call returns that error; the loop has done
    nothing in between. *)
Lemma after_loop_returned_witness :
  exists (s s' : Sys (W := Script)) (c' : Caller),
    reachable (config CLSync false 4) s
    /\ loopPc s = LoopReturned
    /\ reaches (config CLSync false 4) s s'
    /\ callers s' !! 0%nat = Some c'
    /\ pc c' = ResetReturned (Some ErrCanceled)
    /\ loopPc s' = LoopReturned
    /\ calls (drv s') = calls (drv s)
    /\ closed s' = closed s.
Proof.
  pose proof (reachable_init (config CLSync false 4) nodeCancelled) as R.
  run_step R ltac:(apply (step_spawn _ _ 0%nat ResetDerivationPipeline);
                   reflexivity).
  run_step R ltac:(eapply (step_reset_send _ _ 0%nat);
                   [caller0 | reflexivity | cbn; unfold forceResetCap; lia]).
  run_step R ltac:(eapply step_loop_top; [reflexivity | vm_compute; reflexivity]).
  match type of R with
  | reachable _ ?s0 =>
      assert (Hrun : exists s' c',
                reaches (config CLSync false 4) s0 s'
                /\ callers s' !! 0%nat = Some c'
                /\ pc c' = ResetReturned (Some ErrCanceled))
  end.
  { eexists _, _. split.
    - eapply reaches_step;
        [eapply (step_cancel _ _ 0%nat _ ErrCanceled);
         [caller0 | reflexivity | left; reflexivity] |].
      eapply reaches_step;
        [eapply (step_reset_inner_ctx _ _ 0%nat);
         [caller0 | reflexivity | reflexivity] |].
      apply reaches_refl.
    - split; [caller0 | reflexivity]. }
  destruct Hrun as (s' & c' & Hrun & Hc' & Hpc).
  destruct (after_loop_returned (config CLSync false 4) _ s' R eq_refl Hrun)
    as (Hloop & Hcalls & Hclosed & _).
  eexists _, s', c'. split; [exact R |]. split; [reflexivity |].
  split; [exact Hrun |]. split; [exact Hc' |]. split; [exact Hpc |].
  split; [exact Hloop |]. split; [exact Hcalls | exact Hclosed].
Defined.

(** The loop of a node whose driver context is cancelled returns at the
    top of its next iteration. *)
Lemma loop_returns_only_when_cancelled_witness :
  exists s' : Sys (W := Script),
    step (config CLSync false 4) (initial nodeCancelled) LLoop s'
    /\ loopPc s' = LoopReturned
    /\ is_Some (driverCtx_Err (world (drv s'))).
Proof.
  assert (Hstep : exists s' : Sys (W := Script),
            step (config CLSync false 4) (initial nodeCancelled) LLoop s'
            /\ loopPc s' = LoopReturned).
  { eexists. split.
    - eapply step_loop_top; [reflexivity | vm_compute; reflexivity].
    - reflexivity. }
  destruct Hstep as (s' & Hstep & Hret).
  exists s'. split; [exact Hstep |]. split; [exact Hret |].
  assert (Hlive : loopPc (initial nodeCancelled) <> LoopReturned)
    by discriminate.
  apply (loop_returns_only_when_cancelled (config CLSync false 4)
           (initial nodeCancelled) s' LLoop Hstep Hlive Hret).
Defined.

(* ===================================================================== *)
(** ** Starting the driver *)
(* ===================================================================== *)

Section StartFacts.
Context {W : Type} `{Collaborators W} `{SequencerIface W}.
Variable cfg : Config.
Variable driverConfig : DriverConfig.

(** X18.  What [Start] does before the loop runs.  With the sequencer
    disabled it makes no sequencer call.  Enabled, it sets recover mode,
    to true, exactly when the configuration asks for it, then calls
    [SetMaxSafeLag] with the configured lag and, if that succeeds, [Init],
    active iff the sequencer is not configured stopped.  When one of the
    two fails [Start] returns that error wrapped, having synced nothing
    and started no loop.  Otherwise it goes on: outside EL-sync mode it
    starts the loop at once; in EL-sync mode it runs the start-up sync
    first, and starts the loop when that returns.  [Start] puts no event
    on the bus: the calls it adds to the trace are those of the start-up
    sync. *)
Theorem Start_outcomes (ticks : nat) (s : State W) :
  let lag := SequencerMaxSafeLag driverConfig in
  let active := negb (SequencerStopped driverConfig) in
  let w1 := if RecoverMode driverConfig
            then sequencer_SetRecoverMode true (world s) else world s in
  let r2 := sequencer_SetMaxSafeLag lag w1 in
  let r3 := sequencer_Init active (snd r2) in
  let recover :=
    if RecoverMode driverConfig then [CallSetRecoverMode true] else [] in
  let run (w : W) : StartResult * State W :=
    if decide (SyncMode cfg = ELSync) then
      let r := syncUnsafeBlocks cfg ticks (mkState w (locals s) (calls s)) in
      (match fst r with
       | Exit => StartLoop
       | Panic => StartPanic
       | Next => StartSyncing
       end, snd r)
    else (StartLoop, mkState w (locals s) (calls s)) in
  (SequencerEnabled driverConfig = false ->
   Start cfg driverConfig ticks s = (run (world s), []))
  /\ (SequencerEnabled driverConfig = true ->
      forall e : Err, fst r2 = Some e ->
      Start cfg driverConfig ticks s =
        (StartError (ErrWrap "failed to set sequencer max safe lag" e),
         mkState (snd r2) (locals s) (calls s),
         recover ++ [CallSetMaxSafeLag lag]))
  /\ (SequencerEnabled driverConfig = true -> fst r2 = None ->
      forall e : Err, fst r3 = Some e ->
      Start cfg driverConfig ticks s =
        (StartError (ErrWrap "persist initial sequencer state" e),
         mkState (snd r3) (locals s) (calls s),
         recover ++ [CallSetMaxSafeLag lag; CallInit active]))
  /\ (SequencerEnabled driverConfig = true -> fst r2 = None ->
      fst r3 = None ->
      Start cfg driverConfig ticks s =
        (run (snd r3), recover ++ [CallSetMaxSafeLag lag; CallInit active]))
  /\ (exists l : list Call,
        calls (snd (fst (Start cfg driverConfig ticks s))) = calls s ++ l
        /\ Forall (fun c => isSyncCall c = true) l
        /\ emitted l = []
        /\ (SyncMode cfg <> ELSync -> l = [])
        /\ (forall e : Err,
              fst (fst (Start cfg driverConfig ticks s)) = StartError e ->
              l = [])).
Proof.
  cbn zeta.
  pose (tail := fun (w : W) (seq : list SequencerCall) =>
          (if decide (SyncMode cfg = ELSync)
           then let '(ctl, s2) :=
                  syncUnsafeBlocks cfg ticks (mkState w (locals s) (calls s)) in
                (match ctl with
                 | Exit => StartLoop
                 | Panic => StartPanic
                 | Next => StartSyncing
                 end, s2, seq)
           else (StartLoop, mkState w (locals s) (calls s), seq))
          : StartResult * State W * list SequencerCall).
  assert (Hrun : forall w seq,
            exists l : list Call,
              calls (snd (fst (tail w seq))) = calls s ++ l
              /\ Forall (fun c => isSyncCall c = true) l
              /\ emitted l = []
              /\ (SyncMode cfg <> ELSync -> l = [])
              /\ (forall e : Err,
                    fst (fst (tail w seq)) = StartError e -> l = [])).
  { intros w seq. subst tail. cbn beta.
    destruct (decide (SyncMode cfg = ELSync)) as [Hel | Hel].
    - destruct (syncUnsafeBlocks_calls cfg ticks
                  (mkState w (locals s) (calls s))) as (l & Hl & Hs & Hem).
      destruct (syncUnsafeBlocks cfg ticks _) as [ctl s2]. cbn in Hl.
      exists l. cbn. split; [exact Hl |]. split; [exact Hs |].
      split; [exact Hem |]. split; [intros Hne; contradiction |].
      intros e He. destruct ctl; discriminate He.
    - exists []. cbn. rewrite app_nil_r. split; [reflexivity |].
      split; [constructor |]. split; [reflexivity |].
      split; [reflexivity |]. intros e He. discriminate He. }
  assert (Hpair : forall w seq,
            tail w seq
            = (if decide (SyncMode cfg = ELSync)
               then (match fst (syncUnsafeBlocks cfg ticks
                                  (mkState w (locals s) (calls s))) with
                     | Exit => StartLoop
                     | Panic => StartPanic
                     | Next => StartSyncing
                     end,
                     snd (syncUnsafeBlocks cfg ticks
                            (mkState w (locals s) (calls s))))
               else (StartLoop, mkState w (locals s) (calls s)), seq)).
  { intros w seq. subst tail. cbn beta.
    destruct (decide (SyncMode cfg = ELSync)); [| reflexivity].
    destruct (syncUnsafeBlocks cfg ticks _); reflexivity. }
  unfold Start, startSequencer.
  destruct (SequencerEnabled driverConfig).
  - (* the sequencer is enabled *)
    destruct (RecoverMode driverConfig);
      destruct (sequencer_SetMaxSafeLag _ _) as [[e2 |] w2]; cbn [fst snd];
      try (destruct (sequencer_Init _ w2) as [[e3 |] w3]; cbn [fst snd]);
      (split; [discriminate |]);
      (split; [first [intros _ e He; injection He as <-; reflexivity
                     | intros _ e He; discriminate He] |]);
      (split; [first [intros _ _ e He; injection He as <-; reflexivity
                     | intros _ He; discriminate He
                     | intros _ _ e He; discriminate He] |]);
      (split; [first [intros _ _ _; apply (Hpair _ _)
                     | intros _ He; discriminate He
                     | intros _ _ He; discriminate He] |]);
      first [apply (Hrun _ _)
            | exists []; cbn; rewrite app_nil_r;
              split; [reflexivity |]; split; [constructor |];
              split; [reflexivity |]; split; reflexivity].
  - split; [intros _; apply (Hpair _ _) |].
    split; [discriminate |]. split; [discriminate |]. split; [discriminate |].
    apply (Hrun _ _).
Qed.

(** X19.  The start-up sync has no way out but success.  While the look-up
    of the latest local block answers [NotFound] and leaves the chain as
    it is, every round of [syncUnsafeBlocks] only repeats that look-up:
    after any number of rounds it is still running, whatever the driver's
    context says, and a [Start] in EL-sync mode that got past the
    sequencer has neither returned nor started the loop. *)
Theorem startup_sync_never_gives_up (s : State W) (b : option BlockInfo)
    (e : Err) (ticks : nat) :
  L2_GetLatestBlock (world s) = ((b, Some e), world s) ->
  isNotFound e = true ->
  syncUnsafeBlocks cfg ticks s
    = (Next, mkState (world s) (locals s)
               (calls s ++ repeat CallL2GetLatestBlock ticks))
  /\ (SyncMode cfg = ELSync -> SequencerEnabled driverConfig = false ->
      fst (fst (Start cfg driverConfig ticks s)) = StartSyncing).
Proof.
  intros Hl2 Hnf.
  assert (Hrun : forall ticks' cs,
            syncUnsafeBlocks cfg ticks' (mkState (world s) (locals s) cs)
            = (Next, mkState (world s) (locals s)
                       (cs ++ repeat CallL2GetLatestBlock ticks'))).
  { induction ticks' as [| t IH]; intros cs.
    - cbn. unfold ret. rewrite app_nil_r. reflexivity.
    - cbn [syncUnsafeBlocks]. unfold bind at 1.
      unfold syncUnsafeBlocksTick. unfold bind at 1. unfold invoke.
      cbn [world locals calls]. rewrite Hl2. cbn [isNotFoundErr].
      rewrite Hnf. unfold ret. rewrite IH. cbn [repeat].
      rewrite <- app_assoc. reflexivity. }
  split.
  - destruct s as [w lo cs]. apply Hrun.
  - intros Hel Hoff. unfold Start, startSequencer. rewrite Hoff.
    destruct (decide (SyncMode cfg = ELSync)); [| contradiction].
    destruct s as [w lo cs]. cbn [world locals calls] in *.
    rewrite Hrun. reflexivity.
Qed.

End StartFacts.

(** A sequencer that is to start active on a node whose engine is syncing:
    recover mode and the lag are set, [Init] fails, [Start] returns its
    error wrapped, and although the node is in EL-sync mode nothing was
    synced.  With the sequencer disabled and the EL head one block ahead,
    the start-up sync returns after its two look-ups and the loop is
    started. *)
Lemma Start_outcomes_witness :
  Start (config ELSync false 4) (sequencerConfig true true) 3 (start0 node10)
  = (StartError (ErrWrap "persist initial sequencer state"
                         (ErrOther "engine is syncing")),
     start0 node10,
     [CallSetRecoverMode true; CallSetMaxSafeLag 0; CallInit true])
  /\ Start (config ELSync false 4) (sequencerConfig false false) 3
           (start0 (script (refAt 7 10) L2BlockRef_zero 10 11 []))
     = (StartLoop,
        mkState (script (refAt 7 10) L2BlockRef_zero 10 11 [])
                (mkLocals false 0 L2BlockRef_zero)
                [CallL2GetLatestBlock; CallELGetLatestBlock],
        []).
Proof.
  split.
  - destruct (Start_outcomes (config ELSync false 4)
                (sequencerConfig true true) 3%nat (start0 node10))
      as (_ & _ & Hinit & _).
    exact (Hinit eq_refl eq_refl (ErrOther "engine is syncing") eq_refl).
  - destruct (Start_outcomes (config ELSync false 4)
                (sequencerConfig false false) 3%nat
                (start0 (script (refAt 7 10) L2BlockRef_zero 10 11 [])))
      as (Hoff & _).
    exact (Hoff eq_refl).
Defined.

(** The local chain has no block yet: three rounds of the start-up sync
    are three look-ups, and [Start] is still in the sync. *)
Lemma startup_sync_never_gives_up_witness :
  syncUnsafeBlocks (config ELSync false 4) 3
    (start0 (scriptChains (None, Some ErrNotFound)
                          (Some (mkBlockInfo 20), None) [] None))
  = (Next,
     mkState (scriptChains (None, Some ErrNotFound)
                           (Some (mkBlockInfo 20), None) [] None)
             (mkLocals false 0 L2BlockRef_zero)
             ([] ++ repeat CallL2GetLatestBlock 3))
  /\ fst (fst (Start (config ELSync false 4) (sequencerConfig false false) 3
                 (start0 (scriptChains (None, Some ErrNotFound)
                                       (Some (mkBlockInfo 20), None) []
                                       None))))
     = StartSyncing.
Proof.
  pose (w := scriptChains (None, Some ErrNotFound)
                          (Some (mkBlockInfo 20), None) [] None).
  assert (Hl2 : L2_GetLatestBlock (world (start0 w))
                = (None, Some ErrNotFound, world (start0 w))) by reflexivity.
  destruct (startup_sync_never_gives_up (config ELSync false 4)
              (sequencerConfig false false) (start0 w) None ErrNotFound 3%nat
              Hl2 eq_refl) as (Hsync & Hstart).
  split; [exact Hsync | exact (Hstart eq_refl eq_refl)].
Defined.
